(** * Pikachun: a shallow embedding of the replication engine

    The development follows the Go sources of the CDC service:
    - [internal/canal] types (Event, RowData, Position, ...),
    - the webhook and database handlers,
    - the event sink ([DefaultEventSink]),
    - the meta store ([DBMetaManager]),
    - the binlog slave ([MySQLBinlogSlave]),
    - the canal instance and the service supervisor
      ([EnhancedCanalService]).

    Go maps are [gmap]s, slices are lists, fixed-width integers are [Z]
    with the wrap-around written out, and mutable receivers are passed
    and returned explicitly. *)

From Stdlib Require Import ZArith Lia.
From stdpp Require Import gmap strings list pretty.

Open Scope string_scope.
Open Scope list_scope.
Open Scope nat_scope.

(** ** Machine integers *)

(** [uint32(x)]: conversion of an unsigned value to 32 bits. *)
Definition to_uint32 (x : Z) : Z := (x mod 2 ^ 32)%Z.

(** int64 arithmetic wraps around (two's complement). *)
Definition wrap64 (x : Z) : Z := ((x + 2 ^ 63) mod 2 ^ 64 - 2 ^ 63)%Z.

Definition int64_range (x : Z) : Prop := (- 2 ^ 63 <= x < 2 ^ 63)%Z.

(** [fmt.Sprintf("%s.%s", schema, table)] *)
Definition tableKeyOf (schema table : string) : string :=
  schema +:+ "." +:+ table.

(** A Go [error]: [None] is [nil]. *)
Definition error := option string.

(** The outcome of a call that cancels a context and then waits for the
    goroutines of its receiver while it holds the receiver's mutex (the
    [Stop] methods). A goroutine that asks for that mutex before it
    ends is never granted it: the call never returns, the mutex stays
    locked and no later call that needs it returns either. [Blocked a]
    is that outcome, with the receiver [a] as the call leaves it. *)
Inductive Outcome (A : Type) :=
| Returned (err : error) (a : A)
| Blocked (a : A).
Arguments Returned {A} err a.
Arguments Blocked {A} a.

(** The receiver after the call, returned or not. *)
Definition reached {A : Type} (o : Outcome A) : A :=
  match o with
  | Returned _ a => a
  | Blocked a => a
  end.

(** ** Types of package canal *)

(** [type EventType string] *)
Definition EventType := string.
Definition EventTypeInsert : EventType := "INSERT".
Definition EventTypeUpdate : EventType := "UPDATE".
Definition EventTypeDelete : EventType := "DELETE".

(** Decoded column values arrive as [interface{}]; the code only ever
    compares them with [nil], which is [None] below. *)
Inductive Value :=
| VInt (n : Z)
| VFloat (bits : Z)
| VString (s : string)
| VBytes (bs : list Z).

Record Position := mkPosition {
  Name : string;
  Pos : Z;            (* uint32 *)
  GTIDSet : string
}.

Record Column := mkColumn {
  col_Name : string;
  col_Type : string;
  col_Value : option Value;
  col_IsNull : bool;
  col_Updated : bool
}.

Record RowData := mkRowData { Columns : list Column }.

Record Event := mkEvent {
  ID : string;
  Schema : string;
  Table : string;
  ev_EventType : EventType;
  Timestamp : Z;      (* unix seconds *)
  ev_Position : Position;
  BeforeData : option RowData;
  AfterData : option RowData;
  SQL : string
}.

Record MySQLConfig := mkMySQLConfig {
  Host : string;
  Port : Z;           (* int *)
  Username : string;
  Password : string;
  Database : string;
  ServerID : Z;       (* uint32 *)
  BinlogFile : string;
  BinlogPos : Z       (* uint32 *)
}.

(** The interface [EventHandler]: the sink needs the handler's name. *)
Class EventHandler (H : Type) := { GetName : H → string }.

(** ** Types of the replication library (go-mysql) used by the slave *)

Module mysql.
Record Position := mkPosition { Name : string; Pos : Z (* uint32 *) }.
End mysql.

Module replication.
(** Event type codes of the binlog protocol. *)
Definition ROTATE_EVENT : Z := 4.
Definition WRITE_ROWS_EVENTv1 : Z := 23.
Definition UPDATE_ROWS_EVENTv1 : Z := 24.
Definition DELETE_ROWS_EVENTv1 : Z := 25.
Definition WRITE_ROWS_EVENTv2 : Z := 30.
Definition UPDATE_ROWS_EVENTv2 : Z := 31.
Definition DELETE_ROWS_EVENTv2 : Z := 32.

Record EventHeader := mkEventHeader {
  h_Timestamp : Z;  (* uint32 *)
  h_EventType : Z;  (* byte *)
  h_ServerID : Z;
  h_EventSize : Z;
  LogPos : Z;       (* uint32 *)
  h_Flags : Z
}.

Record TableMapEvent := mkTableMapEvent {
  tm_Schema : string;
  tm_Table : string;
  ColumnType : list Z   (* []byte *)
}.

Record RowsEvent := mkRowsEvent {
  r_Table : TableMapEvent;
  Rows : list (list (option Value))
}.

Record RotateEvent := mkRotateEvent {
  r_Position : Z;   (* uint64 *)
  NextLogName : string
}.

(** The dynamic type of [BinlogEvent.Event]. *)
Inductive EventBody :=
| BRows (e : RowsEvent)
| BQuery (query : string)
| BXID
| BGTID
| BRotate (e : RotateEvent)
| BTableMap (e : TableMapEvent)
| BOther.

Record BinlogEvent := mkBinlogEvent {
  Header : EventHeader;
  Body : EventBody
}.
End replication.

(** ** Webhook handler (batching, retrying HTTP delivery) *)

Module Webhook.

Record WebhookHandler := mkWebhookHandler {
  name : string;
  callbackURL : string;
  batchSize : Z;          (* int *)
  batchTimeout : Z;       (* time.Duration, nanoseconds *)
  eventBuffer : list Event;
  flushTimer : bool;      (* a timer is armed ([flushTimer != nil]) *)
  maxRetries : Z;         (* int *)
  retryInterval : Z;      (* time.Duration, nanoseconds *)
  successCount : Z;       (* int64 *)
  errorCount : Z          (* int64 *)
}.

Definition Second : Z := 1000000000.

Definition NewWebhookHandler (name callbackURL : string) : WebhookHandler :=
  {| name := name;
     callbackURL := callbackURL;
     batchSize := 10;
     batchTimeout := 5 * Second;
     eventBuffer := [];
     flushTimer := false;
     maxRetries := 3;
     retryInterval := Second;
     successCount := 0;
     errorCount := 0 |}.

Definition set_buffer (h : WebhookHandler) (b : list Event) (t : bool) : WebhookHandler :=
  {| name := name h; callbackURL := callbackURL h; batchSize := batchSize h;
     batchTimeout := batchTimeout h; eventBuffer := b; flushTimer := t;
     maxRetries := maxRetries h; retryInterval := retryInterval h;
     successCount := successCount h; errorCount := errorCount h |}.

Definition set_counts (h : WebhookHandler) (s e : Z) : WebhookHandler :=
  {| name := name h; callbackURL := callbackURL h; batchSize := batchSize h;
     batchTimeout := batchTimeout h; eventBuffer := eventBuffer h;
     flushTimer := flushTimer h;
     maxRetries := maxRetries h; retryInterval := retryInterval h;
     successCount := s; errorCount := e |}.

(** What one call of [sendEvents] meets on its way to the endpoint. *)
Inductive HttpOutcome :=
| MarshalError
| RequestError
| TransportError
| Status (code : Z).

(** [sendEvents]: marshal, build the request, POST, check the status. *)
Definition sendEvents (h : WebhookHandler) (events : list Event) (o : HttpOutcome) : error :=
  match o with
  | MarshalError => Some "failed to marshal events"
  | RequestError => Some "failed to create request"
  | TransportError => Some ("failed to send request to " +:+ callbackURL h)
  | Status code =>
      if ((code <? 200) || (code >=? 300))%Z
      then Some ("webhook " +:+ callbackURL h +:+ " returned status " +:+ pretty code)
      else None
  end.

(** Observable effects of the retry loop. *)
Inductive Effect :=
| Backoff (d : Z)         (* [time.After(backoff)] elapsed *)
| Send (n : nat).         (* one call of [sendEvents] with [n] events *)

(** The environment of a batch send: the outcome of the [k]-th call of
    [sendEvents] and whether [ctx.Done()] wins the select that precedes
    attempt [k]. *)
Record SendEnv := mkSendEnv {
  outcome : nat → HttpOutcome;
  cancelled : nat → bool
}.

(** The loop [for attempt := 0; attempt <= h.maxRetries; attempt++];
    [fuel] is the number of iterations left. *)
Fixpoint retryLoop (fuel : nat) (attempt : nat) (env : SendEnv)
    (events : list Event) (h : WebhookHandler) (tr : list Effect)
    : WebhookHandler * list Effect :=
  match fuel with
  | O => (h, tr)            (* all attempts failed: logged, batch dropped *)
  | S fuel' =>
      let backoff := wrap64 (Z.of_nat attempt * retryInterval h) in
      if (0 <? attempt)%nat && cancelled env attempt then (h, tr)
      else
        let tr := if (0 <? attempt)%nat then tr ++ [Backoff backoff] else tr in
        let tr := tr ++ [Send (length events)] in
        match sendEvents h events (outcome env attempt) with
        | Some _ =>
            let h := set_counts h (successCount h) (wrap64 (errorCount h + 1)) in
            retryLoop fuel' (S attempt) env events h tr
        | None =>
            (set_counts h (wrap64 (successCount h + Z.of_nat (length events)))
                        (errorCount h), tr)
        end
  end.

Definition sendEventsWithRetry (env : SendEnv) (events : list Event)
    (h : WebhookHandler) : WebhookHandler * list Effect :=
  retryLoop (Z.to_nat (maxRetries h + 1)) 0 env events h [].

(** [flushEvents] empties the buffer and hands the batch to a new
    goroutine that runs [sendEventsWithRetry]; the batch is returned
    here as the spawned job. It always returns [nil]. *)
Definition flushEvents (h : WebhookHandler) : error * WebhookHandler * option (list Event) :=
  match eventBuffer h with
  | [] => (None, h, None)
  | events => (None, set_buffer h [] false, Some events)
  end.

Definition Handle (h : WebhookHandler) (event : Event)
    : error * WebhookHandler * option (list Event) :=
  let h := set_buffer h (eventBuffer h ++ [event]) (flushTimer h) in
  if (Z.of_nat (length (eventBuffer h)) >=? batchSize h)%Z
  then flushEvents h
  else (None, set_buffer h (eventBuffer h) true, None).

(** The function armed by [time.AfterFunc(h.batchTimeout, ...)]. *)
Definition onFlushTimer (h : WebhookHandler) : WebhookHandler * option (list Event) :=
  match eventBuffer h with
  | [] => (h, None)
  | _ => let '(_, h', job) := flushEvents h in (h', job)
  end.

(** The effects of attempt [j] when nothing overflows: a backoff of
    [j * retryInterval] before every attempt but the first, then the
    call of [sendEvents]. *)
Definition attemptEffects (n : nat) (retryInterval : Z) (j : nat) : list Effect :=
  if (j =? 0)%nat then [Send n] else [Backoff (Z.of_nat j * retryInterval); Send n].

#[global] Instance WebhookHandler_EventHandler : EventHandler WebhookHandler :=
  {| GetName := name |}.

(** The sink calling [Handle] for one event after another. The second
    component lists the batches handed to sender goroutines, in the
    order they were spawned. *)
Fixpoint handleAll (h : WebhookHandler) (events : list Event)
    : WebhookHandler * list (list Event) :=
  match events with
  | [] => (h, [])
  | e :: rest =>
      let '(_, h', job) := Handle h e in
      let '(h'', jobs) := handleAll h' rest in
      (h'', option_list job ++ jobs)
  end.

(** What the handler meets over time: the sink calls [Handle] with an
    event, or the function armed with [time.AfterFunc] runs. A timer
    that was stopped while its function was already waiting for the
    buffer mutex still runs it, so the function may run at any time. *)
Inductive Input :=
| Incoming (e : Event)
| TimerFires.

(** Who handed a batch to a sender goroutine. *)
Inductive Origin := ByHandle | ByTimer.

Definition incoming (inputs : list Input) : list Event :=
  omap (λ i, match i with Incoming e => Some e | TimerFires => None end) inputs.

(** The handler over a sequence of inputs; the second component lists
    the batches handed to sender goroutines, in the order they were
    spawned, each with its origin. *)
Fixpoint run (h : WebhookHandler) (inputs : list Input)
    : WebhookHandler * list (Origin * list Event) :=
  match inputs with
  | [] => (h, [])
  | Incoming e :: rest =>
      let '(_, h', job) := Handle h e in
      let '(h'', jobs) := run h' rest in
      (h'', option_list (pair ByHandle <$> job) ++ jobs)
  | TimerFires :: rest =>
      let '(h', job) := onFlushTimer h in
      let '(h'', jobs) := run h' rest in
      (h'', option_list (pair ByTimer <$> job) ++ jobs)
  end.

(** What holds of a batch, by its origin: [Handle] flushes a buffer
    that has reached the batch size, the timer one that has not. *)
Definition batch_ok (batchSize : Z) (b : Origin * list Event) : Prop :=
  match b.1 with
  | ByHandle => Z.of_nat (length b.2) = batchSize
  | ByTimer => (0 < Z.of_nat (length b.2) < batchSize)%Z
  end.

End Webhook.

(** ** Database handler (event log) *)

Module DatabaseH.

Record EventLog := mkEventLog {
  TaskID : Z;
  el_Database : string;
  el_Table : string;
  el_EventType : string;
  Data : string;
  el_Status : string;
  el_Error : string
}.

(** The injected [EventLogger] ([TaskService]): the rows of [event_logs]
    and the error its next [db.Create] returns, if any. *)
Record EventLogger := mkEventLogger {
  logs : list EventLog;
  createFault : error
}.

Definition CreateEventLog (s : EventLogger) (taskID : Z)
    (database table eventType data status errorMsg : string) : error * EventLogger :=
  match createFault s with
  | Some e => (Some e, s)
  | None =>
      (None, {| logs := logs s ++ [mkEventLog taskID database table eventType data status errorMsg];
                createFault := None |})
  end.

Record DatabaseHandler := mkDatabaseHandler {
  name : string;
  taskID : Z;             (* uint *)
  enabled : bool;
  processCount : Z        (* int64 *)
}.

Definition NewDatabaseHandler (name : string) (taskID : Z) (enabled : bool) : DatabaseHandler :=
  {| name := name; taskID := taskID; enabled := enabled; processCount := 0 |}.

Section Handle.
(** [json.Marshal] on a [*RowData] (its error is ignored by the caller,
    the bytes are then empty). *)
Variable json_Marshal : RowData → string.

Definition Handle (h : DatabaseHandler) (dbService : EventLogger) (event : Event)
    : error * DatabaseHandler * EventLogger :=
  let h := {| name := name h; taskID := taskID h; enabled := enabled h;
              processCount := wrap64 (processCount h + 1) |} in
  if negb (enabled h) then (None, h, dbService)
  else
    let data := match AfterData event with
                | Some after => json_Marshal after
                | None => ""
                end in
    match CreateEventLog dbService (taskID h) (Schema event) (Table event)
            (ev_EventType event) data "success" "" with
    | (Some err, db') => (Some err, h, db')
    | (None, db') => (None, h, db')
    end.
(** [Handle] called for one event after another; the errors returned
    are collected. *)
Fixpoint handleAll (h : DatabaseHandler) (dbService : EventLogger) (events : list Event)
    : list error * DatabaseHandler * EventLogger :=
  match events with
  | [] => ([], h, dbService)
  | e :: rest =>
      let '(err, h', db') := Handle h dbService e in
      let '(errs, h'', db'') := handleAll h' db' rest in
      (err :: errs, h'', db'')
  end.
End Handle.

#[global] Instance DatabaseHandler_EventHandler : EventHandler DatabaseHandler :=
  {| GetName := name |}.

End DatabaseH.

(** ** Event sink *)

Module Sink.

(** Capacity of [eventCh] ([make(chan *Event, 1000)]). *)
Definition eventChCap : nat := 1000.

Section Sink.
Context {H : Type} `{EventHandler H}.

Record DefaultEventSink := mkSink {
  handlers : gmap string (gmap string H);  (* schema.table -> name -> handler *)
  eventCh : list Event;                    (* buffered channel, oldest first *)
  started : bool                           (* [ctx != nil] *)
}.

Definition NewDefaultEventSink : DefaultEventSink :=
  {| handlers := ∅; eventCh := []; started := false |}.

Definition Start (s : DefaultEventSink) : error * DefaultEventSink :=
  if started s then (Some "event sink already started", s)
  else (None, {| handlers := handlers s; eventCh := eventCh s; started := true |}).

(** [Stop] takes the mutex and, when the sink was started, cancels the
    context and waits for the consumer with the mutex held.
    [consumerLeaves] tells what the consumer does: it leaves at its
    select ([true]), or it takes (or already holds) an event and asks
    for the read lock in [handleEvent] ([false]); [Stop] then never
    returns, with the context still set. *)
Definition Stop (s : DefaultEventSink) (consumerLeaves : bool) : Outcome DefaultEventSink :=
  if negb (started s) then Returned None s
  else if consumerLeaves
  then Returned None {| handlers := handlers s; eventCh := eventCh s; started := false |}
  else Blocked s.

(** The handler map registered under a key ([nil] and the empty map
    read alike). *)
Definition handlersAt (s : DefaultEventSink) (key : string) : gmap string H :=
  default ∅ (handlers s !! key).

Definition Subscribe (s : DefaultEventSink) (schema table : string) (handler : H)
    : error * DefaultEventSink :=
  let key := tableKeyOf schema table in
  let hs := match handlers s !! key with
            | None => <[key := ∅]> (handlers s)
            | Some _ => handlers s
            end in
  let inner := default ∅ (hs !! key) in
  (None, {| handlers := <[key := <[GetName handler := handler]> inner]> hs;
            eventCh := eventCh s; started := started s |}).

Definition Unsubscribe (s : DefaultEventSink) (schema table handlerName : string)
    : error * DefaultEventSink :=
  let key := tableKeyOf schema table in
  match handlers s !! key with
  | Some hs =>
      let hs' := delete handlerName hs in
      let all := if decide (size hs' = 0%nat)
                 then delete key (handlers s)
                 else <[key := hs']> (handlers s) in
      (None, {| handlers := all; eventCh := eventCh s; started := started s |})
  | None => (None, s)
  end.

(** [SendEvent]: the select between the channel send and
    [time.After(5 * time.Second)]. With room in the buffer the send is
    ready at once. With a full buffer the send waits for the consumer;
    consumer steps are separate transitions of the model, so a call on a
    full buffer is the call that runs into the timeout. *)
Definition SendEvent (s : DefaultEventSink) (event : Event) : error * DefaultEventSink :=
  if (length (eventCh s) <? eventChCap)%nat
  then (None, {| handlers := handlers s; eventCh := eventCh s ++ [event];
                 started := started s |})
  else (Some "send event timeout", s).

(** The snapshot [handleEvent] copies under the read lock. *)
Definition handlersFor (s : DefaultEventSink) (event : Event) : gmap string H :=
  handlersAt s (tableKeyOf (Schema event) (Table event)).

End Sink.
Arguments DefaultEventSink H : clear implicits.

End Sink.

(** ** Meta store *)

Module Meta.

(** A row of [binlog_positions] (timestamps and the surrogate key are
    not read by the code below). *)
Record BinlogPosition := mkBinlogPosition {
  InstanceID : string;
  Filename : string;
  bp_Position : Z;    (* uint32 *)
  bp_GTIDSet : string
}.

(** The storage handle: the table, indexed by its unique [instance_id],
    and the error each kind of statement meets, if any. *)
Record DB := mkDB {
  positions : gmap string BinlogPosition;
  firstFault : error;
  createFault : error;
  updatesFault : error
}.

Inductive FirstResult :=
| Found (r : BinlogPosition)
| ErrRecordNotFound
| FirstError (e : string).

Definition set_positions (d : DB) (p : gmap string BinlogPosition) : DB :=
  {| positions := p; firstFault := firstFault d; createFault := createFault d;
     updatesFault := updatesFault d |}.

(** [db.Where("instance_id = ?", id).First(...)] *)
Definition db_First (d : DB) (id : string) : FirstResult :=
  match firstFault d with
  | Some e => FirstError e
  | None => match positions d !! id with
            | Some r => Found r
            | None => ErrRecordNotFound
            end
  end.

(** [db.Create(&row)] *)
Definition db_Create (d : DB) (row : BinlogPosition) : error * DB :=
  match createFault d with
  | Some e => (Some e, d)
  | None =>
      match positions d !! InstanceID row with
      | Some _ => (Some "UNIQUE constraint failed: binlog_positions.instance_id", d)
      | None => (None, set_positions d (<[InstanceID row := row]> (positions d)))
      end
  end.

(** [db.Where("instance_id = ?", id).Updates(&row)]: an update from a
    struct writes its non-zero fields; no matching row is not an error. *)
Definition merge_nonzero (new old : BinlogPosition) : BinlogPosition :=
  {| InstanceID := if decide (InstanceID new = "") then InstanceID old else InstanceID new;
     Filename := if decide (Filename new = "") then Filename old else Filename new;
     bp_Position := if decide (bp_Position new = 0%Z) then bp_Position old else bp_Position new;
     bp_GTIDSet := if decide (bp_GTIDSet new = "") then bp_GTIDSet old else bp_GTIDSet new |}.

Definition db_Updates (d : DB) (id : string) (row : BinlogPosition) : error * DB :=
  match updatesFault d with
  | Some e => (Some e, d)
  | None => (None, set_positions d (alter (merge_nonzero row) id (positions d)))
  end.

Record DBMetaManager := mkDBMetaManager {
  db : DB;
  cache : gmap string Position   (* instanceID -> Position *)
}.

Definition SavePosition (m : DBMetaManager) (instanceID : string) (pos : Position)
    : error * DBMetaManager :=
  (* update the cache *)
  let cache' := <[instanceID := pos]> (cache m) in
  (* save to the database *)
  let binlogPos := {| InstanceID := instanceID; Filename := Name pos;
                      bp_Position := Pos pos; bp_GTIDSet := GTIDSet pos |} in
  match db_First (db m) instanceID with
  | ErrRecordNotFound =>
      match db_Create (db m) binlogPos with
      | (Some err, d) =>
          (Some ("failed to create binlog position: " +:+ err), {| db := d; cache := cache' |})
      | (None, d) => (None, {| db := d; cache := cache' |})
      end
  | _ =>
      match db_Updates (db m) instanceID binlogPos with
      | (Some err, d) =>
          (Some ("failed to update binlog position: " +:+ err), {| db := d; cache := cache' |})
      | (None, d) => (None, {| db := d; cache := cache' |})
      end
  end.

(** The row that [SavePosition] builds from its arguments. *)
Definition rowOf (instanceID : string) (pos : Position) : BinlogPosition :=
  {| InstanceID := instanceID; Filename := Name pos;
     bp_Position := Pos pos; bp_GTIDSet := GTIDSet pos |}.

(** [LoadPosition] holds the read lock until it returns. On a cache
    miss with a row in storage it then asks for the write lock of the
    same mutex, which is never granted: that call does not return. *)
Inductive LoadResult :=
| LoadOk (pos : Position)
| LoadErr (e : string)
| LoadBlocked.

Definition LoadPosition (m : DBMetaManager) (instanceID : string) : LoadResult :=
  match cache m !! instanceID with
  | Some pos => LoadOk pos
  | None =>
      match db_First (db m) instanceID with
      | ErrRecordNotFound => LoadOk {| Name := ""; Pos := 4; GTIDSet := "" |}
      | FirstError e => LoadErr ("failed to load binlog position: " +:+ e)
      | Found _ => LoadBlocked
      end
  end.

(** *** Loading the cache, deleting, cleaning up *)

Definition toPosition (r : BinlogPosition) : Position :=
  {| Name := Filename r; Pos := bp_Position r; GTIDSet := bp_GTIDSet r |}.

(** Every row is stored under its own instance id. *)
Definition wf_db (d : DB) : Prop :=
  ∀ k r, positions d !! k = Some r → InstanceID r = k.

(** Every stored row has a cache entry. *)
Definition consistent (m : DBMetaManager) : Prop :=
  ∀ k, is_Some (positions (db m) !! k) → is_Some (cache m !! k).

(** The position part of [loadCache]: [findFault] is the error of
    [db.Find(&positions)], [tablesFault] the error of the query for the
    table metadata that follows it. Entries are added or overwritten,
    none is removed. *)
Definition loadCache (m : DBMetaManager) (findFault tablesFault : error)
    : error * DBMetaManager :=
  match findFault with
  | Some e => (Some ("failed to load binlog positions: " +:+ e), m)
  | None =>
      let m' := {| db := db m;
                   cache := foldl (λ c r, <[InstanceID r := toPosition r]> c) (cache m)
                              (map_to_list (positions (db m))).*2 |} in
      match tablesFault with
      | Some e => (Some ("failed to load table metadata: " +:+ e), m')
      | None => (None, m')
      end
  end.

(** [NewDBMetaManager]: migration, then [loadCache] into empty maps. *)
Definition NewDBMetaManager (d : DB) (migrateFault findFault tablesFault : error)
    : error * option DBMetaManager :=
  match migrateFault with
  | Some e => (Some ("failed to auto migrate tables: " +:+ e), None)
  | None =>
      match loadCache {| db := d; cache := ∅ |} findFault tablesFault with
      | (Some e, _) => (Some ("failed to load cache: " +:+ e), None)
      | (None, m) => (None, Some m)
      end
  end.

(** [DeletePosition]; [deleteFault] is the error of the delete
    statement. Deleting a row that does not exist is not an error. *)
Definition DeletePosition (m : DBMetaManager) (instanceID : string) (deleteFault : error)
    : error * DBMetaManager :=
  (* delete from the cache *)
  let cache' := delete instanceID (cache m) in
  (* delete from the database *)
  match deleteFault with
  | Some e => (Some ("failed to delete binlog position: " +:+ e),
               {| db := db m; cache := cache' |})
  | None => (None, {| db := set_positions (db m) (delete instanceID (positions (db m)));
                      cache := cache' |})
  end.

(** [Cleanup]. Which rows have [updated_at] before the cutoff is
    decided by the storage, whose timestamps are not part of the rows
    modelled here: [expired] tells it per instance id. The faults are
    those of the two delete statements and of the two queries of
    [loadCache]. *)
Definition Cleanup (m : DBMetaManager) (expired : string → bool)
    (deleteFault tablesDeleteFault findFault tablesFault : error)
    : error * DBMetaManager :=
  match deleteFault with
  | Some e => (Some ("failed to cleanup old binlog positions: " +:+ e), m)
  | None =>
      let kept := filter (λ kr, expired kr.1 = false) (positions (db m)) in
      let m' := {| db := set_positions (db m) kept; cache := cache m |} in
      match tablesDeleteFault with
      | Some e => (Some ("failed to cleanup old table metadata: " +:+ e), m')
      | None => loadCache m' findFault tablesFault
      end
  end.

(** A sequence of saves, errors ignored. *)
Definition saveAll (m : DBMetaManager) (saves : list (string * Position)) : DBMetaManager :=
  foldl (λ m kp, (SavePosition m kp.1 kp.2).2) m saves.

End Meta.

(** ** MySQL binlog slave *)

Module Slave.

Record ColumnInfo := mkColumnInfo {
  ci_Name : string;
  ci_Type : string;
  Nullable : bool;
  IsPK : bool
}.

Record TableSchema := mkTableSchema {
  ts_Schema : string;
  ts_Table : string;
  ts_Columns : list ColumnInfo;
  PKColumns : list Z
}.

Record MySQLBinlogSlave := mkSlave {
  config : MySQLConfig;
  watchTables : gmap string bool;        (* schema.table -> enabled *)
  eventTypes : gmap EventType bool;
  running : bool;
  instanceID : string;
  binlogPos : mysql.Position;
  gtidSet : option string;               (* [mysql.GTIDSet], [None] is nil *)
  reconnectCount : Z;
  tableSchemas : gmap string TableSchema;
  eventCounter : gmap EventType Z;       (* int64 *)
  hasMetaManager : bool                  (* [metaManager != nil] *)
}.

Definition set_eventTypes (m : MySQLBinlogSlave) (ets : gmap EventType bool) :=
  {| config := config m; watchTables := watchTables m; eventTypes := ets;
     running := running m; instanceID := instanceID m; binlogPos := binlogPos m;
     gtidSet := gtidSet m; reconnectCount := reconnectCount m;
     tableSchemas := tableSchemas m; eventCounter := eventCounter m;
     hasMetaManager := hasMetaManager m |}.

Definition set_watchTables (m : MySQLBinlogSlave) (w : gmap string bool) :=
  {| config := config m; watchTables := w; eventTypes := eventTypes m;
     running := running m; instanceID := instanceID m; binlogPos := binlogPos m;
     gtidSet := gtidSet m; reconnectCount := reconnectCount m;
     tableSchemas := tableSchemas m; eventCounter := eventCounter m;
     hasMetaManager := hasMetaManager m |}.

Definition set_running (m : MySQLBinlogSlave) (r : bool) :=
  {| config := config m; watchTables := watchTables m; eventTypes := eventTypes m;
     running := r; instanceID := instanceID m; binlogPos := binlogPos m;
     gtidSet := gtidSet m; reconnectCount := reconnectCount m;
     tableSchemas := tableSchemas m; eventCounter := eventCounter m;
     hasMetaManager := hasMetaManager m |}.

Definition set_binlogPos (m : MySQLBinlogSlave) (p : mysql.Position) :=
  {| config := config m; watchTables := watchTables m; eventTypes := eventTypes m;
     running := running m; instanceID := instanceID m; binlogPos := p;
     gtidSet := gtidSet m; reconnectCount := reconnectCount m;
     tableSchemas := tableSchemas m; eventCounter := eventCounter m;
     hasMetaManager := hasMetaManager m |}.

Definition set_tableSchemas (m : MySQLBinlogSlave) (t : gmap string TableSchema) :=
  {| config := config m; watchTables := watchTables m; eventTypes := eventTypes m;
     running := running m; instanceID := instanceID m; binlogPos := binlogPos m;
     gtidSet := gtidSet m; reconnectCount := reconnectCount m;
     tableSchemas := t; eventCounter := eventCounter m;
     hasMetaManager := hasMetaManager m |}.

Definition set_eventCounter (m : MySQLBinlogSlave) (c : gmap EventType Z) :=
  {| config := config m; watchTables := watchTables m; eventTypes := eventTypes m;
     running := running m; instanceID := instanceID m; binlogPos := binlogPos m;
     gtidSet := gtidSet m; reconnectCount := reconnectCount m;
     tableSchemas := tableSchemas m; eventCounter := c;
     hasMetaManager := hasMetaManager m |}.

(** [fmt.Sprintf("mysql-slave-%s-%d-%d", config.Host, config.Port, config.ServerID)] *)
Definition slaveInstanceID (cfg : MySQLConfig) : string :=
  "mysql-slave-" +:+ Host cfg +:+ "-" +:+ pretty (Port cfg) +:+ "-" +:+ pretty (ServerID cfg).

(** [NewMySQLBinlogSlaveWithMeta]; [initBinlogSyncer] only builds the
    syncer and returns [nil], so the constructor does not fail. *)
Definition NewMySQLBinlogSlaveWithMeta (cfg : MySQLConfig) (withMeta : bool) : MySQLBinlogSlave :=
  {| config := cfg;
     watchTables := ∅;
     eventTypes := <[EventTypeDelete := true]>
                     (<[EventTypeUpdate := true]> (<[EventTypeInsert := true]> ∅));
     running := false;
     instanceID := slaveInstanceID cfg;
     binlogPos := {| mysql.Name := "mysql-bin.000001"; mysql.Pos := 4 |};
     gtidSet := None;
     reconnectCount := 0;
     tableSchemas := ∅;
     eventCounter := ∅;
     hasMetaManager := withMeta |}.

Definition NewMySQLBinlogSlave (cfg : MySQLConfig) : MySQLBinlogSlave :=
  NewMySQLBinlogSlaveWithMeta cfg false.

Definition AddWatchTable (m : MySQLBinlogSlave) (schema table : string) : MySQLBinlogSlave :=
  set_watchTables m (<[tableKeyOf schema table := true]> (watchTables m)).

Definition RemoveWatchTable (m : MySQLBinlogSlave) (schema table : string) : MySQLBinlogSlave :=
  set_watchTables m (delete (tableKeyOf schema table) (watchTables m)).

Definition SetEventTypes (m : MySQLBinlogSlave) (ets : list EventType) : MySQLBinlogSlave :=
  set_eventTypes m (foldl (λ acc et, <[et := true]> acc) ∅ ets).

Definition GetBinlogPosition (m : MySQLBinlogSlave) : Position :=
  {| Name := mysql.Name (binlogPos m); Pos := mysql.Pos (binlogPos m); GTIDSet := "" |}.

(** [getCurrentPosition]; [None] when the call into the meta store
    never returns. Its error result is always [nil]. *)
Definition getCurrentPosition (m : MySQLBinlogSlave) (mm : Meta.DBMetaManager)
    : option (error * MySQLBinlogSlave) :=
  let dflt := set_binlogPos m {| mysql.Name := ""; mysql.Pos := 4 |} in
  if hasMetaManager m then
    match Meta.LoadPosition mm (instanceID m) with
    | Meta.LoadOk pos =>
        Some (None, set_binlogPos m {| mysql.Name := Name pos; mysql.Pos := Pos pos |})
    | Meta.LoadErr _ => Some (None, dflt)
    | Meta.LoadBlocked => None
    end
  else Some (None, dflt).

(** [Start]; [connOK] tells whether [testConnection] reaches the server.
    The three goroutines it launches are not part of the result. *)
Definition Start (m : MySQLBinlogSlave) (mm : Meta.DBMetaManager) (connOK : bool)
    : option (error * MySQLBinlogSlave) :=
  if running m then Some (Some "mysql binlog slave is already running", m)
  else
    let m := set_running m true in
    if negb (hasMetaManager m) && negb connOK
    then Some (Some "failed to connect to MySQL server", set_running m false)
    else
      match getCurrentPosition m mm with
      | None => None
      | Some (Some err, m') =>
          if negb (hasMetaManager m')
          then Some (Some ("failed to get current position and no meta manager available: "
                           +:+ err), set_running m' false)
          else Some (None, set_binlogPos m'
                             {| mysql.Name := "mysql-bin.000001"; mysql.Pos := 4 |})
      | Some (None, m') => Some (None, m')
      end.

(** [Stop] takes the mutex, cancels the context, closes the syncer and
    waits for the three goroutines with the mutex held; [running] is
    cleared after the wait. [goroutinesLeave] tells what the goroutines
    do once the context is cancelled: each ends at a select that sees
    the cancelled context ([true]), or one of them gets to a call that
    locks the mutex first ([false]): the stream goroutine whose
    [GetEvent] fails calls [handleReconnect], one that has an event in
    hand calls [updatePosition], the monitor calls [logStatus]. [Stop]
    then never returns and [running] stays set. *)
Definition Stop (m : MySQLBinlogSlave) (goroutinesLeave : bool) : Outcome MySQLBinlogSlave :=
  if negb (running m) then Returned None m
  else if goroutinesLeave then Returned None (set_running m false)
  else Blocked m.

Definition getColumnTypeName (colType : Z) : string :=
  if decide (colType = 1)%Z then "tinyint"
  else if decide (colType = 2)%Z then "smallint"
  else if decide (colType = 3)%Z then "int"
  else if decide (colType = 8)%Z then "bigint"
  else if decide (colType = 4)%Z then "float"
  else if decide (colType = 5)%Z then "double"
  else if decide (colType = 246)%Z then "decimal"
  else if decide (colType = 253 ∨ colType = 254)%Z then "varchar"
  else if decide (colType = 12)%Z then "datetime"
  else if decide (colType = 10)%Z then "date"
  else if decide (colType = 11)%Z then "time"
  else if decide (colType = 7)%Z then "timestamp"
  else "unknown_" +:+ pretty colType.

Definition getTableSchema (m : MySQLBinlogSlave) (schema table : string)
    (tableInfo : replication.TableMapEvent) : TableSchema * MySQLBinlogSlave :=
  let tableKey := tableKeyOf schema table in
  match tableSchemas m !! tableKey with
  | Some ts => (ts, m)
  | None =>
      let ts := {| ts_Schema := schema;
                   ts_Table := table;
                   ts_Columns :=
                     imap (λ i colType,
                            {| ci_Name := "col_" +:+ pretty i;
                               ci_Type := getColumnTypeName colType;
                               Nullable := true;
                               IsPK := false |})
                          (replication.ColumnType tableInfo);
                   PKColumns := [] |} in
      (ts, set_tableSchemas m (<[tableKey := ts]> (tableSchemas m)))
  end.

Definition convertRowToRowData (tableSchema : TableSchema) (row : list (option Value)) : RowData :=
  {| Columns :=
       imap (λ i colInfo,
              let '(value, isNull) :=
                match row !! i with
                | Some v => (v, bool_decide (v = None))
                | None => (None, true)
                end in
              {| col_Name := ci_Name colInfo;
                 col_Type := ci_Type colInfo;
                 col_Value := value;
                 col_IsNull := isNull;
                 col_Updated := false |})
            (ts_Columns tableSchema) |}.

Definition createCanalEvent (m : MySQLBinlogSlave) (header : replication.EventHeader)
    (tableSchema : TableSchema) (eventType : EventType) (row : list (option Value))
    (rowIndex : nat) (allRows : list (list (option Value))) : Event :=
  let id := "mysql-binlog-" +:+ pretty (replication.LogPos header) +:+ "-"
            +:+ pretty (replication.h_Timestamp header) +:+ "-" +:+ pretty rowIndex in
  let position := {| Name := mysql.Name (binlogPos m);
                     Pos := replication.LogPos header;
                     GTIDSet := default "" (gtidSet m) |} in
  let '(before, after) :=
    if decide (eventType = EventTypeInsert) then
      (None, Some (convertRowToRowData tableSchema row))
    else if decide (eventType = EventTypeDelete) then
      (Some (convertRowToRowData tableSchema row), None)
    else if decide (eventType = EventTypeUpdate) then
      if (rowIndex mod 2 =? 0)%nat && (rowIndex + 1 <? length allRows)%nat then
        (* UPDATE rows come in pairs: before, after *)
        match allRows !! (rowIndex + 1)%nat with
        | Some next => (Some (convertRowToRowData tableSchema row),
                        Some (convertRowToRowData tableSchema next))
        | None => (None, None)   (* excluded by the bound just tested *)
        end
      else (None, None)
    else (None, None) in
  {| ID := id;
     Schema := ts_Schema tableSchema;
     Table := ts_Table tableSchema;
     ev_EventType := eventType;
     Timestamp := replication.h_Timestamp header;
     ev_Position := position;
     BeforeData := before;
     AfterData := after;
     SQL := "" |}.

(** Two slave states that differ at most in the watch list, the event
    types, the table-schema cache and the event counters. *)
Definition same_session (m m' : MySQLBinlogSlave) : Prop :=
  binlogPos m' = binlogPos m
  ∧ gtidSet m' = gtidSet m
  ∧ running m' = running m
  ∧ instanceID m' = instanceID m
  ∧ hasMetaManager m' = hasMetaManager m
  ∧ reconnectCount m' = reconnectCount m.

Section Stream.
Context {H : Type} `{EventHandler H}.

(** The row loop of [handleRowsEvent], from row [i] on. A failed send
    returns at once; the rows after it are not sent. *)
Fixpoint sendRows (header : replication.EventHeader) (tableSchema : TableSchema)
    (eventType : EventType) (allRows : list (list (option Value)))
    (i : nat) (rows : list (list (option Value)))
    (m : MySQLBinlogSlave) (sink : Sink.DefaultEventSink H)
    : error * MySQLBinlogSlave * Sink.DefaultEventSink H :=
  match rows with
  | [] => (None, m, sink)
  | row :: rest =>
      let event := createCanalEvent m header tableSchema eventType row i allRows in
      match Sink.SendEvent sink event with
      | (Some err, sink') => (Some ("failed to send event: " +:+ err), m, sink')
      | (None, sink') =>
          let n := default 0%Z (eventCounter m !! eventType) in
          let m' := set_eventCounter m (<[eventType := wrap64 (n + 1)]> (eventCounter m)) in
          sendRows header tableSchema eventType allRows (S i) rest m' sink'
      end
  end.

(** The switch on [header.EventType]. *)
Definition rowsEventType (header : replication.EventHeader) : option EventType :=
  let t := replication.h_EventType header in
  if decide (t = replication.WRITE_ROWS_EVENTv1 ∨ t = replication.WRITE_ROWS_EVENTv2)
  then Some EventTypeInsert
  else if decide (t = replication.UPDATE_ROWS_EVENTv1 ∨ t = replication.UPDATE_ROWS_EVENTv2)
  then Some EventTypeUpdate
  else if decide (t = replication.DELETE_ROWS_EVENTv1 ∨ t = replication.DELETE_ROWS_EVENTv2)
  then Some EventTypeDelete
  else None.

Definition handleRowsEvent (m : MySQLBinlogSlave) (sink : Sink.DefaultEventSink H)
    (header : replication.EventHeader) (e : replication.RowsEvent)
    : error * MySQLBinlogSlave * Sink.DefaultEventSink H :=
  let schemaName := replication.tm_Schema (replication.r_Table e) in
  let tableName := replication.tm_Table (replication.r_Table e) in
  let tableKey := tableKeyOf schemaName tableName in
  let shouldWatch := default false (watchTables m !! tableKey) in
  if (0 <? size (watchTables m))%nat && negb shouldWatch then (None, m, sink)
  else
    match rowsEventType header with
    | None => (None, m, sink)
    | Some eventType =>
        if negb (default false (eventTypes m !! eventType)) then (None, m, sink)
        else
          let '(tableSchema, m) :=
            getTableSchema m schemaName tableName (replication.r_Table e) in
          sendRows header tableSchema eventType (replication.Rows e) 0
                   (replication.Rows e) m sink
    end.

(** [handleBinlogEvent]: only rows events do more than log. *)
Definition handleBinlogEvent (m : MySQLBinlogSlave) (sink : Sink.DefaultEventSink H)
    (ev : replication.BinlogEvent)
    : error * MySQLBinlogSlave * Sink.DefaultEventSink H :=
  match replication.Body ev with
  | replication.BRows e => handleRowsEvent m sink (replication.Header ev) e
  | _ => (None, m, sink)
  end.

(** [updatePosition]. The second component is the save handed to a new
    goroutine: the key and the position passed to [SavePosition]. *)
Definition updatePosition (m : MySQLBinlogSlave) (ev : replication.BinlogEvent)
    : MySQLBinlogSlave * option (string * Position) :=
  let oldPos := binlogPos m in
  let p := {| mysql.Name := mysql.Name oldPos;
              mysql.Pos := replication.LogPos (replication.Header ev) |} in
  let p :=
    if decide (replication.h_EventType (replication.Header ev) = replication.ROTATE_EVENT)
    then match replication.Body ev with
         | replication.BRotate rotateEvent =>
             {| mysql.Name := replication.NextLogName rotateEvent;
                mysql.Pos := to_uint32 (replication.r_Position rotateEvent) |}
         | _ => p
         end
    else p in
  let m' := set_binlogPos m p in
  if hasMetaManager m
     && (negb (bool_decide (mysql.Name oldPos = mysql.Name p))
         || negb (bool_decide (mysql.Pos oldPos = mysql.Pos p)))
  then (m', Some (instanceID m,
                  {| Name := mysql.Name p; Pos := mysql.Pos p;
                     GTIDSet := default "" (gtidSet m) |}))
  else (m', None).

(** One turn of the loop of [processBinlogStream] on the event [ev]
    returned by [streamer.GetEvent]: handle it, log a failure, update
    the position. *)
Record PumpResult := mkPumpResult {
  p_slave : MySQLBinlogSlave;
  p_sink : Sink.DefaultEventSink H;
  p_handleErr : error;                      (* logged only *)
  p_save : option (string * Position)
}.

Definition pumpStep (m : MySQLBinlogSlave) (sink : Sink.DefaultEventSink H)
    (ev : replication.BinlogEvent) : PumpResult :=
  let '(err, m1, sink1) := handleBinlogEvent m sink ev in
  let '(m2, save) := updatePosition m1 ev in
  {| p_slave := m2; p_sink := sink1; p_handleErr := err; p_save := save |}.

End Stream.

(** *** Reconnecting and running a stream *)

Definition set_reconnectCount (m : MySQLBinlogSlave) (n : Z) :=
  {| config := config m; watchTables := watchTables m; eventTypes := eventTypes m;
     running := running m; instanceID := instanceID m; binlogPos := binlogPos m;
     gtidSet := gtidSet m; reconnectCount := n;
     tableSchemas := tableSchemas m; eventCounter := eventCounter m;
     hasMetaManager := hasMetaManager m |}.

(** The field [maxReconnectCount]: the constructor sets it to 10 and
    nothing writes it afterwards. *)
Definition maxReconnectCount : Z := 10.

(** [handleReconnect]: count the attempt; past the maximum only log and
    return; otherwise sleep, rebuild the syncer ([initBinlogSyncer]
    returns nil) and reset the count. *)
Definition handleReconnect (m : MySQLBinlogSlave) : MySQLBinlogSlave :=
  let m := set_reconnectCount m (wrap64 (reconnectCount m + 1)) in
  if (reconnectCount m >? maxReconnectCount)%Z then m
  else set_reconnectCount m 0.

(** An event that [updatePosition] treats as a rotation. *)
Definition rotation (ev : replication.BinlogEvent) : option replication.RotateEvent :=
  if decide (replication.h_EventType (replication.Header ev) = replication.ROTATE_EVENT)
  then match replication.Body ev with
       | replication.BRotate r => Some r
       | _ => None
       end
  else None.

(** The file named by the last rotation among [evs], if any. *)
Definition lastRotation (evs : list replication.BinlogEvent) : option string :=
  last (omap (λ ev, replication.NextLogName <$> rotation ev) evs).

Section Pump.
Context {H : Type} `{EventHandler H}.

(** The loop of [processBinlogStream] over the events that
    [streamer.GetEvent] returns before the stream ends: the slave and
    the sink at the end, and the saves requested on the way. *)
Fixpoint pump (m : MySQLBinlogSlave) (sink : Sink.DefaultEventSink H)
    (evs : list replication.BinlogEvent)
    : MySQLBinlogSlave * Sink.DefaultEventSink H * list (string * Position) :=
  match evs with
  | [] => (m, sink, [])
  | ev :: rest =>
      let r := pumpStep m sink ev in
      let '(m', sink', saves) := pump (p_slave r) (p_sink r) rest in
      (m', sink', option_list (p_save r) ++ saves)
  end.

(** One round of the outer loop of [runBinlogStream] after the stream
    broke: [processBinlogStream] returned an error, then
    [handleReconnect]. *)
Definition streamRound (m : MySQLBinlogSlave) (sink : Sink.DefaultEventSink H)
    (evs : list replication.BinlogEvent)
    : MySQLBinlogSlave * Sink.DefaultEventSink H * list (string * Position) :=
  let '(m', sink', saves) := pump m sink evs in
  (handleReconnect m', sink', saves).

End Pump.

End Slave.

(** ** Handlers known to the supervisor *)

Inductive Handler :=
| HWebhook (h : Webhook.WebhookHandler)
| HDatabase (h : DatabaseH.DatabaseHandler).

#[global] Instance Handler_EventHandler : EventHandler Handler :=
  {| GetName := λ h, match h with
                     | HWebhook w => GetName w
                     | HDatabase d => GetName d
                     end |}.

(** ** Configuration (the fields read by the engine) *)

Module Cfg.
Record CanalConfig := mkCanalConfig {
  Host : string;
  Port : Z;
  Username : string;
  Password : string;
  ServerID : Z;
  BinlogFilename : string;
  BinlogPosition : Z;
  WatchDatabases : list string;
  WatchTables : list string;
  WatchEventTypes : list string
}.

Record Config := mkConfig {
  Canal : CanalConfig;
  DatabaseStorageEnabled : bool
}.
End Cfg.

(** ** Canal instance *)

Module Instance.

Record InstanceStatus := mkInstanceStatus {
  st_Running : bool;
  st_Position : Position;
  ErrorMsg : string
}.

Record MySQLCanalInstance := mkInstance {
  id : string;
  config : MySQLConfig;
  eventSink : Sink.DefaultEventSink Handler;
  binlogSlave : Slave.MySQLBinlogSlave;
  running : bool;
  status : InstanceStatus
}.

Definition configureBinlogSlaveFromConfig (slave : Slave.MySQLBinlogSlave) (cfg : Cfg.Config)
    : Slave.MySQLBinlogSlave :=
  let eventTypes :=
    foldl (λ acc et,
            if decide (et = "INSERT") then acc ++ [EventTypeInsert]
            else if decide (et = "UPDATE") then acc ++ [EventTypeUpdate]
            else if decide (et = "DELETE") then acc ++ [EventTypeDelete]
            else acc)
          [] (Cfg.WatchEventTypes (Cfg.Canal cfg)) in
  let slave := Slave.SetEventTypes slave eventTypes in
  foldl (λ s db, foldl (λ s table, Slave.AddWatchTable s db table) s
                       (Cfg.WatchTables (Cfg.Canal cfg)))
        slave (Cfg.WatchDatabases (Cfg.Canal cfg)).

(** The [MySQLConfig] that [NewMySQLCanalInstance] derives. *)
Definition mysqlConfigOf (cfg : Cfg.Config) : MySQLConfig :=
  {| Host := Cfg.Host (Cfg.Canal cfg);
     Port := Cfg.Port (Cfg.Canal cfg);
     Username := Cfg.Username (Cfg.Canal cfg);
     Password := Cfg.Password (Cfg.Canal cfg);
     Database := "";
     ServerID := Cfg.ServerID (Cfg.Canal cfg);
     BinlogFile := Cfg.BinlogFilename (Cfg.Canal cfg);
     BinlogPos := Cfg.BinlogPosition (Cfg.Canal cfg) |}.

(** [NewMySQLCanalInstance]: the instance gets [id]; the slave is built
    from the connection settings and the meta manager only. *)
Definition NewMySQLCanalInstance (id : string) (cfg : Cfg.Config) (withMeta : bool)
    : MySQLCanalInstance :=
  let mysqlConfig := mysqlConfigOf cfg in
  let eventSink := Sink.NewDefaultEventSink in
  let realSlave := Slave.NewMySQLBinlogSlaveWithMeta mysqlConfig withMeta in
  let binlogSlave := configureBinlogSlaveFromConfig realSlave cfg in
  {| id := id;
     config := mysqlConfig;
     eventSink := eventSink;
     binlogSlave := binlogSlave;
     running := false;
     status := {| st_Running := false;
                  st_Position := {| Name := ""; Pos := 0; GTIDSet := "" |};
                  ErrorMsg := "" |} |}.

Definition with_sink_slave (c : MySQLCanalInstance) (sink : Sink.DefaultEventSink Handler)
    (slave : Slave.MySQLBinlogSlave) : MySQLCanalInstance :=
  {| id := id c; config := config c; eventSink := sink; binlogSlave := slave;
     running := running c; status := status c |}.

Definition with_running (c : MySQLCanalInstance) (r : bool) (st : InstanceStatus)
    : MySQLCanalInstance :=
  {| id := id c; config := config c; eventSink := eventSink c;
     binlogSlave := binlogSlave c; running := r; status := st |}.

(** What the goroutines of an instance do when it is stopped: see
    [Slave.Stop] and [Sink.Stop]. *)
Record Schedule := mkSchedule {
  streamLeaves : bool;
  consumerLeaves : bool
}.

(** [Start]; [None] when the call never returns: the slave's start does
    not return, or the slave fails to start and stopping the sink again
    blocks ([consumerLeaves], as for [Sink.Stop]). *)
Definition Start (c : MySQLCanalInstance) (mm : Meta.DBMetaManager) (connOK : bool)
    (consumerLeaves : bool) : option (error * MySQLCanalInstance) :=
  if running c
  then Some (Some ("mysql canal instance " +:+ id c +:+ " is already running"), c)
  else
    match Sink.Start (eventSink c) with
    | (Some err, sink) =>
        Some (Some ("failed to start event sink: " +:+ err),
              with_sink_slave c sink (binlogSlave c))
    | (None, sink) =>
        match Slave.Start (binlogSlave c) mm connOK with
        | None => None
        | Some (Some err, slave) =>
            match Sink.Stop sink consumerLeaves with
            | Returned _ sink' =>
                Some (Some ("failed to start mysql binlog slave: " +:+ err),
                      with_sink_slave c sink' slave)
            | Blocked _ => None
            end
        | Some (None, slave) =>
            let c := with_sink_slave c sink slave in
            Some (None,
                  with_running c true
                    {| st_Running := true;
                       st_Position := Slave.GetBinlogPosition slave;
                       ErrorMsg := ErrorMsg (status c) |})
        end
    end.

(** [Stop]: the slave is stopped first, then the sink; the errors of
    both are only logged. The flags of the instance are cleared after
    both calls have returned. *)
Definition Stop (c : MySQLCanalInstance) (sched : Schedule) : Outcome MySQLCanalInstance :=
  if negb (running c) then Returned None c
  else
    match Slave.Stop (binlogSlave c) (streamLeaves sched) with
    | Blocked slave => Blocked (with_sink_slave c (eventSink c) slave)
    | Returned _ slave =>
        match Sink.Stop (eventSink c) (consumerLeaves sched) with
        | Blocked sink => Blocked (with_sink_slave c sink slave)
        | Returned _ sink =>
            let c := with_sink_slave c sink slave in
            Returned None
              (with_running c false
                 {| st_Running := false; st_Position := st_Position (status c);
                    ErrorMsg := ErrorMsg (status c) |})
        end
    end.

Definition Subscribe (c : MySQLCanalInstance) (schema table : string) (handler : Handler)
    : error * MySQLCanalInstance :=
  let slave := Slave.AddWatchTable (binlogSlave c) schema table in
  match Sink.Subscribe (eventSink c) schema table handler with
  | (Some err, sink) =>
      (Some ("failed to subscribe to event sink: " +:+ err), with_sink_slave c sink slave)
  | (None, sink) => (None, with_sink_slave c sink slave)
  end.

Definition Unsubscribe (c : MySQLCanalInstance) (schema table handlerName : string)
    : error * MySQLCanalInstance :=
  match Sink.Unsubscribe (eventSink c) schema table handlerName with
  | (Some err, sink) =>
      (Some ("failed to unsubscribe from event sink: " +:+ err),
       with_sink_slave c sink (binlogSlave c))
  | (None, sink) => (None, with_sink_slave c sink (binlogSlave c))
  end.

(** [MockCanalInstance] of the service package. *)
Record MockCanalInstance := mkMock {
  mock_id : string;
  mock_running : bool
}.

Definition NewMockCanalInstance (id : string) : MockCanalInstance :=
  {| mock_id := id; mock_running := false |}.

(** The interface [CanalInstance] with its two implementations. *)
Inductive CanalInstance :=
| Real (c : MySQLCanalInstance)
| Mock (c : MockCanalInstance).

Definition GetID (i : CanalInstance) : string :=
  match i with Real c => id c | Mock c => mock_id c end.

Definition IsRunning (i : CanalInstance) : bool :=
  match i with Real c => running c | Mock c => mock_running c end.

Definition StopI (i : CanalInstance) (sched : Schedule) : Outcome CanalInstance :=
  match i with
  | Real c => match Stop c sched with
              | Returned err c' => Returned err (Real c')
              | Blocked c' => Blocked (Real c')
              end
  | Mock c => Returned None (Mock {| mock_id := mock_id c; mock_running := false |})
  end.

Definition SubscribeI (i : CanalInstance) (schema table : string) (handler : Handler)
    : error * CanalInstance :=
  match i with
  | Real c => let '(err, c') := Subscribe c schema table handler in (err, Real c')
  | Mock c => (None, Mock c)
  end.

Definition StartI (i : CanalInstance) (mm : Meta.DBMetaManager) (connOK : bool)
    (consumerLeaves : bool) : option (error * CanalInstance) :=
  match i with
  | Real c => match Start c mm connOK consumerLeaves with
              | None => None
              | Some (err, c') => Some (err, Real c')
              end
  | Mock c => Some (None, Mock {| mock_id := mock_id c; mock_running := true |})
  end.

(** An instance none of whose parts runs: its own flags are cleared,
    its slave is not running and its sink is not started. *)
Definition halted (i : CanalInstance) : Prop :=
  match i with
  | Real c => running c = false
              ∧ st_Running (status c) = false
              ∧ Slave.running (binlogSlave c) = false
              ∧ Sink.started (eventSink c) = false
  | Mock c => mock_running c = false
  end.

(** An instance all of whose parts run. *)
Definition live (i : CanalInstance) : Prop :=
  match i with
  | Real c => running c = true
              ∧ Slave.running (binlogSlave c) = true
              ∧ Sink.started (eventSink c) = true
  | Mock c => mock_running c = true
  end.

(** [i'] is what a call of [Stop] that returned leaves of [i]: the same
    instance, halted when it was running and untouched when it was
    not. *)
Definition stops_to (i i' : CanalInstance) : Prop :=
  GetID i' = GetID i
  ∧ (IsRunning i = true → halted i')
  ∧ (IsRunning i = false → i' = i).

End Instance.

(** ** Service supervisor *)

Module Service.

Record Task := mkTask {
  ID : Z;             (* uint *)
  t_Name : string;
  t_Database : string;
  t_Table : string;
  EventTypes : string;
  CallbackURL : string;
  t_Status : string
}.

(** The supervisor. Instances are heap objects: [objects] lists every
    instance created so far, an address is an index into it, and
    [instances] (the [sync.Map]) maps an instance id to an address. An
    object that is no longer in the map still exists and keeps its
    state. *)
Record EnhancedCanalService := mkService {
  config : Cfg.Config;
  metaManager : Meta.DBMetaManager;
  objects : list Instance.CanalInstance;
  instances : gmap string nat;
  running : bool
}.

Definition NewEnhancedCanalService (cfg : Cfg.Config) (mm : Meta.DBMetaManager)
    : EnhancedCanalService :=
  {| config := cfg; metaManager := mm; objects := []; instances := ∅; running := false |}.

(** [fmt.Sprintf("task-%d", task.ID)] *)
Definition taskInstanceID (taskID : Z) : string := "task-" +:+ pretty taskID.

(** [CreateTask]; [connOK] is the reachability of the server, which the
    slave only tests when it has no meta manager. [None] when starting
    the instance never returns. The instance is new: no event is in
    the channel of its sink and its slave does not run, so a consumer
    that had to be stopped again could only leave ([true] below). *)
Definition CreateTask (s : EnhancedCanalService) (task : Task) (connOK : bool)
    : option (error * EnhancedCanalService) :=
  let instanceID := taskInstanceID (ID task) in
  let instance :=
    if (ID task >=? 1000)%Z
    then Instance.Mock (Instance.NewMockCanalInstance instanceID)
    else Instance.Real (Instance.NewMySQLCanalInstance instanceID (config s) true) in
  let webhookHandler :=
    Webhook.NewWebhookHandler ("webhook-" +:+ pretty (ID task)) (CallbackURL task) in
  let dbHandler :=
    DatabaseH.NewDatabaseHandler ("db-" +:+ pretty (ID task)) (ID task)
      (Cfg.DatabaseStorageEnabled (config s)) in
  match Instance.SubscribeI instance (t_Database task) (t_Table task)
          (HWebhook webhookHandler) with
  | (Some err, _) =>
      Some (Some ("failed to subscribe webhook handler for task " +:+ pretty (ID task)
                  +:+ ": " +:+ err), s)
  | (None, instance) =>
      match Instance.SubscribeI instance (t_Database task) (t_Table task)
              (HDatabase dbHandler) with
      | (Some err, _) =>
          Some (Some ("failed to subscribe database handler for task " +:+ pretty (ID task)
                      +:+ ": " +:+ err), s)
      | (None, instance) =>
          let started :=
            if (ID task >=? 1000)%Z then Some (None, instance)
            else Instance.StartI instance (metaManager s) connOK true in
          match started with
          | None => None
          | Some (Some err, _) =>
              Some (Some ("failed to start mysql canal instance for task "
                          +:+ pretty (ID task) +:+ ": " +:+ err), s)
          | Some (None, instance) =>
              (* s.instances.Store(instanceID, instance) *)
              Some (None,
                    {| config := config s;
                       metaManager := metaManager s;
                       objects := objects s ++ [instance];
                       instances := <[instanceID := length (objects s)]> (instances s);
                       running := running s |})
          end
      end
  end.

(** [DeleteTask]: the entry is deleted after [instance.Stop()] has
    returned; an error of that call is only logged. *)
Definition DeleteTask (s : EnhancedCanalService) (taskID : Z) (sched : Instance.Schedule)
    : Outcome EnhancedCanalService :=
  let instanceID := taskInstanceID taskID in
  match instances s !! instanceID with
  | Some addr =>
      match objects s !! addr with
      | Some instance =>
          match Instance.StopI instance sched with
          | Returned _ stopped =>
              Returned None
                {| config := config s;
                   metaManager := metaManager s;
                   objects := <[addr := stopped]> (objects s);
                   instances := delete instanceID (instances s);
                   running := running s |}
          | Blocked stuck =>
              Blocked
                {| config := config s;
                   metaManager := metaManager s;
                   objects := <[addr := stuck]> (objects s);
                   instances := instances s;
                   running := running s |}
          end
      | None => Returned None s
      end
  | None => Returned None s
  end.

(** The instances of a task that are running, whether the map still
    refers to them or not. *)
Definition runningInstances (s : EnhancedCanalService) (taskID : Z)
    : list Instance.CanalInstance :=
  filter (λ i, Instance.GetID i = taskInstanceID taskID ∧ Instance.IsRunning i = true)
         (objects s).

(** The range of [Stop] over the map: the instances at [addrs] are
    stopped one after the other, each with the schedule its goroutines
    follow; the range ends at the first call that does not return. *)
Fixpoint stopAll (objs : list Instance.CanalInstance) (addrs : list nat)
    (scheds : nat → Instance.Schedule) : Outcome (list Instance.CanalInstance) :=
  match addrs with
  | [] => Returned None objs
  | addr :: rest =>
      match objs !! addr with
      | Some instance =>
          match Instance.StopI instance (scheds addr) with
          | Returned _ stopped => stopAll (<[addr := stopped]> objs) rest scheds
          | Blocked stuck => Blocked (<[addr := stuck]> objs)
          end
      | None => stopAll objs rest scheds
      end
  end.

(** [Stop]: [running] is cleared first, then every instance the map
    refers to is stopped; the map keeps its entries. [order] is the
    order in which [Range] visits the entries of the map, which the
    library leaves open. The two goroutines of the supervisor never
    ask for its mutex, so the wait for them returns. *)
Definition Stop (s : EnhancedCanalService) (order : list (string * nat))
    (scheds : nat → Instance.Schedule) : Outcome EnhancedCanalService :=
  if negb (running s) then Returned None s
  else
    match stopAll (objects s) order.*2 scheds with
    | Returned _ objs =>
        Returned None {| config := config s; metaManager := metaManager s;
                         objects := objs; instances := instances s; running := false |}
    | Blocked objs =>
        Blocked {| config := config s; metaManager := metaManager s;
                   objects := objs; instances := instances s; running := false |}
    end.

(** The map refers to existing objects, each under its own id. *)
Definition wf (s : EnhancedCanalService) : Prop :=
  ∀ key addr, instances s !! key = Some addr →
    ∃ i, objects s !! addr = Some i ∧ Instance.GetID i = key.

(** The loop of [loadExistingTasks] over the active tasks: a task whose
    [CreateTask] fails is skipped. [None] when a [CreateTask] never
    returns. *)
Fixpoint loadTasks (s : EnhancedCanalService) (tasks : list Task) (connOK : bool)
    : option EnhancedCanalService :=
  match tasks with
  | [] => Some s
  | task :: rest =>
      match CreateTask s task connOK with
      | None => None
      | Some (_, s') => loadTasks s' rest connOK
      end
  end.

(** [loadExistingTasks]; [query] is the result of the query for the
    active tasks, [None] when it fails. The error returned is always
    [nil]. *)
Definition loadExistingTasks (s : EnhancedCanalService) (query : option (list Task))
    (connOK : bool) : option (error * EnhancedCanalService) :=
  match query with
  | None => Some (None, s)
  | Some tasks =>
      match loadTasks s tasks connOK with
      | None => None
      | Some s' => Some (None, s')
      end
  end.

(** [Start]; the error of [loadExistingTasks] is only logged. The two
    goroutines it launches are not part of the result. *)
Definition Start (s : EnhancedCanalService) (query : option (list Task)) (connOK : bool)
    : option (error * EnhancedCanalService) :=
  if running s then Some (Some "enhanced canal service already running", s)
  else
    let s := {| config := config s; metaManager := metaManager s; objects := objects s;
                instances := instances s; running := true |} in
    match loadExistingTasks s query connOK with
    | None => None
    | Some (_, s') => Some (None, s')
    end.

End Service.

(** ** The consumer of the event sink ([processEvents], [handleEvent])

    The consumer goroutine and the goroutines it launches per handler
    are a transition system. Its observable actions are kept in a
    trace, oldest first. *)

Module Consumer.

Section Consumer.
Context {H : Type} `{EventHandler H}.

Inductive Action :=
| Enqueue (e : Event)                              (* a [SendEvent] put [e] on the channel *)
| Dequeue (k : nat) (e : Event) (hs : gmap string H)
                                                   (* the consumer received its [k]-th event
                                                      and copied the handler set [hs] *)
| Begin (k : nat) (name : string)                  (* [handler.Handle(ctx, event)] is called *)
| Return (k : nat) (name : string).                (* that call returned, in time or after
                                                      its 30 s context expired *)

(** A goroutine launched by [handleEvent]. *)
Inductive GState := Spawned | Running | Done.

(** The consumer inside [handleEvent]. *)
Record Dispatch := mkDispatch {
  d_seq : nat;
  d_event : Event;
  toSpawn : list (string * H);          (* rest of the range over the copy *)
  goroutines : gmap string GState       (* [wg] counts those not [Done] *)
}.

Record State := mkState {
  sink : Sink.DefaultEventSink H;
  nextSeq : nat;                        (* events received so far *)
  current : option Dispatch;            (* [None]: waiting in the select *)
  trace : list Action
}.

Definition init (s : Sink.DefaultEventSink H) : State :=
  {| sink := s; nextSeq := 0; current := None; trace := [] |}.

Definition set_eventCh (s : Sink.DefaultEventSink H) (q : list Event) : Sink.DefaultEventSink H :=
  {| Sink.handlers := Sink.handlers s; Sink.eventCh := q; Sink.started := Sink.started s |}.

Definition all_done (g : gmap string GState) : Prop :=
  ∀ n st, g !! n = Some st → st = Done.

Inductive step : State → State → Prop :=
(* the environment: producers, subscriptions, start and stop *)
| step_send st e s' :
    Sink.SendEvent (sink st) e = (None, s') →
    step st {| sink := s'; nextSeq := nextSeq st; current := current st;
               trace := trace st ++ [Enqueue e] |}
| step_subscribe st schema table h :
    step st {| sink := snd (Sink.Subscribe (sink st) schema table h);
               nextSeq := nextSeq st; current := current st; trace := trace st |}
| step_unsubscribe st schema table n :
    step st {| sink := snd (Sink.Unsubscribe (sink st) schema table n);
               nextSeq := nextSeq st; current := current st; trace := trace st |}
| step_start st s' :
    Sink.Start (sink st) = (None, s') →
    step st {| sink := s'; nextSeq := nextSeq st; current := current st;
               trace := trace st |}
| step_stop st s' :
    (* [Stop] waits for the consumer, which leaves at its select *)
    current st = None →
    Sink.Stop (sink st) true = Returned None s' →
    step st {| sink := s'; nextSeq := nextSeq st;
               current := None; trace := trace st |}
(* [processEvents]: [case event := <-s.eventCh] *)
| step_recv st e q l :
    current st = None →
    Sink.started (sink st) = true →
    Sink.eventCh (sink st) = e :: q →
    l ≡ₚ map_to_list (Sink.handlersFor (sink st) e) →
    step st {| sink := set_eventCh (sink st) q;
               nextSeq := S (nextSeq st);
               current := Some {| d_seq := nextSeq st; d_event := e;
                                  toSpawn := l; goroutines := ∅ |};
               trace := trace st ++ [Dequeue (nextSeq st) e (Sink.handlersFor (sink st) e)] |}
(* [handleEvent]: [wg.Add(1); go func(name, handler) {...}] *)
| step_spawn st c n h rest :
    current st = Some c →
    toSpawn c = (n, h) :: rest →
    step st {| sink := sink st; nextSeq := nextSeq st;
               current := Some {| d_seq := d_seq c; d_event := d_event c;
                                  toSpawn := rest;
                                  goroutines := <[n := Spawned]> (goroutines c) |};
               trace := trace st |}
| step_begin st c n :
    current st = Some c →
    goroutines c !! n = Some Spawned →
    step st {| sink := sink st; nextSeq := nextSeq st;
               current := Some {| d_seq := d_seq c; d_event := d_event c;
                                  toSpawn := toSpawn c;
                                  goroutines := <[n := Running]> (goroutines c) |};
               trace := trace st ++ [Begin (d_seq c) n] |}
| step_return st c n :
    current st = Some c →
    goroutines c !! n = Some Running →
    step st {| sink := sink st; nextSeq := nextSeq st;
               current := Some {| d_seq := d_seq c; d_event := d_event c;
                                  toSpawn := toSpawn c;
                                  goroutines := <[n := Done]> (goroutines c) |};
               trace := trace st ++ [Return (d_seq c) n] |}
(* [wg.Wait()] returns, [handleEvent] returns *)
| step_wait st c :
    current st = Some c →
    toSpawn c = [] →
    all_done (goroutines c) →
    step st {| sink := sink st; nextSeq := nextSeq st; current := None;
               trace := trace st |}.

(** The states the consumer of a new sink can be in. *)
Definition reachable (st : State) : Prop :=
  rtc step (init Sink.NewDefaultEventSink) st.

(** The events put on the channel, in order. *)
Definition enqueued (tr : list Action) : list Event :=
  omap (λ a, match a with Enqueue e => Some e | _ => None end) tr.

(** The events received by the consumer, with their numbers. *)
Definition dequeued (tr : list Action) : list (nat * Event) :=
  omap (λ a, match a with Dequeue k e _ => Some (k, e) | _ => None end) tr.

(** Every handler copied for event [k] was called and returned. *)
Definition completed (tr : list Action) (k : nat) : Prop :=
  ∀ d e hs, tr !! d = Some (Dequeue k e hs) →
    ∀ n, n ∈ dom hs →
      ∃ b r, d < b ∧ b < r ∧ tr !! b = Some (Begin k n) ∧ tr !! r = Some (Return k n).

(** The number carried by an action is below [n]. *)
Definition bounded (n : nat) (a : Action) : Prop :=
  match a with
  | Enqueue _ => True
  | Dequeue k _ _ | Begin k _ | Return k _ => k < n
  end.

(** Whenever a handler of event [k2] is called, every handler copied
    for an earlier event was called and has returned before. *)
Definition ordered (tr : list Action) : Prop :=
  ∀ p k2 n2, tr !! p = Some (Begin k2 n2) →
    ∀ k1, k1 < k2 →
      ∀ d e hs, tr !! d = Some (Dequeue k1 e hs) →
        d < p
        ∧ ∀ n, n ∈ dom hs →
            ∃ b r, d < b ∧ b < r ∧ r < p
                   ∧ tr !! b = Some (Begin k1 n) ∧ tr !! r = Some (Return k1 n).

(** What holds of the goroutines of the dispatch in progress, for the
    handler set [hs] copied at trace position [d]. *)
Definition dispatch_ok (tr : list Action) (c : Dispatch) (d : nat) (hs : gmap string H) : Prop :=
  (∀ n, n ∈ dom hs → n ∈ (toSpawn c).*1 ∨ is_Some (goroutines c !! n))
  ∧ (∀ n, goroutines c !! n = Some Running →
          ∃ b, d < b ∧ tr !! b = Some (Begin (d_seq c) n))
  ∧ (∀ n, goroutines c !! n = Some Done →
          ∃ b r, d < b ∧ b < r ∧ tr !! b = Some (Begin (d_seq c) n)
                 ∧ tr !! r = Some (Return (d_seq c) n)).

(** The invariant of the consumer. *)
Record Inv (st : State) : Prop := mkInv {
  inv_fifo : ∃ E, enqueued (trace st) = E ++ Sink.eventCh (sink st)
                  ∧ length E = nextSeq st;
  inv_event : ∀ d k e hs, trace st !! d = Some (Dequeue k e hs) →
                enqueued (trace st) !! k = Some e;
  inv_bounded : ∀ p a, trace st !! p = Some a → bounded (nextSeq st) a;
  inv_received : ∀ k, k < nextSeq st →
                   ∃ d e hs, trace st !! d = Some (Dequeue k e hs);
  inv_completed : ∀ k, k < nextSeq st →
                    (∀ c, current st = Some c → k ≠ d_seq c) →
                    completed (trace st) k;
  inv_current : ∀ c, current st = Some c →
                  S (d_seq c) = nextSeq st
                  ∧ ∀ d e hs, trace st !! d = Some (Dequeue (d_seq c) e hs) →
                      dispatch_ok (trace st) c d hs;
  inv_ordered : ordered (trace st);
  inv_begin : ∀ p k n, trace st !! p = Some (Begin k n) →
                ∃ d e hs, d < p ∧ trace st !! d = Some (Dequeue k e hs)
}.

End Consumer.
End Consumer.

(** ** Concrete inputs used in examples *)

Module Ex.

Definition cfg : MySQLConfig :=
  {| Host := "127.0.0.1"; Port := 3306; Username := "repl"; Password := "secret";
     Database := ""; ServerID := 1001; BinlogFile := ""; BinlogPos := 4 |}.

Definition slave : Slave.MySQLBinlogSlave := Slave.NewMySQLBinlogSlaveWithMeta cfg true.

Definition users : replication.TableMapEvent :=
  {| replication.tm_Schema := "test"; replication.tm_Table := "users";
     replication.ColumnType := [3; 253]%Z |}.

Definition header (eventType logPos : Z) : replication.EventHeader :=
  {| replication.h_Timestamp := 1700000000; replication.h_EventType := eventType;
     replication.h_ServerID := 1; replication.h_EventSize := 60;
     replication.LogPos := logPos; replication.h_Flags := 0 |}.

(** [UPDATE test.users SET name = 'bob' WHERE id = 1]: one row pair. *)
Definition updateRows : replication.RowsEvent :=
  {| replication.r_Table := users;
     replication.Rows := [ [Some (VInt 1); Some (VString "alice")];
                           [Some (VInt 1); Some (VString "bob")] ] |}.

Definition updateEvent : replication.BinlogEvent :=
  {| replication.Header := header replication.UPDATE_ROWS_EVENTv2 500;
     replication.Body := replication.BRows updateRows |}.

Definition insertRows : replication.RowsEvent :=
  {| replication.r_Table := users;
     replication.Rows := [ [Some (VInt 2); Some (VString "carol")] ] |}.


Definition rotateEvent : replication.BinlogEvent :=
  {| replication.Header := header replication.ROTATE_EVENT 0;
     replication.Body :=
       replication.BRotate {| replication.r_Position := 4;
                              replication.NextLogName := "mysql-bin.000002" |} |}.

Definition xidEvent : replication.BinlogEvent :=
  {| replication.Header := header 16 531; replication.Body := replication.BXID |}.

Definition emptySink : Sink.DefaultEventSink Handler := Sink.NewDefaultEventSink.

Definition filler : Event :=
  {| ID := "mysql-binlog-120-1700000000-0"; Schema := "test"; Table := "users";
     ev_EventType := EventTypeInsert; Timestamp := 1700000000;
     ev_Position := {| Name := "mysql-bin.000001"; Pos := 120; GTIDSet := "" |};
     BeforeData := None; AfterData := Some {| Columns := [] |}; SQL := "" |}.


(** Which images an event carries. *)
Definition images (e : Event) : EventType * bool * bool :=
  (ev_EventType e,
   match BeforeData e with Some _ => true | None => false end,
   match AfterData e with Some _ => true | None => false end).

Definition canalCfg : Cfg.Config :=
  {| Cfg.Canal :=
       {| Cfg.Host := "127.0.0.1"; Cfg.Port := 3306; Cfg.Username := "repl";
          Cfg.Password := "secret"; Cfg.ServerID := 1001;
          Cfg.BinlogFilename := ""; Cfg.BinlogPosition := 4;
          Cfg.WatchDatabases := []; Cfg.WatchTables := [];
          Cfg.WatchEventTypes := ["INSERT"; "UPDATE"; "DELETE"] |};
     Cfg.DatabaseStorageEnabled := true |}.

Definition noFaults (rows : gmap string Meta.BinlogPosition) : Meta.DB :=
  {| Meta.positions := rows; Meta.firstFault := None; Meta.createFault := None;
     Meta.updatesFault := None |}.

Definition savedPos : Position :=
  {| Name := "mysql-bin.000007"; Pos := 4242; GTIDSet := "" |}.

Definition savedRow (key : string) : Meta.BinlogPosition :=
  {| Meta.InstanceID := key; Meta.Filename := "mysql-bin.000007";
     Meta.bp_Position := 4242; Meta.bp_GTIDSet := "" |}.

(** A meta store that holds a position under the key "task-1". *)
Definition metaWithTask1 : Meta.DBMetaManager :=
  {| Meta.db := noFaults {[ "task-1" := savedRow "task-1" ]};
     Meta.cache := {[ "task-1" := savedPos ]} |}.

(** The same store when its storage rejects updates. *)
Definition metaUpdatesFail : Meta.DBMetaManager :=
  {| Meta.db := {| Meta.positions := {[ "task-1" := savedRow "task-1" ]};
                   Meta.firstFault := None; Meta.createFault := None;
                   Meta.updatesFault := Some "database is locked" |};
     Meta.cache := {[ "task-1" := savedPos ]} |}.

Definition newerPos : Position :=
  {| Name := "mysql-bin.000007"; Pos := 5000; GTIDSet := "" |}.

Definition task1 : Service.Task :=
  {| Service.ID := 1; Service.t_Name := "users"; Service.t_Database := "test";
     Service.t_Table := "users"; Service.EventTypes := "INSERT,UPDATE,DELETE";
     Service.CallbackURL := "http://127.0.0.1:9669/webhook"; Service.t_Status := "active" |}.

Definition service0 : Service.EnhancedCanalService :=
  Service.NewEnhancedCanalService canalCfg metaWithTask1.

(** The supervisor after [CreateTask(task1)], and after a second
    [CreateTask(task1)]. *)
Definition service1 : Service.EnhancedCanalService :=
  match Service.CreateTask service0 task1 true with
  | Some (_, s) => s
  | None => service0
  end.

Definition service2 : Service.EnhancedCanalService :=
  match Service.CreateTask service1 task1 true with
  | Some (_, s) => s
  | None => service1
  end.

(** [DELETE FROM test.users WHERE id = 2]. *)
Definition deleteRows : replication.RowsEvent :=
  {| replication.r_Table := users;
     replication.Rows := [ [Some (VInt 2); Some (VString "carol")] ] |}.


(** A stand-in for [json.Marshal] on a row: like the real encoder it
    never yields the empty string. *)
Definition marshal (r : RowData) : string :=
  "{columns:" +:+ pretty (length (Columns r)) +:+ "}".

Definition dbHandler : DatabaseH.DatabaseHandler :=
  DatabaseH.NewDatabaseHandler "db-1" 1 true.

Definition emptyLog : DatabaseH.EventLogger :=
  {| DatabaseH.logs := []; DatabaseH.createFault := None |}.

(** A webhook endpoint that answers 503 twice and then 200. *)
Definition flaky : Webhook.SendEnv :=
  {| Webhook.outcome := λ k, if k <? 2 then Webhook.Status 503 else Webhook.Status 200;
     Webhook.cancelled := λ _, false |}.

Definition webhook : Webhook.WebhookHandler :=
  Webhook.NewWebhookHandler "webhook-1" "http://127.0.0.1:9669/webhook".

Definition handler : Handler := HDatabase dbHandler.

Definition second : Event :=
  {| ID := "mysql-binlog-200-1700000001-0"; Schema := "shop"; Table := "orders";
     ev_EventType := EventTypeInsert; Timestamp := 1700000001;
     ev_Position := {| Name := "mysql-bin.000001"; Pos := 200; GTIDSet := "" |};
     BeforeData := None; AfterData := Some {| Columns := [] |}; SQL := "" |}.

(** A started sink with [handler] subscribed to test.users and to
    shop.orders, before any event was sent. *)
Definition subscribedSink : Sink.DefaultEventSink Handler :=
  (Sink.Start
     (Sink.Subscribe (Sink.Subscribe emptySink "test" "users" handler).2
        "shop" "orders" handler).2).2.

(** The consumer after [filler] and [second] were sent, [filler] was
    handled, and the handler was called for [second]. *)
Definition busy : Consumer.State (H:=Handler) :=
  {| Consumer.sink := subscribedSink;
     Consumer.nextSeq := 2;
     Consumer.current :=
       Some {| Consumer.d_seq := 1; Consumer.d_event := second;
               Consumer.toSpawn := [];
               Consumer.goroutines := {[ "db-1" := Consumer.Running ]} |};
     Consumer.trace :=
       [ Consumer.Enqueue filler;
         Consumer.Enqueue second;
         Consumer.Dequeue 0 filler {[ "db-1" := handler ]};
         Consumer.Begin 0 "db-1";
         Consumer.Return 0 "db-1";
         Consumer.Dequeue 1 second {[ "db-1" := handler ]};
         Consumer.Begin 1 "db-1" ] |}.

(** The supervisor started with [task1] active, and then after a
    [CreateTask(task1)] through the API. *)
Definition started1 : Service.EnhancedCanalService :=
  match Service.Start service0 (Some [task1]) true with
  | Some (_, s) => s
  | None => service0
  end.

Definition started2 : Service.EnhancedCanalService :=
  match Service.CreateTask started1 task1 true with
  | Some (_, s) => s
  | None => started1
  end.

(** A mock task (its id is not below 1000). *)
Definition mockTask : Service.Task :=
  {| Service.ID := 1000; Service.t_Name := "mock"; Service.t_Database := "test";
     Service.t_Table := "users"; Service.EventTypes := "INSERT";
     Service.CallbackURL := "http://127.0.0.1:9669/webhook"; Service.t_Status := "active" |}.

(** An event of schema shop, table eu.orders. *)
Definition dotted : Event :=
  {| ID := "mysql-binlog-300-1700000002-0"; Schema := "shop"; Table := "eu.orders";
     ev_EventType := EventTypeInsert; Timestamp := 1700000002;
     ev_Position := {| Name := "mysql-bin.000001"; Pos := 300; GTIDSet := "" |};
     BeforeData := None; AfterData := Some {| Columns := [] |}; SQL := "" |}.

(** A configuration whose event types are written in lower case. *)
Definition lowerCfg : Cfg.Config :=
  {| Cfg.Canal :=
       {| Cfg.Host := "127.0.0.1"; Cfg.Port := 3306; Cfg.Username := "repl";
          Cfg.Password := "secret"; Cfg.ServerID := 1001;
          Cfg.BinlogFilename := "mysql-bin.000042"; Cfg.BinlogPosition := 1234;
          Cfg.WatchDatabases := []; Cfg.WatchTables := [];
          Cfg.WatchEventTypes := ["insert"; "update"; "delete"] |};
     Cfg.DatabaseStorageEnabled := true |}.


Definition stuck : Instance.Schedule :=
  {| Instance.streamLeaves := false; Instance.consumerLeaves := true |}.


End Ex.

(** * Properties *)

(** ** Binlog slave: what a turn of the stream loop preserves *)

Section SlaveFacts.
Context {H : Type} `{EventHandler H}.

Lemma same_session_refl m : Slave.same_session m m.
Proof. by repeat split. Qed.

Lemma same_session_trans m1 m2 m3 :
  Slave.same_session m1 m2 → Slave.same_session m2 m3 → Slave.same_session m1 m3.
Proof.
  unfold Slave.same_session. intros (?&?&?&?&?&?) (?&?&?&?&?&?).
  repeat split; congruence.
Qed.

Lemma createCanalEvent_same m m' header ts et row i allRows :
  Slave.same_session m m' →
  Slave.createCanalEvent m' header ts et row i allRows
  = Slave.createCanalEvent m header ts et row i allRows.
Proof.
  intros (Hp & Hg & _). unfold Slave.createCanalEvent. by rewrite Hp, Hg.
Qed.

(** The row loop sends a prefix of the rows; when it fails the channel
    is full and the failing row and those after it were not sent. *)
Lemma sendRows_spec header ts et allRows rows : ∀ i m (sink : Sink.DefaultEventSink H),
  ∃ sent,
    let '(err, m', sink') := Slave.sendRows header ts et allRows i rows m sink in
    Slave.same_session m m'
    ∧ Sink.handlers sink' = Sink.handlers sink
    ∧ Sink.started sink' = Sink.started sink
    ∧ Sink.eventCh sink' = Sink.eventCh sink ++ sent
    ∧ match err with
      | None => length sent = length rows
      | Some e => e = "failed to send event: send event timeout"
                  ∧ length sent < length rows
                  ∧ Sink.eventChCap ≤ length (Sink.eventCh sink')
      end.
Proof.
  induction rows as [|row rest IH]; intros i m sink; simpl.
  - exists []. rewrite app_nil_r. repeat split; done.
  - unfold Sink.SendEvent.
    destruct (length (Sink.eventCh sink) <? Sink.eventChCap) eqn:Hroom.
    + match goal with
      | |- context [Slave.sendRows _ _ _ _ ?i' rest ?m' ?s'] =>
          destruct (IH i' m' s') as [sent IHs];
          destruct (Slave.sendRows header ts et allRows i' rest m' s')
            as [[err m2] sink2]
      end.
      simpl in IHs. destruct IHs as (Hm & Hh & Hst & Hch & Herr).
      exists (Slave.createCanalEvent m header ts et row i allRows :: sent).
      split; [|split; [done|split; [done|split]]].
      * eapply same_session_trans; [|exact Hm]. by repeat split.
      * rewrite Hch. by rewrite <- app_assoc.
      * destruct err as [e|]; simpl.
        -- destruct Herr as (-> & Hlen & Hfull). repeat split; [lia | done].
        -- lia.
    + exists []. rewrite app_nil_r.
      apply Nat.ltb_ge in Hroom.
      repeat split; simpl; try done; lia.
Qed.

Lemma getTableSchema_same m schema table info :
  Slave.same_session m (Slave.getTableSchema m schema table info).2.
Proof.
  unfold Slave.getTableSchema.
  destruct (Slave.tableSchemas m !! _); simpl; by repeat split.
Qed.

End SlaveFacts.

Lemma handleBinlogEvent_same {H : Type} `{EventHandler H} m (sink : Sink.DefaultEventSink H) ev :
  Slave.same_session m (Slave.handleBinlogEvent m sink ev).1.2.
Proof.
  unfold Slave.handleBinlogEvent.
  destruct (replication.Body ev); simpl; try apply same_session_refl.
  unfold Slave.handleRowsEvent.
  repeat (case_match; simpl; try apply same_session_refl).
  subst.
  match goal with
  | |- context [Slave.sendRows ?h ?ts ?et ?all ?i ?rows ?m' ?s] =>
      destruct (sendRows_spec h ts et all rows i m' s) as [sent Hs];
      destruct (Slave.sendRows h ts et all i rows m' s) as [[err m2] sink2]
  end.
  simpl in *. destruct Hs as (Hm & _).
  eapply same_session_trans; [|exact Hm].
  match goal with
  | Hg : Slave.getTableSchema ?m0 ?a ?b ?c = _ |- _ =>
      pose proof (getTableSchema_same m0 a b c) as Hts; rewrite Hg in Hts
  end.
  exact Hts.
Qed.

Lemma pumpStep_binlogPos {H : Type} `{EventHandler H} m (sink : Sink.DefaultEventSink H) ev :
  Slave.binlogPos (Slave.p_slave (Slave.pumpStep m sink ev))
  = Slave.binlogPos (Slave.updatePosition m ev).1.
Proof.
  unfold Slave.pumpStep.
  pose proof (handleBinlogEvent_same m sink ev) as Hs.
  destruct (Slave.handleBinlogEvent m sink ev) as [[err m1] sink1]. simpl in Hs.
  destruct Hs as (Hp & _).
  destruct (Slave.updatePosition m1 ev) as [m2 save] eqn:Hu. simpl.
  replace m2 with (Slave.updatePosition m1 ev).1 by (by rewrite Hu).
  unfold Slave.updatePosition.
  repeat case_match; simpl; by rewrite ?Hp.
Qed.

Lemma pumpStep_position_other {H : Type} `{EventHandler H}
    (m : Slave.MySQLBinlogSlave) (sink : Sink.DefaultEventSink H)
    (ev : replication.BinlogEvent) :
  (replication.h_EventType (replication.Header ev) ≠ replication.ROTATE_EVENT
   ∨ ∀ r, replication.Body ev ≠ replication.BRotate r) →
  mysql.Name (Slave.binlogPos (Slave.p_slave (Slave.pumpStep m sink ev)))
  = mysql.Name (Slave.binlogPos m)
  ∧ mysql.Pos (Slave.binlogPos (Slave.p_slave (Slave.pumpStep m sink ev)))
    = replication.LogPos (replication.Header ev).
Proof.
  rewrite pumpStep_binlogPos. unfold Slave.updatePosition.
  intros Hno.
  destruct (decide _) as [Ht|Ht].
  - destruct Hno as [Hno|Hno]; [done|].
    destruct (replication.Body ev) eqn:Hb;
      try (repeat case_match; simpl; done).
    by destruct (Hno e).
  - repeat case_match; simpl; done.
Qed.

(** ** C6: position advance *)

(** C6. After a turn of the stream loop on an event, the slave's
    position is: for a Rotate event, the file [NextLogName] and the
    offset [Position] of the rotate payload (converted to 32 bits, which
    changes nothing for an offset below 2^32); for every other event,
    the same file and the offset [header.LogPos]. *)
Theorem C6_position_advance {H : Type} `{EventHandler H}
    (m : Slave.MySQLBinlogSlave) (sink : Sink.DefaultEventSink H)
    (ev : replication.BinlogEvent) :
  let after := Slave.binlogPos (Slave.p_slave (Slave.pumpStep m sink ev)) in
  (∀ r, replication.h_EventType (replication.Header ev) = replication.ROTATE_EVENT →
        replication.Body ev = replication.BRotate r →
        mysql.Name after = replication.NextLogName r
        ∧ mysql.Pos after = to_uint32 (replication.r_Position r)
        ∧ ((0 ≤ replication.r_Position r < 2 ^ 32)%Z →
           mysql.Pos after = replication.r_Position r))
  ∧ ((replication.h_EventType (replication.Header ev) ≠ replication.ROTATE_EVENT
      ∨ ∀ r, replication.Body ev ≠ replication.BRotate r) →
     mysql.Name after = mysql.Name (Slave.binlogPos m)
     ∧ mysql.Pos after = replication.LogPos (replication.Header ev)).
Proof.
  intros after. subst after. split.
  - rewrite pumpStep_binlogPos. unfold Slave.updatePosition.
    intros r Ht Hb. rewrite Hb.
    destruct (decide _) as [_|[]]; [|done].
    repeat case_match; simpl; (split; [done|split; [done|]]);
      intros Hr; unfold to_uint32; by rewrite Z.mod_small.
  - intros Hno. by apply pumpStep_position_other.
Qed.

Lemma C6_position_advance_witness :
  (mysql.Name (Slave.binlogPos (Slave.p_slave (Slave.pumpStep Ex.slave Ex.emptySink Ex.rotateEvent)))
   = "mysql-bin.000002"
   ∧ mysql.Pos (Slave.binlogPos (Slave.p_slave (Slave.pumpStep Ex.slave Ex.emptySink Ex.rotateEvent)))
     = 4%Z)
  ∧ (mysql.Name (Slave.binlogPos (Slave.p_slave (Slave.pumpStep Ex.slave Ex.emptySink Ex.xidEvent)))
     = "mysql-bin.000001"
     ∧ mysql.Pos (Slave.binlogPos (Slave.p_slave (Slave.pumpStep Ex.slave Ex.emptySink Ex.xidEvent)))
       = 531%Z).
Proof.
  split.
  - destruct (C6_position_advance Ex.slave Ex.emptySink Ex.rotateEvent) as [Hrot _].
    destruct (Hrot {| replication.r_Position := 4;
                      replication.NextLogName := "mysql-bin.000002" |}
                eq_refl eq_refl) as (Hn & _ & Hp).
    split; [exact Hn | apply Hp; simpl; lia].
  - destruct (C6_position_advance Ex.slave Ex.emptySink Ex.xidEvent) as [_ Hoth].
    apply Hoth. left. vm_compute. discriminate.
Defined.

(** ** C1: UPDATE pairing *)

Lemma createCanalEvent_update_paired m header ts before after i allRows :
  i mod 2 = 0 →
  allRows !! (i + 1) = Some after →
  let e := Slave.createCanalEvent m header ts EventTypeUpdate before i allRows in
  BeforeData e = Some (Slave.convertRowToRowData ts before)
  ∧ AfterData e = Some (Slave.convertRowToRowData ts after)
  ∧ length (Columns (Slave.convertRowToRowData ts before))
    = length (Columns (Slave.convertRowToRowData ts after)).
Proof.
  intros Hev Hnext. simpl. unfold Slave.createCanalEvent.
  assert (i + 1 < length allRows) as Hlt by (by eapply lookup_lt_Some).
  repeat (case_decide; try discriminate); [|done].
  apply Nat.eqb_eq in Hev. apply Nat.ltb_lt in Hlt.
  rewrite Hev, Hlt, Hnext. simpl.
  split; [done|split; [done|]]. by rewrite !length_imap.
Qed.

Lemma createCanalEvent_update_unpaired m header ts row i allRows :
  i mod 2 ≠ 0 →
  let e := Slave.createCanalEvent m header ts EventTypeUpdate row i allRows in
  BeforeData e = None ∧ AfterData e = None.
Proof.
  intros Hodd. simpl. unfold Slave.createCanalEvent.
  repeat (case_decide; try discriminate); [|done].
  apply Nat.eqb_neq in Hodd. rewrite Hodd. done.
Qed.

(** With room in the channel the row loop sends one event per row. *)
Lemma sendRows_all {H : Type} `{EventHandler H} header ts et allRows rows :
  ∀ i m (sink : Sink.DefaultEventSink H),
  length (Sink.eventCh sink) + length rows ≤ Sink.eventChCap →
  (Slave.sendRows header ts et allRows i rows m sink).1.1 = None
  ∧ Sink.eventCh (Slave.sendRows header ts et allRows i rows m sink).2
    = Sink.eventCh sink
      ++ imap (λ j row, Slave.createCanalEvent m header ts et row (i + j) allRows) rows.
Proof.
  induction rows as [|row rest IH]; intros i m sink Hroom; simpl.
  - by rewrite app_nil_r.
  - simpl in Hroom. unfold Sink.SendEvent.
    assert ((length (Sink.eventCh sink) <? Sink.eventChCap) = true) as ->
      by (apply Nat.ltb_lt; lia).
    match goal with
    | |- context [Slave.sendRows _ _ _ _ _ rest ?m' ?s'] =>
        destruct (IH (S i) m' s') as [Herr Hch];
          [simpl; rewrite length_app; simpl; lia|]
    end.
    split; [exact Herr|]. rewrite Hch. simpl. rewrite <- app_assoc. simpl.
    rewrite Nat.add_0_r. do 2 f_equal.
    apply imap_ext. intros j r _. simpl.
    rewrite (createCanalEvent_same m) by (by repeat split).
    f_equal. lia.
Qed.

(** An UPDATE rows event that passes the filters, with room in the
    channel: one event per element of [Rows], and the event made for an
    element at an odd index carries no image. *)
(** The watch filter of [handleRowsEvent] lets a table pass when the
    watch list is empty or holds the table. *)
Lemma watch_filter_passes (m : Slave.MySQLBinlogSlave) (key : string) :
  Slave.watchTables m = ∅ ∨ Slave.watchTables m !! key = Some true →
  (0 <? size (Slave.watchTables m)) && negb (default false (Slave.watchTables m !! key))
  = false.
Proof.
  intros [Hw|Hw].
  - by rewrite Hw, map_size_empty.
  - rewrite Hw. simpl. apply andb_false_r.
Qed.

Lemma update_rows_one_event_per_row {H : Type} `{EventHandler H}
    m (sink : Sink.DefaultEventSink H) header e :
  Slave.rowsEventType header = Some EventTypeUpdate →
  Slave.watchTables m = ∅
  ∨ Slave.watchTables m !! tableKeyOf (replication.tm_Schema (replication.r_Table e))
                            (replication.tm_Table (replication.r_Table e)) = Some true →
  Slave.eventTypes m !! EventTypeUpdate = Some true →
  length (Sink.eventCh sink) + length (replication.Rows e) ≤ Sink.eventChCap →
  let r := Slave.handleRowsEvent m sink header e in
  r.1.1 = None
  ∧ length (Sink.eventCh r.2) = length (Sink.eventCh sink) + length (replication.Rows e)
  ∧ ∀ j row, replication.Rows e !! j = Some row → j mod 2 ≠ 0 →
      ∃ ev, Sink.eventCh r.2 !! (length (Sink.eventCh sink) + j) = Some ev
            ∧ BeforeData ev = None ∧ AfterData ev = None.
Proof.
  intros Hty Hw Het Hroom r. subst r. unfold Slave.handleRowsEvent. cbv zeta.
  rewrite (watch_filter_passes _ _ Hw), Hty, Het. simpl.
  destruct (Slave.getTableSchema m _ _ _) as [ts m1].
  destruct (sendRows_all header ts EventTypeUpdate (replication.Rows e)
              (replication.Rows e) 0 m1 sink Hroom) as [Herr Hch].
  split; [exact Herr|]. rewrite Hch. split.
  - by rewrite length_app, length_imap.
  - intros j row Hj Hodd.
    exists (Slave.createCanalEvent m1 header ts EventTypeUpdate row j (replication.Rows e)).
    split; [|by apply createCanalEvent_update_unpaired].
    rewrite lookup_app_r by lia.
    replace (length (Sink.eventCh sink) + j - length (Sink.eventCh sink)) with j by lia.
    by rewrite list_lookup_imap, Hj.
Qed.

(** C1. On the UPDATE rows event of [Ex.updateEvent], which carries one
    (before, after) row pair, [handleRowsEvent] sends two events to the
    sink: the first carries both images, the second, made for the row
    at index 1, carries neither. *)
Theorem C1_update_pair_emits_empty_event :
  let r := Slave.handleRowsEvent Ex.slave Ex.emptySink
             (replication.Header Ex.updateEvent) Ex.updateRows in
  r.1.1 = None
  ∧ Ex.images <$> Sink.eventCh r.2
    = [ (EventTypeUpdate, true, true); (EventTypeUpdate, false, false) ].
Proof. vm_compute. done. Qed.

(** ** C3: a send that times out *)






(** ** C5: saving a position *)

(** C5 (as the code has it). [SavePosition] returns the error of the
    storage write it attempts (a create when no row exists, an update
    otherwise), and a failed write leaves the stored rows as they were.
    The cache is written first: after the call it maps the instance id
    to the new position whether or not the write succeeded, and the
    other cache entries are unchanged. *)
Theorem C5_save_position_writes_cache_first
    (m : Meta.DBMetaManager) (instanceID : string) (pos : Position) :
  let r := Meta.SavePosition m instanceID pos in
  (Meta.db_First (Meta.db m) instanceID = Meta.ErrRecordNotFound →
   ∀ e, (Meta.db_Create (Meta.db m) (Meta.rowOf instanceID pos)).1 = Some e →
        r.1 = Some ("failed to create binlog position: " +:+ e))
  ∧ (Meta.db_First (Meta.db m) instanceID ≠ Meta.ErrRecordNotFound →
     ∀ e, (Meta.db_Updates (Meta.db m) instanceID (Meta.rowOf instanceID pos)).1 = Some e →
          r.1 = Some ("failed to update binlog position: " +:+ e))
  ∧ (r.1 ≠ None → Meta.positions (Meta.db r.2) = Meta.positions (Meta.db m))
  ∧ Meta.cache r.2 !! instanceID = Some pos
  ∧ (∀ j, j ≠ instanceID → Meta.cache r.2 !! j = Meta.cache m !! j).
Proof.
  intros r. subst r. unfold Meta.SavePosition. fold (Meta.rowOf instanceID pos).
  split; [|split; [|split; [|split]]].
  - intros Hf e He. rewrite Hf.
    destruct (Meta.db_Create _ _) as [[e'|] d]; simpl in *; congruence.
  - intros Hf e He.
    destruct (Meta.db_First _ _); try done;
      destruct (Meta.db_Updates _ _ _) as [[e'|] d]; simpl in *; congruence.
  - destruct (Meta.db_First _ _);
      [ unfold Meta.db_Updates | unfold Meta.db_Create | unfold Meta.db_Updates ];
      repeat case_match; simplify_eq; simpl; done.
  - destruct (Meta.db_First _ _); repeat case_match; simpl; apply lookup_insert_eq.
  - intros j Hj.
    destruct (Meta.db_First _ _); repeat case_match; simpl; by apply lookup_insert_ne.
Qed.

Lemma C5_save_position_writes_cache_first_witness :
  (Meta.SavePosition Ex.metaUpdatesFail "task-1" Ex.newerPos).1
  = Some ("failed to update binlog position: " +:+ "database is locked").
Proof.
  destruct (C5_save_position_writes_cache_first Ex.metaUpdatesFail "task-1" Ex.newerPos)
    as (_ & Hupd & _).
  apply Hupd; [vm_compute; discriminate | vm_compute; reflexivity].
Defined.

(** The claim of C5 fails: the save below is rejected by the storage
    and returns the error, yet the cached position of the instance has
    changed from offset 4242 to 5000. *)
Lemma C5_counterexample :
  let r := Meta.SavePosition Ex.metaUpdatesFail "task-1" Ex.newerPos in
  r.1 ≠ None
  ∧ Meta.cache Ex.metaUpdatesFail !! "task-1" = Some Ex.savedPos
  ∧ Meta.cache r.2 !! "task-1" = Some Ex.newerPos
  ∧ Ex.savedPos ≠ Ex.newerPos.
Proof. vm_compute. repeat split; discriminate || reflexivity. Qed.

(** ** C4: the key of the stored position *)

Lemma foldl_preserves {A B : Type} (P : A → Prop) (f : A → B → A) (l : list B) :
  (∀ a x, P a → P (f a x)) → ∀ a, P a → P (foldl f a l).
Proof. intros Hf. induction l as [|x l IH]; simpl; eauto. Qed.

Lemma configure_same slave cfg :
  Slave.same_session slave (Instance.configureBinlogSlaveFromConfig slave cfg).
Proof.
  unfold Instance.configureBinlogSlaveFromConfig.
  apply (foldl_preserves (Slave.same_session slave)).
  - intros a db Ha.
    apply (foldl_preserves (Slave.same_session slave)); [|done].
    intros b t Hb. eapply same_session_trans; [exact Hb|]. by repeat split.
  - by repeat split.
Qed.

Lemma Subscribe_same c schema table h :
  (Instance.Subscribe c schema table h).1 = None
  ∧ Instance.id (Instance.Subscribe c schema table h).2 = Instance.id c
  ∧ Instance.running (Instance.Subscribe c schema table h).2 = Instance.running c
  ∧ Slave.same_session (Instance.binlogSlave c)
      (Instance.binlogSlave (Instance.Subscribe c schema table h).2).
Proof. unfold Instance.Subscribe. simpl. repeat split; done. Qed.

Lemma Slave_Start_ok sl mm connOK sl' :
  Slave.Start sl mm connOK = Some (None, sl') →
  Slave.hasMetaManager sl = true →
  Slave.instanceID sl' = Slave.instanceID sl
  ∧ Slave.hasMetaManager sl' = true
  ∧ Slave.gtidSet sl' = Slave.gtidSet sl
  ∧ Slave.running sl' = true
  ∧ (∀ p, Meta.LoadPosition mm (Slave.instanceID sl) = Meta.LoadOk p →
          Slave.binlogPos sl' = {| mysql.Name := Name p; mysql.Pos := Pos p |})
  ∧ (∀ e, Meta.LoadPosition mm (Slave.instanceID sl) = Meta.LoadErr e →
          Slave.binlogPos sl' = {| mysql.Name := ""; mysql.Pos := 4 |}).
Proof.
  unfold Slave.Start, Slave.getCurrentPosition. intros Hs Hm.
  destruct (Slave.running sl); [done|]. simpl in Hs. rewrite Hm in Hs. simpl in Hs.
  destruct (Meta.LoadPosition mm (Slave.instanceID sl)) as [p|e|]; simpl in Hs;
    simplify_eq; simpl; repeat split; try done; intros; by simplify_eq.
Qed.

Lemma Instance_Start_ok c mm connOK lv c' :
  Instance.Start c mm connOK lv = Some (None, c') →
  Instance.id c' = Instance.id c
  ∧ Instance.running c' = true
  ∧ Slave.Start (Instance.binlogSlave c) mm connOK = Some (None, Instance.binlogSlave c').
Proof.
  unfold Instance.Start. intros Hs.
  destruct (Instance.running c); [done|].
  destruct (Sink.Start (Instance.eventSink c)) as [[e|] sink]; [done|].
  destruct (Slave.Start (Instance.binlogSlave c) mm connOK) as [[[e|] sl]|]; try done.
  - by destruct (Sink.Stop sink lv).
  - by simplify_eq.
Qed.

Lemma slave_key_not_task_key cfg taskID :
  Slave.slaveInstanceID cfg ≠ Service.taskInstanceID taskID.
Proof. unfold Slave.slaveInstanceID, Service.taskInstanceID. simpl. discriminate. Qed.

Lemma updatePosition_save_key m ev m' k p :
  Slave.updatePosition m ev = (m', Some (k, p)) → k = Slave.instanceID m.
Proof.
  unfold Slave.updatePosition. intros Hu. repeat case_match; by simplify_eq.
Qed.

Lemma CreateTask_real s task connOK :
  (Service.ID task < 1000)%Z →
  Service.CreateTask s task connOK =
  let c0 := Instance.NewMySQLCanalInstance (Service.taskInstanceID (Service.ID task))
              (Service.config s) true in
  let h1 := HWebhook (Webhook.NewWebhookHandler ("webhook-" +:+ pretty (Service.ID task))
                        (Service.CallbackURL task)) in
  let h2 := HDatabase (DatabaseH.NewDatabaseHandler ("db-" +:+ pretty (Service.ID task))
                         (Service.ID task)
                         (Cfg.DatabaseStorageEnabled (Service.config s))) in
  let c1 := (Instance.Subscribe c0 (Service.t_Database task) (Service.t_Table task) h1).2 in
  let c2 := (Instance.Subscribe c1 (Service.t_Database task) (Service.t_Table task) h2).2 in
  match Instance.Start c2 (Service.metaManager s) connOK true with
  | None => None
  | Some (Some err, _) =>
      Some (Some ("failed to start mysql canal instance for task "
                  +:+ pretty (Service.ID task) +:+ ": " +:+ err), s)
  | Some (None, c3) =>
      Some (None,
            {| Service.config := Service.config s;
               Service.metaManager := Service.metaManager s;
               Service.objects := Service.objects s ++ [Instance.Real c3];
               Service.instances :=
                 <[Service.taskInstanceID (Service.ID task) := length (Service.objects s)]>
                   (Service.instances s);
               Service.running := Service.running s |})
  end.
Proof.
  intros Hid. unfold Service.CreateTask.
  assert ((Service.ID task >=? 1000)%Z = false) as -> by lia.
  cbv zeta. unfold Instance.SubscribeI, Instance.StartI, Instance.Subscribe, Sink.Subscribe.
  cbv beta iota zeta. unfold snd.
  match goal with
  | |- context [Instance.Start ?c ?mm ?b ?lv] =>
      destruct (Instance.Start c mm b lv) as [[[e|] c3]|]
  end; reflexivity.
Qed.

Lemma geb_false a b : (a < b)%Z → (a >=? b)%Z = false.
Proof. intros. rewrite Z.geb_leb. apply Z.leb_gt. lia. Qed.

Lemma geb_true a b : (b ≤ a)%Z → (a >=? b)%Z = true.
Proof. intros. rewrite Z.geb_leb. apply Z.leb_le. lia. Qed.

Lemma CreateTask_mock s task connOK :
  (1000 ≤ Service.ID task)%Z →
  Service.CreateTask s task connOK
  = Some (None,
          {| Service.config := Service.config s;
             Service.metaManager := Service.metaManager s;
             Service.objects :=
               Service.objects s
               ++ [Instance.Mock (Instance.NewMockCanalInstance
                                    (Service.taskInstanceID (Service.ID task)))];
             Service.instances :=
               <[Service.taskInstanceID (Service.ID task) := length (Service.objects s)]>
                 (Service.instances s);
             Service.running := Service.running s |}).
Proof.
  intros Hid. unfold Service.CreateTask. by rewrite geb_true.
Qed.

(** C4 (as the code has it). For every task, the instance that
    [CreateTask] creates is stored and named "task-<id>", and the
    creation leaves the meta store as it is. For a task with an id
    below 1000 the instance is a real one: its replication engine loads
    its start position from the meta store, and later saves positions,
    under the key "mysql-slave-<host>-<port>-<server id>" built from
    the connection settings. For a task with an id of 1000 or more the
    instance is a mock, which has no replication engine and neither
    loads nor saves a position. The key of the connection settings is
    never "task-<id>". *)
Theorem C4_position_key_is_slave_id
    (s s' : Service.EnhancedCanalService) (task : Service.Task) (connOK : bool) :
  Service.CreateTask s task connOK = Some (None, s') →
  let key := Slave.slaveInstanceID (Instance.mysqlConfigOf (Service.config s)) in
  ∃ i,
    Service.instances s' !! Service.taskInstanceID (Service.ID task)
      = Some (length (Service.objects s))
    ∧ Service.objects s' !! length (Service.objects s) = Some i
    ∧ Instance.GetID i = Service.taskInstanceID (Service.ID task)
    ∧ Service.metaManager s' = Service.metaManager s
    ∧ key ≠ Service.taskInstanceID (Service.ID task)
    ∧ match i with
      | Instance.Real c =>
          (Service.ID task < 1000)%Z
          ∧ Slave.instanceID (Instance.binlogSlave c) = key
          ∧ (∀ p, Meta.LoadPosition (Service.metaManager s) key = Meta.LoadOk p →
                  Slave.binlogPos (Instance.binlogSlave c)
                  = {| mysql.Name := Name p; mysql.Pos := Pos p |})
          ∧ (∀ ev m' k p,
               Slave.updatePosition (Instance.binlogSlave c) ev = (m', Some (k, p)) →
               k = key)
      | Instance.Mock c =>
          (1000 ≤ Service.ID task)%Z
          ∧ c = Instance.NewMockCanalInstance (Service.taskInstanceID (Service.ID task))
      end.
Proof.
  intros Hc key. destruct (Z.lt_ge_cases (Service.ID task) 1000) as [Hid|Hid].
  - rewrite CreateTask_real in Hc by done. cbv zeta in Hc.
    set (c0 := Instance.NewMySQLCanalInstance _ _ _) in Hc.
    set (h1 := HWebhook _) in Hc. set (h2 := HDatabase _) in Hc.
    set (c1 := (Instance.Subscribe c0 _ _ h1).2) in Hc.
    set (c2 := (Instance.Subscribe c1 _ _ h2).2) in Hc.
    destruct (Subscribe_same c0 (Service.t_Database task) (Service.t_Table task) h1)
      as (_ & Hid1 & Hr1 & Hs1).
    destruct (Subscribe_same c1 (Service.t_Database task) (Service.t_Table task) h2)
      as (_ & Hid2 & Hr2 & Hs2).
    fold c1 in Hid1, Hr1, Hs1, Hid2, Hr2, Hs2. fold c2 in Hid2, Hr2, Hs2.
    clearbody c1 c2.
    destruct (Instance.Start c2 _ connOK true) as [[[e|] c3]|] eqn:Hst; try done.
    simplify_eq. simpl.
    destruct (Instance_Start_ok _ _ _ _ _ Hst) as (Hid3 & Hr3 & Hsl).
    assert (Slave.same_session (Slave.NewMySQLBinlogSlaveWithMeta
              (Instance.mysqlConfigOf (Service.config s)) true)
              (Instance.binlogSlave c2)) as (_ & _ & _ & Hkey & Hmeta & _).
    { eapply same_session_trans; [|exact Hs2].
      eapply same_session_trans; [|exact Hs1].
      apply configure_same. }
    simpl in Hkey, Hmeta.
    destruct (Slave_Start_ok _ _ _ _ Hsl Hmeta) as (Hk3 & _ & _ & _ & Hload & _).
    exists (Instance.Real c3). split; [apply lookup_insert_eq|].
    split; [by rewrite lookup_app_r, Nat.sub_diag|].
    split; [simpl; by rewrite Hid3, Hid2, Hid1|].
    split; [done|].
    split; [apply slave_key_not_task_key|].
    split; [done|].
    split; [by rewrite Hk3, Hkey|].
    split.
    + intros p Hp. apply Hload. by rewrite Hkey.
    + intros ev m' k p Hu. apply updatePosition_save_key in Hu. by rewrite Hu, Hk3, Hkey.
  - rewrite CreateTask_mock in Hc by done. simplify_eq. simpl.
    exists (Instance.Mock (Instance.NewMockCanalInstance
                             (Service.taskInstanceID (Service.ID task)))).
    split; [apply lookup_insert_eq|].
    split; [by rewrite lookup_app_r, Nat.sub_diag|].
    split; [done|]. split; [done|].
    split; [apply slave_key_not_task_key|]. done.
Qed.

Lemma C4_position_key_is_slave_id_witness :
  ∃ i, Service.objects Ex.service1 !! 0 = Some i
       ∧ Instance.GetID i = "task-1"
       ∧ match i with
         | Instance.Real c =>
             Slave.instanceID (Instance.binlogSlave c) = "mysql-slave-127.0.0.1-3306-1001"
         | Instance.Mock _ => False
         end.
Proof.
  destruct (C4_position_key_is_slave_id Ex.service0 Ex.service1 Ex.task1 true)
    as (i & _ & Hobj & Hid & _ & _ & Hi).
  - vm_compute. reflexivity.
  - exists i. split; [exact Hobj|]. split; [exact Hid|].
    destruct i as [c|c].
    + exact (proj1 (proj2 Hi)).
    + destruct Hi as [Hge _]. vm_compute in Hge. by destruct Hge.
Defined.

(** The claim of C4 fails: the meta store holds a position under
    "task-1", the instance created for task 1 is named "task-1", but
    its slave uses the key "mysql-slave-127.0.0.1-3306-1001": it starts
    from the default position and saves under that key. *)
Lemma C4_counterexample :
  Service.CreateTask Ex.service0 Ex.task1 true = Some (None, Ex.service1)
  ∧ Meta.cache (Service.metaManager Ex.service1) !! "task-1" = Some Ex.savedPos
  ∧ match Service.objects Ex.service1 !! 0 with
    | Some (Instance.Real c) =>
        Instance.id c = "task-1"
        ∧ Slave.instanceID (Instance.binlogSlave c) = "mysql-slave-127.0.0.1-3306-1001"
        ∧ Slave.GetBinlogPosition (Instance.binlogSlave c)
          = {| Name := ""; Pos := 4; GTIDSet := "" |}
        ∧ (Slave.updatePosition (Instance.binlogSlave c) Ex.xidEvent).2
          = Some ("mysql-slave-127.0.0.1-3306-1001",
                  {| Name := ""; Pos := 531; GTIDSet := "" |})
    | _ => False
    end.
Proof. vm_compute. repeat split; reflexivity. Qed.

(** ** C2: one running instance per task *)

(** Whatever the supervisor holds, a successful [CreateTask] for a real
    task adds one running instance named after the task and stops
    none: the task has one more running instance than before. *)
Lemma CreateTask_adds_running s s' task connOK :
  (Service.ID task < 1000)%Z →
  Service.CreateTask s task connOK = Some (None, s') →
  (∃ c, Service.objects s' = Service.objects s ++ [Instance.Real c]
        ∧ Instance.id c = Service.taskInstanceID (Service.ID task)
        ∧ Instance.running c = true)
  ∧ Service.instances s' !! Service.taskInstanceID (Service.ID task)
    = Some (length (Service.objects s))
  ∧ length (Service.runningInstances s' (Service.ID task))
    = S (length (Service.runningInstances s (Service.ID task))).
Proof.
  intros Hid Hc. rewrite CreateTask_real in Hc by done. cbv zeta in Hc.
  set (c0 := Instance.NewMySQLCanalInstance _ _ _) in Hc.
  set (h1 := HWebhook _) in Hc. set (h2 := HDatabase _) in Hc.
  set (c1 := (Instance.Subscribe c0 _ _ h1).2) in Hc.
  set (c2 := (Instance.Subscribe c1 _ _ h2).2) in Hc.
  destruct (Subscribe_same c0 (Service.t_Database task) (Service.t_Table task) h1)
    as (_ & Hid1 & _).
  destruct (Subscribe_same c1 (Service.t_Database task) (Service.t_Table task) h2)
    as (_ & Hid2 & _).
  fold c1 in Hid1, Hid2. fold c2 in Hid2. clearbody c1 c2.
  destruct (Instance.Start c2 _ connOK true) as [[[e|] c3]|] eqn:Hst; try done.
  simplify_eq.
  destruct (Instance_Start_ok _ _ _ _ _ Hst) as (Hid3 & Hr3 & _).
  assert (Instance.id c3 = Service.taskInstanceID (Service.ID task)) as Hname
    by (by rewrite Hid3, Hid2, Hid1).
  split; [by exists c3|]. split; [apply lookup_insert_eq|].
  unfold Service.runningInstances. simpl.
  rewrite filter_app, length_app.
  rewrite filter_cons_True by (by simpl).
  rewrite filter_nil. simpl. lia.
Qed.

(** C2. Calling [CreateTask] twice for task 1 succeeds both times and
    leaves two running instances named "task-1": the map refers to the
    second one (address 1), the first one (address 0) was never stopped. *)
Theorem C2_second_create_leaves_two_running :
  Service.CreateTask Ex.service0 Ex.task1 true = Some (None, Ex.service1)
  ∧ Service.CreateTask Ex.service1 Ex.task1 true = Some (None, Ex.service2)
  ∧ length (Service.runningInstances Ex.service1 1) = 1
  ∧ length (Service.runningInstances Ex.service2 1) = 2
  ∧ Service.instances Ex.service2 !! "task-1" = Some 1
  ∧ Instance.IsRunning <$> Service.objects Ex.service2 = [true; true].
Proof. vm_compute. repeat split; reflexivity. Qed.

(** ** C7: idempotent subscribe *)

Lemma handlersAt_Subscribe {H : Type} `{EventHandler H}
    (s : Sink.DefaultEventSink H) schema table (h : H) :
  Sink.handlersAt (Sink.Subscribe s schema table h).2 (tableKeyOf schema table)
  = <[GetName h := h]> (Sink.handlersAt s (tableKeyOf schema table)).
Proof.
  unfold Sink.handlersAt, Sink.Subscribe. simpl.
  rewrite lookup_insert_eq. simpl.
  destruct (Sink.handlers s !! tableKeyOf schema table) as [hs|] eqn:Hk.
  - by rewrite Hk.
  - by rewrite lookup_insert_eq.
Qed.

Lemma handlers_Subscribe_other {H : Type} `{EventHandler H}
    (s : Sink.DefaultEventSink H) schema table (h : H) k :
  k ≠ tableKeyOf schema table →
  Sink.handlers (Sink.Subscribe s schema table h).2 !! k = Sink.handlers s !! k.
Proof.
  intros Hk. unfold Sink.Subscribe. simpl.
  rewrite lookup_insert_ne by done.
  destruct (Sink.handlers s !! tableKeyOf schema table); [done|].
  by rewrite lookup_insert_ne.
Qed.

(** C7. Subscribing twice under the same (schema, table) with handlers
    of the same name: the second call returns nil, the name is
    registered once, to the second handler; the second call adds no
    registration (same names, same count as after the first call), and
    from a key without registrations exactly one registration results.
    Other keys are untouched. *)
Theorem C7_subscribe_idempotent {H : Type} `{EventHandler H}
    (s : Sink.DefaultEventSink H) (schema table : string) (h1 h2 : H) :
  GetName h1 = GetName h2 →
  let key := tableKeyOf schema table in
  let s1 := (Sink.Subscribe s schema table h1).2 in
  let r2 := Sink.Subscribe s1 schema table h2 in
  r2.1 = None
  ∧ Sink.handlersAt r2.2 key !! GetName h1 = Some h2
  ∧ dom (Sink.handlersAt r2.2 key) = dom (Sink.handlersAt s1 key)
  ∧ size (Sink.handlersAt r2.2 key) = size (Sink.handlersAt s1 key)
  ∧ (Sink.handlersAt s key = ∅ → size (Sink.handlersAt r2.2 key) = 1)
  ∧ (∀ k, k ≠ key → Sink.handlers r2.2 !! k = Sink.handlers s !! k).
Proof.
  intros Hn key s1 r2. subst r2 s1 key.
  split; [done|].
  rewrite !handlersAt_Subscribe, <- Hn, insert_insert_eq.
  split; [apply lookup_insert_eq|].
  assert (dom (<[GetName h1:=h2]> (Sink.handlersAt s (tableKeyOf schema table)))
          = dom (<[GetName h1:=h1]> (Sink.handlersAt s (tableKeyOf schema table)))) as Hdom.
  { by rewrite !dom_insert_L. }
  split; [exact Hdom|].
  split; [by rewrite <- !size_dom, Hdom|].
  split.
  - intros ->. by rewrite insert_empty, map_size_singleton.
  - intros k Hk. by rewrite !handlers_Subscribe_other.
Qed.

Lemma C7_subscribe_idempotent_witness :
  (Sink.Subscribe
     (Sink.Subscribe Ex.emptySink "test" "users"
        (HWebhook (Webhook.NewWebhookHandler "webhook-1" "http://a"))).2
     "test" "users"
     (HWebhook (Webhook.NewWebhookHandler "webhook-1" "http://b"))).1 = None
  ∧ size (Sink.handlersAt
            (Sink.Subscribe
               (Sink.Subscribe Ex.emptySink "test" "users"
                  (HWebhook (Webhook.NewWebhookHandler "webhook-1" "http://a"))).2
               "test" "users"
               (HWebhook (Webhook.NewWebhookHandler "webhook-1" "http://b"))).2
            (tableKeyOf "test" "users")) = 1.
Proof.
  destruct (C7_subscribe_idempotent Ex.emptySink "test" "users"
              (HWebhook (Webhook.NewWebhookHandler "webhook-1" "http://a"))
              (HWebhook (Webhook.NewWebhookHandler "webhook-1" "http://b")))
    as (Hnil & _ & _ & _ & Hone & _).
  - reflexivity.
  - split; [exact Hnil|]. apply Hone. reflexivity.
Defined.

(** ** C9: the database handler *)




(** ** C8: webhook retries *)

Lemma wrap64_small x : int64_range x → wrap64 x = x.
Proof.
  unfold int64_range, wrap64. intros Hx. rewrite Z.mod_small; lia.
Qed.

Lemma sendEvents_set_counts h a b events o :
  Webhook.sendEvents (Webhook.set_counts h a b) events o = Webhook.sendEvents h events o.
Proof. by destruct o. Qed.

Lemma sendEvents_fails h events o :
  Webhook.sendEvents h events o ≠ None
  ↔ match o with
    | Webhook.Status code => (code < 200 ∨ 300 ≤ code)%Z
    | _ => True
    end.
Proof.
  destruct o as [| | |code]; simpl; try done.
  destruct (code <? 200)%Z eqn:H1; destruct (code >=? 300)%Z eqn:H2; simpl;
    split; try done; try lia.
Qed.

(** [k] failed attempts in a row, from attempt [a] on, none of them
    cut short by the context. *)
Lemma retryLoop_failures env events : ∀ k fuel a h tr,
  (∀ j, a ≤ j < a + k → 0 < j → Webhook.cancelled env j = false) →
  (∀ j, a ≤ j < a + k → Webhook.sendEvents h events (Webhook.outcome env j) ≠ None) →
  (0 ≤ Webhook.retryInterval h)%Z →
  (Z.of_nat (a + k) * Webhook.retryInterval h < 2 ^ 63)%Z →
  int64_range (Webhook.errorCount h) →
  int64_range (Webhook.errorCount h + Z.of_nat k) →
  Webhook.retryLoop (k + fuel) a env events h tr
  = Webhook.retryLoop fuel (a + k) env events
      (Webhook.set_counts h (Webhook.successCount h) (Webhook.errorCount h + Z.of_nat k))
      (tr ++ flat_map (Webhook.attemptEffects (length events) (Webhook.retryInterval h))
                      (seq a k)).
Proof.
  induction k as [|k IH]; intros fuel a h tr Hc Hf Hri Hov He Hek.
  - simpl. rewrite Nat.add_0_r, Z.add_0_r, app_nil_r. by destruct h.
  - simpl.
    assert ((0 <? a) && Webhook.cancelled env a = false) as ->.
    { destruct a as [|a]; [done|]. simpl. apply Hc; lia. }
    destruct (Webhook.sendEvents h events (Webhook.outcome env a)) as [err|] eqn:Hs;
      [|by destruct (Hf a ltac:(lia))].
    rewrite wrap64_small by (unfold int64_range in *; lia).
    rewrite IH; simpl; try done.
    + replace (a + S k) with (S (a + k)) by lia. f_equal.
      * unfold Webhook.set_counts; simpl. f_equal. lia.
      * unfold Webhook.attemptEffects at 2.
        destruct a as [|a]; simpl.
        -- by rewrite <- !app_assoc.
        -- rewrite wrap64_small; [by rewrite <- !app_assoc|].
           unfold int64_range. nia.
    + intros j Hj Hpos. apply Hc; lia.
    + intros j Hj. rewrite sendEvents_set_counts. apply Hf. lia.
    + replace (S (a + k)) with (a + S k) by lia. done.
    + unfold int64_range in *. lia.
    + unfold int64_range in *. lia.
Qed.

(** C8. [sendEventsWithRetry] on a batch of [n] events, when no counter
    or duration overflows:
    - an attempt fails exactly on a marshalling, request or transport
      error or on a status outside 200..299;
    - if the first [k] attempts fail ([k] at most [maxRetries]) and the
      next succeeds, [sendEvents] is called [k + 1] times, the [j]-th retry is
      preceded by a backoff of [j * retryInterval], [successCount]
      grows by [n] and [errorCount] by [k];
    - if all [maxRetries + 1] attempts fail, [errorCount] grows by
      [maxRetries + 1], [successCount] is unchanged, and the function
      returns: the batch is gone, nothing is put back in the buffer;
    - if the context is cancelled during the backoff before retry [k],
      after [k] failed attempts, the function returns there:
      [errorCount] has grown by [k] and nothing more is sent;
    - a new handler has [maxRetries = 3] and [retryInterval] of one
      second, and [Handle] never returns an error to the sink. *)
Theorem C8_webhook_retry
    (h : Webhook.WebhookHandler) (events : list Event) (env : Webhook.SendEnv) :
  (0 ≤ Webhook.maxRetries h)%Z →
  (0 ≤ Webhook.retryInterval h)%Z →
  ((Webhook.maxRetries h + 1) * Webhook.retryInterval h < 2 ^ 63)%Z →
  int64_range (Webhook.successCount h) →
  int64_range (Webhook.successCount h + Z.of_nat (length events)) →
  int64_range (Webhook.errorCount h) →
  int64_range (Webhook.errorCount h + Webhook.maxRetries h + 1) →
  let r := Webhook.sendEventsWithRetry env events h in
  let n := length events in
  let effects := flat_map (Webhook.attemptEffects n (Webhook.retryInterval h)) in
  let fails j := Webhook.sendEvents h events (Webhook.outcome env j) ≠ None in
  let uncancelled k := ∀ j, 0 < j → j ≤ k → Webhook.cancelled env j = false in
  (∀ o, Webhook.sendEvents h events o ≠ None
        ↔ match o with
          | Webhook.Status code => (code < 200 ∨ 300 ≤ code)%Z
          | _ => True
          end)
  ∧ (∀ k, (Z.of_nat k ≤ Webhook.maxRetries h)%Z →
          uncancelled k →
          (∀ j, j < k → fails j) →
          Webhook.sendEvents h events (Webhook.outcome env k) = None →
          r.2 = effects (seq 0 (S k))
          ∧ Webhook.successCount r.1 = (Webhook.successCount h + Z.of_nat n)%Z
          ∧ Webhook.errorCount r.1 = (Webhook.errorCount h + Z.of_nat k)%Z
          ∧ Webhook.eventBuffer r.1 = Webhook.eventBuffer h)
  ∧ (uncancelled (Z.to_nat (Webhook.maxRetries h)) →
     (∀ j, (Z.of_nat j ≤ Webhook.maxRetries h)%Z → fails j) →
     r.2 = effects (seq 0 (Z.to_nat (Webhook.maxRetries h) + 1))
     ∧ Webhook.successCount r.1 = Webhook.successCount h
     ∧ Webhook.errorCount r.1 = (Webhook.errorCount h + Webhook.maxRetries h + 1)%Z
     ∧ Webhook.eventBuffer r.1 = Webhook.eventBuffer h)
  ∧ (∀ k, 0 < k → (Z.of_nat k ≤ Webhook.maxRetries h)%Z →
          uncancelled (k - 1) →
          Webhook.cancelled env k = true →
          (∀ j, j < k → fails j) →
          r.2 = effects (seq 0 k)
          ∧ Webhook.successCount r.1 = Webhook.successCount h
          ∧ Webhook.errorCount r.1 = (Webhook.errorCount h + Z.of_nat k)%Z
          ∧ Webhook.eventBuffer r.1 = Webhook.eventBuffer h)
  ∧ (∀ name url, Webhook.maxRetries (Webhook.NewWebhookHandler name url) = 3%Z
                 ∧ Webhook.retryInterval (Webhook.NewWebhookHandler name url)
                   = Webhook.Second)
  ∧ (∀ h' e, (Webhook.Handle h' e).1.1 = None).
Proof.
  intros Hmr Hri Hov Hs Hsn He Hem r n effects fails uncancelled.
  subst r n effects fails uncancelled.
  unfold Webhook.sendEventsWithRetry.
  split; [apply sendEvents_fails|].
  split; [|split; [|split; [|split]]].
  - intros k Hk Hc Hfail Hok.
    rewrite (seq_S k 0), flat_map_app.
    replace (Z.to_nat (Webhook.maxRetries h + 1))
      with (k + S (Z.to_nat (Webhook.maxRetries h) - k)) by lia.
    rewrite retryLoop_failures; try done.
    + cbn [Webhook.retryLoop Nat.add].
      assert ((0 <? k) && Webhook.cancelled env k = false) as ->.
      { destruct k as [|k]; [done|]. simpl. apply Hc; lia. }
      rewrite sendEvents_set_counts, Hok.
      cbn [fst snd Webhook.set_counts Webhook.successCount Webhook.errorCount
           Webhook.eventBuffer Webhook.retryInterval].
      rewrite (wrap64_small (_ + Z.of_nat (length events))) by done.
      split; [|done].
      cbn [flat_map]. rewrite app_nil_r, app_nil_l.
      unfold Webhook.attemptEffects at 3.
      destruct k as [|k]; cbn [Nat.eqb Nat.ltb Nat.leb]; [done|].
      rewrite wrap64_small; [by rewrite <- app_assoc|]. unfold int64_range. nia.
    + intros j Hj Hpos. apply Hc; lia.
    + intros j Hj. apply Hfail. lia.
    + simpl. nia.
    + unfold int64_range in *. lia.
  - intros Hc Hfail.
    replace (Z.to_nat (Webhook.maxRetries h + 1))
      with (Z.to_nat (Webhook.maxRetries h) + 1 + 0) by lia.
    rewrite retryLoop_failures; try done.
    + simpl. split; [done|]. split; [done|]. split; [lia|done].
    + intros j Hj Hpos. apply Hc; lia.
    + intros j Hj. apply Hfail. lia.
    + simpl. nia.
    + unfold int64_range in *. lia.
  - intros k Hpos Hk Hc Hcan Hfail.
    replace (Z.to_nat (Webhook.maxRetries h + 1))
      with (k + S (Z.to_nat (Webhook.maxRetries h) - k)) by lia.
    rewrite retryLoop_failures; try done.
    + cbn [Webhook.retryLoop Nat.add]. rewrite Hcan.
      assert ((0 <? k) = true) as -> by (apply Nat.ltb_lt; lia).
      simpl. done.
    + intros j Hj Hjpos. apply Hc; lia.
    + intros j Hj. apply Hfail. lia.
    + simpl. nia.
    + unfold int64_range in *. lia.
  - done.
  - intros h' e. unfold Webhook.Handle, Webhook.flushEvents. simpl.
    repeat case_match; simplify_eq; done.
Qed.

Lemma C8_webhook_retry_witness :
  (Webhook.sendEventsWithRetry Ex.flaky [Ex.filler] Ex.webhook).2
  = [ Webhook.Send 1; Webhook.Backoff 1000000000; Webhook.Send 1;
      Webhook.Backoff 2000000000; Webhook.Send 1 ]
  ∧ Webhook.successCount (Webhook.sendEventsWithRetry Ex.flaky [Ex.filler] Ex.webhook).1 = 1%Z
  ∧ Webhook.errorCount (Webhook.sendEventsWithRetry Ex.flaky [Ex.filler] Ex.webhook).1 = 2%Z.
Proof.
  destruct (C8_webhook_retry Ex.webhook [Ex.filler] Ex.flaky) as (_ & Hk & _).
  - simpl. lia.
  - simpl. unfold Webhook.Second. lia.
  - simpl. unfold Webhook.Second. lia.
  - unfold int64_range. simpl. lia.
  - unfold int64_range. simpl. lia.
  - unfold int64_range. simpl. lia.
  - unfold int64_range. simpl. lia.
  - destruct (Hk 2) as (Heff & Hs & He & _).
    + simpl. lia.
    + intros j _ _. reflexivity.
    + intros j Hj. destruct j as [|[|j]]; [discriminate|discriminate|lia].
    + reflexivity.
    + split; [rewrite Heff; reflexivity|]. split; [rewrite Hs|rewrite He]; reflexivity.
Defined.

(** ** C10: the consumer handles one event at a time *)

Section ConsumerFacts.
Context {H : Type} `{EventHandler H}.

Lemma enqueued_snoc (tr : list (@Consumer.Action H)) a :
  Consumer.enqueued (tr ++ [a])
  = Consumer.enqueued tr ++ match a with Consumer.Enqueue e => [e] | _ => [] end.
Proof.
  unfold Consumer.enqueued. rewrite omap_app. simpl. by destruct a.
Qed.

Lemma SendEvent_ok (s s' : Sink.DefaultEventSink H) e :
  Sink.SendEvent s e = (None, s') → Sink.eventCh s' = Sink.eventCh s ++ [e].
Proof.
  unfold Sink.SendEvent. case_match; intros; by simplify_eq.
Qed.

Lemma eventCh_Unsubscribe (s : Sink.DefaultEventSink H) schema table n :
  Sink.eventCh (Sink.Unsubscribe s schema table n).2 = Sink.eventCh s.
Proof. unfold Sink.Unsubscribe. by repeat case_match. Qed.

Lemma eventCh_Start (s s' : Sink.DefaultEventSink H) :
  Sink.Start s = (None, s') → Sink.eventCh s' = Sink.eventCh s.
Proof. unfold Sink.Start. case_match; intros; by simplify_eq. Qed.

Lemma Sink_Stop_returned (s s' : Sink.DefaultEventSink H) lv err :
  Sink.Stop s lv = Returned err s' →
  err = None
  ∧ Sink.handlers s' = Sink.handlers s
  ∧ Sink.eventCh s' = Sink.eventCh s
  ∧ Sink.started s' = false.
Proof.
  unfold Sink.Stop. destruct (Sink.started s) eqn:Hst; simpl.
  - destruct lv; [|done]. by intros [= <- <-].
  - by intros [= <- <-].
Qed.

(** Steps of the environment that leave channel, trace and dispatch
    alone. *)
Lemma Inv_same (st st' : @Consumer.State H) :
  Consumer.trace st' = Consumer.trace st →
  Consumer.nextSeq st' = Consumer.nextSeq st →
  Consumer.current st' = Consumer.current st →
  Sink.eventCh (Consumer.sink st') = Sink.eventCh (Consumer.sink st) →
  Consumer.Inv st → Consumer.Inv st'.
Proof.
  intros Ht Hn Hc Hch [].
  constructor; rewrite ?Ht, ?Hn, ?Hc, ?Hch; done.
Qed.

Lemma bounded_mono n n' (a : @Consumer.Action H) :
  n ≤ n' → Consumer.bounded n a → Consumer.bounded n' a.
Proof. destruct a; simpl; lia. Qed.

Lemma completed_snoc (tr : list (@Consumer.Action H)) a k :
  Consumer.completed tr k →
  (∀ e hs, a ≠ Consumer.Dequeue k e hs) →
  Consumer.completed (tr ++ [a]) k.
Proof.
  intros Hc Ha d e hs Hd n Hn.
  apply lookup_snoc_Some in Hd as [[_ Hd]|[_ ->]]; [|by destruct (Ha e hs)].
  destruct (Hc d e hs Hd n Hn) as (b & r & ? & ? & Hb & Hr).
  exists b, r. repeat split; try done; by apply lookup_app_l_Some.
Qed.

Lemma dispatch_ok_snoc (tr : list (@Consumer.Action H)) a c d hs :
  Consumer.dispatch_ok tr c d hs → Consumer.dispatch_ok (tr ++ [a]) c d hs.
Proof.
  intros (H1 & H2 & H3). split; [done|]. split.
  - intros n Hn. destruct (H2 n Hn) as (b & ? & Hb).
    exists b. split; [done|]. by apply lookup_app_l_Some.
  - intros n Hn. destruct (H3 n Hn) as (b & r & ? & ? & Hb & Hr).
    exists b, r. repeat split; try done; by apply lookup_app_l_Some.
Qed.

(** Appending anything but a call keeps the order, provided a new
    receipt carries a number no call has yet. *)
Lemma ordered_snoc_other (tr : list (@Consumer.Action H)) a n :
  Consumer.ordered tr →
  (∀ p x, tr !! p = Some x → Consumer.bounded n x) →
  (∀ k nm, a ≠ Consumer.Begin k nm) →
  (∀ k e hs, a = Consumer.Dequeue k e hs → n ≤ k) →
  Consumer.ordered (tr ++ [a]).
Proof.
  intros Ho Hb Hnb Hdq p k2 n2 Hp k1 Hk d e hs Hd.
  apply lookup_snoc_Some in Hp as [[Hlt Hp]|[_ ->]]; [|by destruct (Hnb k2 n2)].
  apply lookup_snoc_Some in Hd as [[_ Hd]|[_ ->]].
  - destruct (Ho p k2 n2 Hp k1 Hk d e hs Hd) as [Hdp Hall].
    split; [done|]. intros nm Hnm.
    destruct (Hall nm Hnm) as (b & r & ? & ? & ? & Hb1 & Hr1).
    exists b, r. repeat split; try done; by apply lookup_app_l_Some.
  - specialize (Hb p _ Hp). simpl in Hb.
    specialize (Hdq k1 e hs eq_refl). lia.
Qed.

(** Appending a call for event [k]: every earlier event is completed. *)
Lemma ordered_snoc_begin (tr : list (@Consumer.Action H)) k nm :
  Consumer.ordered tr →
  (∀ k1, k1 < k → Consumer.completed tr k1) →
  Consumer.ordered (tr ++ [Consumer.Begin k nm]).
Proof.
  intros Ho Hc p k2 n2 Hp k1 Hk d e hs Hd.
  apply lookup_snoc_Some in Hd as [[Hdl Hd]|[_ ?]]; [|done].
  apply lookup_snoc_Some in Hp as [[Hlt Hp]|[-> Heq]].
  - destruct (Ho p k2 n2 Hp k1 Hk d e hs Hd) as [Hdp Hall].
    split; [done|]. intros n Hn.
    destruct (Hall n Hn) as (b & r & ? & ? & ? & Hb1 & Hr1).
    exists b, r. repeat split; try done; by apply lookup_app_l_Some.
  - simplify_eq. split; [done|]. intros n Hn.
    destruct (Hc k1 Hk d e hs Hd n Hn) as (b & r & ? & ? & Hb1 & Hr1).
    exists b, r. repeat split; try done.
    + by eapply lookup_lt_Some.
    + by apply lookup_app_l_Some.
    + by apply lookup_app_l_Some.
Qed.

Lemma Inv_init : Consumer.Inv (Consumer.init (Sink.NewDefaultEventSink (H:=H))).
Proof.
  constructor; simpl; try done; try (intros k Hk; lia).
  by exists [].
Qed.

Lemma step_preserves_Inv (st st' : @Consumer.State H) :
  Consumer.Inv st → Consumer.step st st' → Consumer.Inv st'.
Proof.
  intros HI Hstep.
  destruct Hstep as
    [ st e s' Hsend | st schema table h | st schema table n | st s' Hstart | st s' Hcur Hstop
    | st e q l Hcur Hstarted Hch Hperm | st c n h rest Hcur Hsp
    | st c n Hcur Hg | st c n Hcur Hg | st c Hcur Hsp Hdone ].
  - (* send *)
    destruct HI as [(E & HE & HlenE) Hev Hbd Hrc Hcp Hcu Hord Hbg].
    apply SendEvent_ok in Hsend.
    constructor; simpl.
    + exists E. rewrite enqueued_snoc, HE, Hsend. by rewrite <- app_assoc.
    + intros d k e0 hs Hd.
      apply lookup_snoc_Some in Hd as [[_ Hd]|[_ ?]]; [|done].
      rewrite enqueued_snoc. apply lookup_app_l_Some. eauto.
    + intros p a Hp. apply lookup_snoc_Some in Hp as [[_ Hp]|[_ <-]]; [eauto|done].
    + intros k Hk. destruct (Hrc k Hk) as (d & e0 & hs & Hd).
      exists d, e0, hs. by apply lookup_app_l_Some.
    + intros k Hk Hc. apply completed_snoc; [eauto|done].
    + intros c Hc. destruct (Hcu c Hc) as [Hs Hok]. split; [done|].
      intros d e0 hs Hd.
      apply lookup_snoc_Some in Hd as [[_ Hd]|[_ ?]]; [|done].
      apply dispatch_ok_snoc. eauto.
    + apply (ordered_snoc_other _ _ (Consumer.nextSeq st)); done.
    + intros p k n Hp.
      apply lookup_snoc_Some in Hp as [[_ Hp]|[_ ?]]; [|done].
      destruct (Hbg p k n Hp) as (d & e0 & hs & ? & Hd).
      exists d, e0, hs. split; [done|]. by apply lookup_app_l_Some.
  - eapply Inv_same; [..|exact HI]; done.
  - eapply Inv_same; [..|exact HI]; try done. simpl. apply eventCh_Unsubscribe.
  - eapply Inv_same; [..|exact HI]; try done. simpl. by apply eventCh_Start.
  - eapply Inv_same; [..|exact HI]; try done. simpl.
    by destruct (Sink_Stop_returned _ _ _ _ Hstop) as (_ & _ & ? & _).
  - (* receive *)
    destruct HI as [(E & HE & HlenE) Hev Hbd Hrc Hcp Hcu Hord Hbg].
    set (hs0 := Sink.handlersFor (Consumer.sink st) e) in *.
    assert (Consumer.enqueued (Consumer.trace st) !! Consumer.nextSeq st = Some e) as Hnew.
    { rewrite HE, Hch, <- HlenE. by rewrite list_lookup_middle. }
    constructor; simpl.
    + exists (E ++ [e]). rewrite enqueued_snoc, app_nil_r, HE, Hch.
      split; [by rewrite <- app_assoc|]. rewrite length_app. simpl. lia.
    + intros d k e0 hs Hd. rewrite enqueued_snoc, app_nil_r.
      apply lookup_snoc_Some in Hd as [[_ Hd]|[_ Heq]]; [eauto|].
      by simplify_eq.
    + intros p a Hp. apply lookup_snoc_Some in Hp as [[_ Hp]|[_ <-]].
      * eapply bounded_mono; [|eauto]. lia.
      * simpl. lia.
    + intros k Hk. destruct (decide (k = Consumer.nextSeq st)) as [->|Hne].
      * exists (length (Consumer.trace st)), e, hs0. by apply list_lookup_middle.
      * destruct (Hrc k ltac:(lia)) as (d & e0 & hs & Hd).
        exists d, e0, hs. by apply lookup_app_l_Some.
    + intros k Hk Hc. specialize (Hc _ eq_refl). simpl in Hc.
      apply completed_snoc.
      * apply Hcp; [lia|]. intros c Hc'. by rewrite Hcur in Hc'.
      * intros e0 hs Heq. by simplify_eq.
    + intros c Hc. simplify_eq. simpl. split; [done|].
      intros d e0 hs Hd.
      apply lookup_snoc_Some in Hd as [[_ Hd]|[_ Heq]].
      * specialize (Hbd _ _ Hd). simpl in Hbd. lia.
      * simplify_eq. split; [|split]; simpl.
        -- intros n Hn. left.
           apply elem_of_dom in Hn as [h Hh].
           apply list_elem_of_fmap. exists (n, h). split; [done|].
           rewrite Hperm. by apply elem_of_map_to_list.
        -- intros n Hn. by rewrite lookup_empty in Hn.
        -- intros n Hn. by rewrite lookup_empty in Hn.
    + apply (ordered_snoc_other _ _ (Consumer.nextSeq st)); [done|done|done|].
      intros k e0 hs Heq. by simplify_eq.
    + intros p k n Hp.
      apply lookup_snoc_Some in Hp as [[_ Hp]|[_ ?]]; [|done].
      destruct (Hbg p k n Hp) as (d & e0 & hs & ? & Hd).
      exists d, e0, hs. split; [done|]. by apply lookup_app_l_Some.
  - (* spawn *)
    destruct HI as [HE Hev Hbd Hrc Hcp Hcu Hord Hbg].
    destruct (Hcu c Hcur) as [Hs Hok].
    constructor; simpl; try done.
    + intros k Hk Hc. apply Hcp; [done|].
      intros c' Hc'. rewrite Hcur in Hc'. simplify_eq.
      by specialize (Hc _ eq_refl).
    + intros c' Hc'. simplify_eq. simpl. split; [done|].
      intros d e0 hs Hd. destruct (Hok d e0 hs Hd) as (H1 & H2 & H3).
      split; [|split]; simpl.
      * intros n' Hn'. destruct (decide (n' = n)) as [->|Hne].
        -- right. rewrite lookup_insert_eq. eauto.
        -- rewrite lookup_insert_ne by done.
           destruct (H1 n' Hn') as [Hin|?]; [|by right].
           left. rewrite Hsp in Hin. simpl in Hin.
           apply elem_of_cons in Hin as [?|?]; done.
      * intros n' Hn'. apply H2.
        destruct (decide (n' = n)) as [->|Hne];
          [by rewrite lookup_insert_eq in Hn'|by rewrite lookup_insert_ne in Hn'].
      * intros n' Hn'. apply H3.
        destruct (decide (n' = n)) as [->|Hne];
          [by rewrite lookup_insert_eq in Hn'|by rewrite lookup_insert_ne in Hn'].
  - (* a handler is called *)
    destruct HI as [HE Hev Hbd Hrc Hcp Hcu Hord Hbg].
    destruct (Hcu c Hcur) as [Hs Hok].
    constructor; simpl.
    + by rewrite enqueued_snoc, app_nil_r.
    + intros d k e0 hs Hd. rewrite enqueued_snoc, app_nil_r.
      apply lookup_snoc_Some in Hd as [[_ Hd]|[_ ?]]; [eauto|done].
    + intros p a Hp. apply lookup_snoc_Some in Hp as [[_ Hp]|[_ <-]]; [eauto|].
      simpl. lia.
    + intros k Hk. destruct (Hrc k Hk) as (d & e0 & hs & Hd).
      exists d, e0, hs. by apply lookup_app_l_Some.
    + intros k Hk Hc. specialize (Hc _ eq_refl). simpl in Hc.
      apply completed_snoc; [|done].
      apply Hcp; [done|]. intros c' Hc'. rewrite Hcur in Hc'. by simplify_eq.
    + intros c' Hc'. simplify_eq. simpl. split; [done|].
      intros d e0 hs Hd.
      apply lookup_snoc_Some in Hd as [[Hdl Hd]|[_ ?]]; [|done].
      destruct (Hok d e0 hs Hd) as (H1 & H2 & H3).
      split; [|split]; simpl.
      * intros n' Hn'. destruct (H1 n' Hn') as [?|Hsome]; [by left|right].
        destruct (decide (n' = n)) as [->|Hne];
          [rewrite lookup_insert_eq; eauto|by rewrite lookup_insert_ne].
      * intros n' Hn'. destruct (decide (n' = n)) as [->|Hne].
        -- exists (length (Consumer.trace st)). split; [done|].
           by apply list_lookup_middle.
        -- rewrite lookup_insert_ne in Hn' by done.
           destruct (H2 n' Hn') as (b & ? & Hb).
           exists b. split; [done|]. by apply lookup_app_l_Some.
      * intros n' Hn'. destruct (decide (n' = n)) as [->|Hne];
          [by rewrite lookup_insert_eq in Hn'|].
        rewrite lookup_insert_ne in Hn' by done.
        destruct (H3 n' Hn') as (b & r & ? & ? & Hb & Hr).
        exists b, r. repeat split; try done; by apply lookup_app_l_Some.
    + apply ordered_snoc_begin; [done|].
      intros k1 Hk1. apply Hcp; [lia|].
      intros c' Hc'. rewrite Hcur in Hc'. simplify_eq. lia.
    + intros p k n' Hp.
      apply lookup_snoc_Some in Hp as [[_ Hp]|[-> Heq]].
      * destruct (Hbg p k n' Hp) as (d & e0 & hs & ? & Hd).
        exists d, e0, hs. split; [done|]. by apply lookup_app_l_Some.
      * simplify_eq.
        destruct (Hrc (Consumer.d_seq c) ltac:(lia)) as (d & e0 & hs & Hd).
        exists d, e0, hs. split; [by eapply lookup_lt_Some|].
        by apply lookup_app_l_Some.
  - (* a handler returns *)
    destruct HI as [HE Hev Hbd Hrc Hcp Hcu Hord Hbg].
    destruct (Hcu c Hcur) as [Hs Hok].
    constructor; simpl.
    + by rewrite enqueued_snoc, app_nil_r.
    + intros d k e0 hs Hd. rewrite enqueued_snoc, app_nil_r.
      apply lookup_snoc_Some in Hd as [[_ Hd]|[_ ?]]; [eauto|done].
    + intros p a Hp. apply lookup_snoc_Some in Hp as [[_ Hp]|[_ <-]]; [eauto|].
      simpl. lia.
    + intros k Hk. destruct (Hrc k Hk) as (d & e0 & hs & Hd).
      exists d, e0, hs. by apply lookup_app_l_Some.
    + intros k Hk Hc. specialize (Hc _ eq_refl). simpl in Hc.
      apply completed_snoc; [|done].
      apply Hcp; [done|]. intros c' Hc'. rewrite Hcur in Hc'. by simplify_eq.
    + intros c' Hc'. simplify_eq. simpl. split; [done|].
      intros d e0 hs Hd.
      apply lookup_snoc_Some in Hd as [[Hdl Hd]|[_ ?]]; [|done].
      destruct (Hok d e0 hs Hd) as (H1 & H2 & H3).
      split; [|split]; simpl.
      * intros n' Hn'. destruct (H1 n' Hn') as [?|Hsome]; [by left|right].
        destruct (decide (n' = n)) as [->|Hne];
          [rewrite lookup_insert_eq; eauto|by rewrite lookup_insert_ne].
      * intros n' Hn'. destruct (decide (n' = n)) as [->|Hne];
          [by rewrite lookup_insert_eq in Hn'|].
        rewrite lookup_insert_ne in Hn' by done.
        destruct (H2 n' Hn') as (b & ? & Hb).
        exists b. split; [done|]. by apply lookup_app_l_Some.
      * intros n' Hn'. destruct (decide (n' = n)) as [->|Hne].
        -- destruct (H2 n Hg) as (b & ? & Hb).
           exists b, (length (Consumer.trace st)). repeat split; try done.
           ++ by eapply lookup_lt_Some.
           ++ by apply lookup_app_l_Some.
           ++ by apply list_lookup_middle.
        -- rewrite lookup_insert_ne in Hn' by done.
           destruct (H3 n' Hn') as (b & r & ? & ? & Hb & Hr).
           exists b, r. repeat split; try done; by apply lookup_app_l_Some.
    + apply (ordered_snoc_other _ _ (Consumer.nextSeq st)); done.
    + intros p k n' Hp.
      apply lookup_snoc_Some in Hp as [[_ Hp]|[_ ?]]; [|done].
      destruct (Hbg p k n' Hp) as (d & e0 & hs & ? & Hd).
      exists d, e0, hs. split; [done|]. by apply lookup_app_l_Some.
  - (* all handlers returned *)
    destruct HI as [HE Hev Hbd Hrc Hcp Hcu Hord Hbg].
    destruct (Hcu c Hcur) as [Hs Hok].
    constructor; simpl; try done.
    intros k Hk _.
    destruct (decide (k = Consumer.d_seq c)) as [->|Hne].
    + intros d e0 hs Hd n Hn.
      destruct (Hok d e0 hs Hd) as (H1 & _ & H3).
      destruct (H1 n Hn) as [Hin|[g Hgn]].
      * rewrite Hsp in Hin. by apply elem_of_nil in Hin.
      * apply H3. by rewrite (Hdone n g Hgn) in Hgn.
    + apply Hcp; [done|]. intros c' Hc'. rewrite Hcur in Hc'. by simplify_eq.
Qed.

Lemma reachable_Inv (st : @Consumer.State H) : Consumer.reachable st → Consumer.Inv st.
Proof.
  unfold Consumer.reachable. intros Hr.
  eapply (rtc_ind_r (λ s, Consumer.Inv s)); [apply Inv_init| |exact Hr].
  intros y z _ Hstep HIy. by eapply step_preserves_Inv.
Qed.

End ConsumerFacts.

(** One transition from the current state, which is then normalised. *)
Ltac advance tac := eapply rtc_l; [tac|]; vm_compute.

Lemma busy_reachable : Consumer.reachable Ex.busy.
Proof.
  unfold Consumer.reachable. vm_compute.
  advance ltac:(apply (Consumer.step_subscribe _ "test" "users" Ex.handler)).
  advance ltac:(apply (Consumer.step_subscribe _ "shop" "orders" Ex.handler)).
  advance ltac:(eapply Consumer.step_start; reflexivity).
  advance ltac:(eapply (Consumer.step_send _ Ex.filler); reflexivity).
  advance ltac:(eapply (Consumer.step_send _ Ex.second); reflexivity).
  advance ltac:(eapply (Consumer.step_recv _ Ex.filler [Ex.second] [("db-1", Ex.handler)]);
                 [reflexivity|reflexivity|reflexivity|vm_compute; reflexivity]).
  advance ltac:(eapply Consumer.step_spawn; reflexivity).
  advance ltac:(eapply (Consumer.step_begin _ _ "db-1"); [reflexivity|reflexivity]).
  advance ltac:(eapply (Consumer.step_return _ _ "db-1"); [reflexivity|reflexivity]).
  advance ltac:(eapply Consumer.step_wait; [reflexivity|reflexivity|];
                 intros n g Hg;
                 change (({[ "db-1" := Consumer.Done ]} : gmap string Consumer.GState) !! n
                         = Some g) in Hg;
                 apply lookup_singleton_Some in Hg as [_ <-]; reflexivity).
  advance ltac:(eapply (Consumer.step_recv _ Ex.second [] [("db-1", Ex.handler)]);
                 [reflexivity|reflexivity|reflexivity|vm_compute; reflexivity]).
  advance ltac:(eapply Consumer.step_spawn; reflexivity).
  advance ltac:(eapply (Consumer.step_begin _ _ "db-1"); [reflexivity|reflexivity]).
  apply rtc_refl.
Qed.

(** C10. In every state the consumer of a sink can reach: if a handler
    is called for the event received as number [k2] (the [k2]-th event
    put on the channel), then for every earlier number [k1] the event
    put on the channel as number [k1] was received before, with some
    copy [hs] of its handler set, and every handler in [hs] was called
    for it and has returned, all before that call. Schema and table of
    the two events play no part: a handler that is slow to return holds
    back the events of every table behind it. *)
Theorem C10_one_event_at_a_time {H : Type} `{EventHandler H}
    (st : @Consumer.State H) :
  Consumer.reachable st →
  ∀ p k1 k2 n2 e1,
    Consumer.trace st !! p = Some (Consumer.Begin k2 n2) →
    k1 < k2 →
    Consumer.enqueued (Consumer.trace st) !! k1 = Some e1 →
    (∃ d2 e2 hs2,
       d2 < p
       ∧ Consumer.trace st !! d2 = Some (Consumer.Dequeue k2 e2 hs2)
       ∧ Consumer.enqueued (Consumer.trace st) !! k2 = Some e2)
    ∧ ∃ d hs,
        d < p
        ∧ Consumer.trace st !! d = Some (Consumer.Dequeue k1 e1 hs)
        ∧ ∀ n1, n1 ∈ dom hs →
            ∃ b r, d < b ∧ b < r ∧ r < p
                   ∧ Consumer.trace st !! b = Some (Consumer.Begin k1 n1)
                   ∧ Consumer.trace st !! r = Some (Consumer.Return k1 n1).
Proof.
  intros Hr p k1 k2 n2 e1 Hp Hk He1.
  destruct (reachable_Inv st Hr) as [HE Hev Hbd Hrc Hcp Hcu Hord Hbg].
  split.
  - destruct (Hbg p k2 n2 Hp) as (d2 & e2 & hs2 & Hlt & Hd2).
    exists d2, e2, hs2. eauto.
  - pose proof (Hbd p _ Hp) as Hk2. simpl in Hk2.
    destruct (Hrc k1 ltac:(lia)) as (d & e & hs & Hd).
    assert (e = e1) as -> by (specialize (Hev d k1 e hs Hd); congruence).
    destruct (Hord p k2 n2 Hp k1 Hk d e1 hs Hd) as [Hdp Hall].
    exists d, hs. eauto.
Qed.

Lemma C10_one_event_at_a_time_witness :
  ∃ d hs,
    d < 6
    ∧ Consumer.trace Ex.busy !! d = Some (Consumer.Dequeue 0 Ex.filler hs)
    ∧ ∀ n1, n1 ∈ dom hs →
        ∃ b r, d < b ∧ b < r ∧ r < 6
               ∧ Consumer.trace Ex.busy !! b = Some (Consumer.Begin 0 n1)
               ∧ Consumer.trace Ex.busy !! r = Some (Consumer.Return 0 n1).
Proof.
  destruct (C10_one_event_at_a_time Ex.busy busy_reachable 6 0 1 "db-1" Ex.filler)
    as [_ Hw]; [reflexivity | lia | reflexivity | exact Hw].
Defined.


(** * Further properties of the engine *)

(** ** Event sink *)

(** X1. Unsubscribing a handler right after subscribing it undoes the
    subscription: the sink is as before, provided the name was not
    registered under that key and the key did not hold an empty handler
    set. *)
Theorem X1_subscribe_unsubscribe_roundtrip {H : Type} `{EventHandler H}
    (s : Sink.DefaultEventSink H) (schema table : string) (h : H) :
  Sink.handlers s !! tableKeyOf schema table ≠ Some ∅ →
  Sink.handlersAt s (tableKeyOf schema table) !! GetName h = None →
  (Sink.Unsubscribe (Sink.Subscribe s schema table h).2 schema table (GetName h)).2 = s.
Proof.
  intros Hne Hfresh. destruct s as [hd ch st].
  unfold Sink.handlersAt, Sink.Unsubscribe, Sink.Subscribe in *. simpl in *.
  destruct (hd !! tableKeyOf schema table) as [hs|] eqn:Hk; simpl in *.
  - rewrite lookup_insert_eq, Hk. simpl.
    rewrite delete_insert_id by done.
    destruct (decide (size hs = 0)) as [Hz|Hz].
    { apply map_size_empty_iff in Hz. congruence. }
    simpl. by rewrite insert_insert_eq, insert_id.
  - rewrite !lookup_insert_eq. simpl.
    rewrite delete_insert_id by apply lookup_empty.
    rewrite decide_True by apply map_size_empty.
    simpl. by rewrite !delete_insert_eq, delete_id.
Qed.

Lemma X1_subscribe_unsubscribe_roundtrip_witness :
  (Sink.Unsubscribe (Sink.Subscribe Ex.emptySink "test" "users" Ex.handler).2
     "test" "users" (GetName Ex.handler)).2 = Ex.emptySink.
Proof.
  apply (X1_subscribe_unsubscribe_roundtrip Ex.emptySink "test" "users" Ex.handler).
  - vm_compute. discriminate.
  - reflexivity.
Defined.

Lemma reachable_ind_inv {H : Type} `{EventHandler H} (P : @Consumer.State H → Prop) :
  P (Consumer.init Sink.NewDefaultEventSink) →
  (∀ st st', P st → Consumer.step st st' → P st') →
  ∀ st, Consumer.reachable st → P st.
Proof.
  intros Hinit Hstep st Hr. unfold Consumer.reachable in Hr.
  eapply (rtc_ind_r P); [exact Hinit| |exact Hr]. eauto.
Qed.

(** X2. In every state the sink and its consumer can reach, the channel
    holds at most 1000 events and no key of the handler table is bound
    to an empty handler set. *)
Theorem X2_sink_bounded_and_no_empty_sets {H : Type} `{EventHandler H}
    (st : @Consumer.State H) :
  Consumer.reachable st →
  length (Sink.eventCh (Consumer.sink st)) ≤ Sink.eventChCap
  ∧ ∀ key hs, Sink.handlers (Consumer.sink st) !! key = Some hs → hs ≠ ∅.
Proof.
  revert st. apply reachable_ind_inv.
  - simpl. split; [unfold Sink.eventChCap; lia|]. intros key hs Hk.
    by rewrite lookup_empty in Hk.
  - intros st st' [Hlen Hne] Hstep.
    destruct Hstep as
      [ st e s' Hsend | st schema table h | st schema table n | st s' Hstart | st s' Hcur Hstop
      | st e q l Hcur Hstarted Hch Hperm | st c n h rest Hcur Hsp
      | st c n Hcur Hg | st c n Hcur Hg | st c Hcur Hsp Hdone ]; simpl; try done.
    + unfold Sink.SendEvent in Hsend.
      destruct (length (Sink.eventCh (Consumer.sink st)) <? Sink.eventChCap) eqn:Hroom;
        [|done].
      simplify_eq. simpl. apply Nat.ltb_lt in Hroom.
      split; [rewrite length_app; simpl; lia|done].
    + split; [done|]. intros key hs Hk.
      destruct (decide (key = tableKeyOf schema table)) as [->|Hkey].
      * rewrite lookup_insert_eq in Hk. simplify_eq. apply insert_non_empty.
      * rewrite lookup_insert_ne in Hk by done.
        destruct (Sink.handlers (Consumer.sink st) !! tableKeyOf schema table);
          [by eapply Hne|].
        rewrite lookup_insert_ne in Hk by done. by eapply Hne.
    + unfold Sink.Unsubscribe.
      destruct (Sink.handlers (Consumer.sink st) !! tableKeyOf schema table)
        as [hs0|] eqn:Hk0; simpl; [|done].
      split; [done|]. intros key hs Hk.
      destruct (decide (size (delete n hs0) = 0)) as [Hz|Hz].
      * apply lookup_delete_Some in Hk as [_ Hk]. by eapply Hne.
      * destruct (decide (key = tableKeyOf schema table)) as [->|Hkey].
        -- rewrite lookup_insert_eq in Hk. simplify_eq.
           by apply map_size_non_empty_iff.
        -- rewrite lookup_insert_ne in Hk by done. by eapply Hne.
    + unfold Sink.Start in Hstart. case_match; simplify_eq. done.
    + destruct (Sink_Stop_returned _ _ _ _ Hstop) as (_ & Hh & Hc & _). by rewrite Hh, Hc.
    + rewrite Hch in Hlen. simpl in Hlen. split; [lia|done].
Qed.

Lemma X2_sink_bounded_and_no_empty_sets_witness :
  length (Sink.eventCh (Consumer.sink Ex.busy)) ≤ Sink.eventChCap
  ∧ ∀ key hs, Sink.handlers (Consumer.sink Ex.busy) !! key = Some hs → hs ≠ ∅.
Proof. exact (X2_sink_bounded_and_no_empty_sets Ex.busy busy_reachable). Defined.

(** X3. Events leave the channel in the order they entered it, none is
    lost and none is received twice: the events sent so far are the
    events received so far, in the same order, followed by the content
    of the channel; the [k]-th event received carries the number [k]. *)
Theorem X3_sink_fifo {H : Type} `{EventHandler H} (st : @Consumer.State H) :
  Consumer.reachable st →
  Consumer.enqueued (Consumer.trace st)
  = (Consumer.dequeued (Consumer.trace st)).*2 ++ Sink.eventCh (Consumer.sink st)
  ∧ (Consumer.dequeued (Consumer.trace st)).*1 = seq 0 (Consumer.nextSeq st).
Proof.
  revert st. apply reachable_ind_inv; [done|].
  intros st st' [Hq Hn] Hstep.
  destruct Hstep as
    [ st e s' Hsend | st schema table h | st schema table n | st s' Hstart | st s' Hcur Hstop
    | st e q l Hcur Hstarted Hch Hperm | st c n h rest Hcur Hsp
    | st c n Hcur Hg | st c n Hcur Hg | st c Hcur Hsp Hdone ];
    cbn [Consumer.sink Consumer.nextSeq Consumer.trace Consumer.current snd
         Sink.Subscribe Sink.eventCh Consumer.set_eventCh]; try done.
  - apply SendEvent_ok in Hsend. rewrite Hsend, enqueued_snoc, Hq.
    unfold Consumer.dequeued in *. rewrite omap_app. simpl.
    rewrite app_nil_r. split; [by rewrite <- app_assoc|done].
  - by rewrite eventCh_Unsubscribe.
  - apply eventCh_Start in Hstart. by rewrite Hstart.
  - destruct (Sink_Stop_returned _ _ _ _ Hstop) as (_ & _ & Hc & _). by rewrite Hc.
  - rewrite enqueued_snoc, app_nil_r, Hq, Hch.
    unfold Consumer.dequeued in *. rewrite omap_app. simpl.
    rewrite !fmap_app. simpl. split; [by rewrite <- app_assoc|].
    rewrite Hn.
    change (0 :: seq 1 (Consumer.nextSeq st)) with (seq 0 (S (Consumer.nextSeq st))).
    by rewrite seq_S.
  - rewrite enqueued_snoc, app_nil_r. unfold Consumer.dequeued in *.
    rewrite omap_app. simpl. by rewrite app_nil_r.
  - rewrite enqueued_snoc, app_nil_r. unfold Consumer.dequeued in *.
    rewrite omap_app. simpl. by rewrite app_nil_r.
Qed.

Lemma X3_sink_fifo_witness :
  Consumer.enqueued (Consumer.trace Ex.busy)
  = (Consumer.dequeued (Consumer.trace Ex.busy)).*2 ++ Sink.eventCh (Consumer.sink Ex.busy)
  ∧ (Consumer.dequeued (Consumer.trace Ex.busy)).*1 = seq 0 (Consumer.nextSeq Ex.busy).
Proof. exact (X3_sink_fifo Ex.busy busy_reachable). Defined.

Lemma string_app_assoc (a b c : string) : (a +:+ b) +:+ c = a +:+ (b +:+ c).
Proof.
  induction a as [|x a IH]; [done|].
  change (String x ((a +:+ b) +:+ c) = String x (a +:+ b +:+ c)). by rewrite IH.
Qed.

(** X4. The key of the handler table joins schema and table with a dot,
    so it does not tell where the schema ends: a handler subscribed to
    schema [a.b], table [c] is also among the handlers of every event
    of schema [a], table [b.c]. *)
Theorem X4_sink_key_is_ambiguous {H : Type} `{EventHandler H}
    (s : Sink.DefaultEventSink H) (a b c : string) (h : H) (e : Event) :
  Schema e = a →
  Table e = b +:+ "." +:+ c →
  Sink.handlersFor (Sink.Subscribe s (a +:+ "." +:+ b) c h).2 e !! GetName h = Some h.
Proof.
  intros Hs Ht. unfold Sink.handlersFor. rewrite Hs, Ht.
  replace (tableKeyOf a (b +:+ "." +:+ c)) with (tableKeyOf (a +:+ "." +:+ b) c).
  - rewrite handlersAt_Subscribe. apply lookup_insert_eq.
  - unfold tableKeyOf. by rewrite !string_app_assoc.
Qed.

Lemma X4_sink_key_is_ambiguous_witness :
  Sink.handlersFor (Sink.Subscribe Ex.emptySink ("shop" +:+ "." +:+ "eu") "orders" Ex.handler).2
    Ex.dotted !! GetName Ex.handler = Some Ex.handler.
Proof.
  apply (X4_sink_key_is_ambiguous Ex.emptySink "shop" "eu" "orders" Ex.handler Ex.dotted);
    reflexivity.
Defined.

(** ** Meta store *)

Lemma SavePosition_cache m id pos :
  Meta.cache (Meta.SavePosition m id pos).2 = <[id := pos]> (Meta.cache m).
Proof. unfold Meta.SavePosition. by repeat case_match. Qed.

Lemma db_Create_other d row j :
  j ≠ Meta.InstanceID row →
  Meta.positions (Meta.db_Create d row).2 !! j = Meta.positions d !! j.
Proof.
  intros Hj. unfold Meta.db_Create. repeat case_match; simpl; try done.
  by rewrite lookup_insert_ne.
Qed.

Lemma db_Updates_other d id row j :
  j ≠ id → Meta.positions (Meta.db_Updates d id row).2 !! j = Meta.positions d !! j.
Proof.
  intros Hj. unfold Meta.db_Updates. case_match; simpl; [done|].
  by rewrite lookup_alter_ne.
Qed.

Lemma SavePosition_positions_other m id pos j :
  j ≠ id →
  Meta.positions (Meta.db (Meta.SavePosition m id pos).2) !! j
  = Meta.positions (Meta.db m) !! j.
Proof.
  intros Hj. unfold Meta.SavePosition.
  destruct (Meta.db_First (Meta.db m) id).
  - pose proof (db_Updates_other (Meta.db m) id
                  {| Meta.InstanceID := id; Meta.Filename := Name pos;
                     Meta.bp_Position := Pos pos; Meta.bp_GTIDSet := GTIDSet pos |} j Hj) as Hu.
    destruct (Meta.db_Updates _ _ _) as [[?|] ?]; exact Hu.
  - pose proof (db_Create_other (Meta.db m)
                  {| Meta.InstanceID := id; Meta.Filename := Name pos;
                     Meta.bp_Position := Pos pos; Meta.bp_GTIDSet := GTIDSet pos |} j Hj) as Hu.
    destruct (Meta.db_Create _ _) as [[?|] ?]; exact Hu.
  - pose proof (db_Updates_other (Meta.db m) id
                  {| Meta.InstanceID := id; Meta.Filename := Name pos;
                     Meta.bp_Position := Pos pos; Meta.bp_GTIDSet := GTIDSet pos |} j Hj) as Hu.
    destruct (Meta.db_Updates _ _ _) as [[?|] ?]; exact Hu.
Qed.

Lemma SavePosition_firstFault m id pos :
  Meta.firstFault (Meta.db (Meta.SavePosition m id pos).2) = Meta.firstFault (Meta.db m).
Proof.
  unfold Meta.SavePosition, Meta.db_Updates, Meta.db_Create.
  by repeat case_match; simplify_eq.
Qed.

(** X5. A position that was saved is the position loaded for that
    instance afterwards, whether the write to the storage succeeded or
    not. *)
Theorem X5_saved_position_is_loaded (m : Meta.DBMetaManager) (id : string) (pos : Position) :
  Meta.LoadPosition (Meta.SavePosition m id pos).2 id = Meta.LoadOk pos.
Proof. unfold Meta.LoadPosition. by rewrite SavePosition_cache, lookup_insert_eq. Qed.

(** X6. Saving the position of one instance does not change what is
    loaded for any other instance. *)
Theorem X6_save_leaves_other_instances (m : Meta.DBMetaManager) (id j : string) (pos : Position) :
  j ≠ id →
  Meta.LoadPosition (Meta.SavePosition m id pos).2 j = Meta.LoadPosition m j.
Proof.
  intros Hj. unfold Meta.LoadPosition.
  rewrite SavePosition_cache, lookup_insert_ne by done.
  unfold Meta.db_First.
  by rewrite SavePosition_firstFault, SavePosition_positions_other.
Qed.

Lemma X6_save_leaves_other_instances_witness :
  Meta.LoadPosition (Meta.SavePosition Ex.metaWithTask1 "task-2" Ex.newerPos).2 "task-1"
  = Meta.LoadPosition Ex.metaWithTask1 "task-1".
Proof.
  apply (X6_save_leaves_other_instances Ex.metaWithTask1 "task-2" "task-1" Ex.newerPos).
  discriminate.
Defined.

Lemma SavePosition_consistent m id pos :
  Meta.consistent m → Meta.consistent (Meta.SavePosition m id pos).2.
Proof.
  intros Hc k Hk. rewrite SavePosition_cache.
  destruct (decide (k = id)) as [->|Hne]; [by rewrite lookup_insert_eq|].
  rewrite lookup_insert_ne by done. apply Hc.
  by rewrite <- (SavePosition_positions_other m id pos k).
Qed.

Lemma consistent_not_blocked m id :
  Meta.consistent m → Meta.LoadPosition m id ≠ Meta.LoadBlocked.
Proof.
  intros Hc. unfold Meta.LoadPosition, Meta.db_First.
  destruct (Meta.cache m !! id) eqn:Hcache; [done|].
  destruct (Meta.firstFault (Meta.db m)); [done|].
  destruct (Meta.positions (Meta.db m) !! id) eqn:Hrow; [|done].
  destruct (Hc id) as [? ?]; [by eexists|congruence].
Qed.

(** X7. If every stored row has a cache entry, this stays so after any
    sequence of saves, and then no load runs into the call that never
    returns. *)
Theorem X7_consistent_store_never_blocks
    (m : Meta.DBMetaManager) (saves : list (string * Position)) :
  Meta.consistent m →
  Meta.consistent (Meta.saveAll m saves)
  ∧ ∀ id, Meta.LoadPosition (Meta.saveAll m saves) id ≠ Meta.LoadBlocked.
Proof.
  intros Hc.
  assert (Meta.consistent (Meta.saveAll m saves)) as Hc'.
  { unfold Meta.saveAll. apply (foldl_preserves Meta.consistent); [|done].
    intros a [k p] Ha. by apply SavePosition_consistent. }
  split; [done|]. intros id. by apply consistent_not_blocked.
Qed.

Lemma metaWithTask1_consistent : Meta.consistent Ex.metaWithTask1.
Proof.
  intros k [r Hk]. unfold Ex.metaWithTask1, Ex.noFaults in *.
  cbn [Meta.positions Meta.db Meta.cache] in *.
  apply lookup_singleton_Some in Hk as [<- _].
  by rewrite lookup_singleton_eq.
Qed.

Lemma X7_consistent_store_never_blocks_witness :
  Meta.consistent (Meta.saveAll Ex.metaWithTask1 [("task-2", Ex.newerPos)])
  ∧ ∀ id, Meta.LoadPosition (Meta.saveAll Ex.metaWithTask1 [("task-2", Ex.newerPos)]) id
          ≠ Meta.LoadBlocked.
Proof.
  exact (X7_consistent_store_never_blocks Ex.metaWithTask1 [("task-2", Ex.newerPos)]
           metaWithTask1_consistent).
Defined.

Lemma foldl_insert_rows (l : list (string * Meta.BinlogPosition)) :
  ∀ (c : gmap string Position) k,
  NoDup l.*1 →
  (∀ i r, (i, r) ∈ l → Meta.InstanceID r = i) →
  foldl (λ c r, <[Meta.InstanceID r := Meta.toPosition r]> c) c l.*2 !! k
  = match (list_to_map l : gmap string Meta.BinlogPosition) !! k with
    | Some r => Some (Meta.toPosition r)
    | None => c !! k
    end.
Proof.
  induction l as [|[k0 r0] l IH]; intros c k Hnd Hwf; [done|].
  simpl in *. apply NoDup_cons in Hnd as [Hk0 Hnd].
  rewrite IH by (done || (intros; apply Hwf; by right)).
  rewrite (Hwf k0 r0) by left.
  destruct (decide (k = k0)) as [->|Hne].
  - rewrite lookup_insert_eq, not_elem_of_list_to_map_1 by done.
    by rewrite lookup_insert_eq.
  - rewrite !(lookup_insert_ne _ k0) by done. done.
Qed.

Lemma loadCache_cache m tablesFault k :
  Meta.wf_db (Meta.db m) →
  Meta.cache (Meta.loadCache m None tablesFault).2 !! k
  = match Meta.positions (Meta.db m) !! k with
    | Some r => Some (Meta.toPosition r)
    | None => Meta.cache m !! k
    end.
Proof.
  intros Hwf. unfold Meta.loadCache.
  assert (Meta.cache
            {| Meta.db := Meta.db m;
               Meta.cache :=
                 foldl (λ c r, <[Meta.InstanceID r := Meta.toPosition r]> c) (Meta.cache m)
                   (map_to_list (Meta.positions (Meta.db m))).*2 |} !! k
          = match Meta.positions (Meta.db m) !! k with
            | Some r => Some (Meta.toPosition r)
            | None => Meta.cache m !! k
            end) as Hgoal.
  { simpl. rewrite foldl_insert_rows.
    - by rewrite list_to_map_to_list.
    - apply NoDup_fst_map_to_list.
    - intros i r Hir. apply elem_of_map_to_list in Hir. by apply Hwf. }
  by destruct tablesFault.
Qed.

(** X8. When the rows of the storage are stored under their own
    instance ids, a meta manager that was created without error has
    exactly the stored positions in its cache; every stored row then has
    a cache entry. *)
Theorem X8_new_manager_caches_every_row
    (d : Meta.DB) (migrateFault findFault tablesFault : error) (m : Meta.DBMetaManager) :
  Meta.wf_db d →
  Meta.NewDBMetaManager d migrateFault findFault tablesFault = (None, Some m) →
  Meta.db m = d
  ∧ Meta.cache m = Meta.toPosition <$> Meta.positions d
  ∧ Meta.consistent m.
Proof.
  intros Hwf Hnew. unfold Meta.NewDBMetaManager in Hnew.
  destruct migrateFault; [done|].
  destruct findFault; [done|].
  pose proof (λ k, loadCache_cache {| Meta.db := d; Meta.cache := ∅ |} tablesFault k Hwf)
    as Hcache.
  assert (Meta.db (Meta.loadCache {| Meta.db := d; Meta.cache := ∅ |} None tablesFault).2 = d)
    as Hdb by (unfold Meta.loadCache; by destruct tablesFault).
  destruct (Meta.loadCache _ _ _) as [[?|] m0]; simplify_eq. simpl in *.
  assert (Meta.cache m = Meta.toPosition <$> Meta.positions (Meta.db m)) as Heq.
  { apply map_eq. intros k. rewrite Hcache, lookup_fmap.
    by destruct (Meta.positions (Meta.db m) !! k). }
  split_and!; [done|done|].
  intros k [r Hk]. rewrite Heq, lookup_fmap, Hk. by eexists.
Qed.

Lemma task1_rows_wf : Meta.wf_db (Ex.noFaults {[ "task-1" := Ex.savedRow "task-1" ]}).
Proof.
  intros k r Hk. unfold Ex.noFaults in Hk. cbn [Meta.positions] in Hk.
  by apply lookup_singleton_Some in Hk as [<- <-].
Qed.

Lemma X8_new_manager_caches_every_row_witness :
  Meta.db Ex.metaWithTask1 = Ex.noFaults {[ "task-1" := Ex.savedRow "task-1" ]}
  ∧ Meta.cache Ex.metaWithTask1
    = Meta.toPosition <$> Meta.positions (Ex.noFaults {[ "task-1" := Ex.savedRow "task-1" ]})
  ∧ Meta.consistent Ex.metaWithTask1.
Proof.
  apply (X8_new_manager_caches_every_row
           (Ex.noFaults {[ "task-1" := Ex.savedRow "task-1" ]}) None None None
           Ex.metaWithTask1 task1_rows_wf).
  vm_compute. reflexivity.
Defined.

(** X9. With a storage that answers queries: after a successful delete
    the instance loads the default position (empty file name, offset
    4); after a delete that failed while the row exists, the cache
    entry is gone but the row is not, and the next load for that
    instance never returns. *)
Theorem X9_load_after_delete (m : Meta.DBMetaManager) (id : string) :
  Meta.firstFault (Meta.db m) = None →
  Meta.LoadPosition (Meta.DeletePosition m id None).2 id
  = Meta.LoadOk {| Name := ""; Pos := 4; GTIDSet := "" |}
  ∧ ∀ e, is_Some (Meta.positions (Meta.db m) !! id) →
         Meta.LoadPosition (Meta.DeletePosition m id (Some e)).2 id = Meta.LoadBlocked.
Proof.
  intros Hf. unfold Meta.LoadPosition, Meta.DeletePosition, Meta.db_First. simpl.
  rewrite !lookup_delete_eq, Hf. split; [done|].
  by intros e [r ->].
Qed.

Lemma X9_load_after_delete_witness :
  Meta.LoadPosition (Meta.DeletePosition Ex.metaWithTask1 "task-1" None).2 "task-1"
  = Meta.LoadOk {| Name := ""; Pos := 4; GTIDSet := "" |}
  ∧ ∀ e, is_Some (Meta.positions (Meta.db Ex.metaWithTask1) !! "task-1") →
         Meta.LoadPosition (Meta.DeletePosition Ex.metaWithTask1 "task-1" (Some e)).2 "task-1"
         = Meta.LoadBlocked.
Proof. apply (X9_load_after_delete Ex.metaWithTask1 "task-1"). reflexivity. Defined.

(** X10. Cleanup deletes expired rows from the storage but no entry
    from the cache: an instance whose row expired has no row afterwards
    and still loads the position it had in the cache. *)
Theorem X10_cleanup_keeps_cached_position
    (m : Meta.DBMetaManager) (expired : string → bool)
    (tablesDeleteFault findFault tablesFault : error) (id : string) (p : Position) :
  Meta.wf_db (Meta.db m) →
  Meta.cache m !! id = Some p →
  expired id = true →
  let r := (Meta.Cleanup m expired None tablesDeleteFault findFault tablesFault).2 in
  Meta.positions (Meta.db r) !! id = None
  ∧ Meta.LoadPosition r id = Meta.LoadOk p.
Proof.
  intros Hwf Hc He. cbv zeta. unfold Meta.Cleanup.
  set (m' := {| Meta.db := Meta.set_positions (Meta.db m)
                             (filter (λ kr, expired kr.1 = false) (Meta.positions (Meta.db m)));
                Meta.cache := Meta.cache m |}).
  assert (Meta.positions (Meta.db m') !! id = None) as Hgone.
  { simpl. apply map_lookup_filter_None. right. intros r _. simpl. congruence. }
  assert (Meta.wf_db (Meta.db m')) as Hwf'.
  { intros k r Hk. simpl in Hk. apply map_lookup_filter_Some in Hk as [Hk _]. by apply Hwf. }
  destruct tablesDeleteFault as [e|].
  { simpl. split; [exact Hgone|]. unfold Meta.LoadPosition. simpl. by rewrite Hc. }
  destruct findFault as [e|].
  { simpl. split; [exact Hgone|]. unfold Meta.LoadPosition. simpl. by rewrite Hc. }
  pose proof (loadCache_cache m' tablesFault id Hwf') as Hcache.
  rewrite Hgone in Hcache.
  assert (Meta.db (Meta.loadCache m' None tablesFault).2 = Meta.db m') as Hdb
    by (unfold Meta.loadCache; by destruct tablesFault).
  split; [by rewrite Hdb|].
  unfold Meta.LoadPosition. rewrite Hcache. simpl. by rewrite Hc.
Qed.

Lemma X10_cleanup_keeps_cached_position_witness :
  Meta.positions (Meta.db (Meta.Cleanup Ex.metaWithTask1 (λ _, true) None None None None).2)
    !! "task-1" = None
  ∧ Meta.LoadPosition (Meta.Cleanup Ex.metaWithTask1 (λ _, true) None None None None).2 "task-1"
    = Meta.LoadOk Ex.savedPos.
Proof.
  apply (X10_cleanup_keeps_cached_position Ex.metaWithTask1 (λ _, true) None None None
           "task-1" Ex.savedPos task1_rows_wf); reflexivity.
Defined.

(** ** Binlog slave *)

(** X11. A row is converted column by column of the table schema: the
    result has one column per schema column, whatever the length of
    the row; a column beyond the end of the row is null; a column is
    null exactly when it has no value; no column is marked updated. *)
Theorem X11_row_data_follows_schema (ts : Slave.TableSchema) (row : list (option Value)) :
  length (Columns (Slave.convertRowToRowData ts row)) = length (Slave.ts_Columns ts)
  ∧ ∀ i c, Columns (Slave.convertRowToRowData ts row) !! i = Some c →
      (∃ ci, Slave.ts_Columns ts !! i = Some ci
             ∧ col_Name c = Slave.ci_Name ci ∧ col_Type c = Slave.ci_Type ci)
      ∧ col_Value c = default None (row !! i)
      ∧ col_IsNull c = bool_decide (col_Value c = None)
      ∧ col_Updated c = false.
Proof.
  unfold Slave.convertRowToRowData. simpl. split; [by rewrite length_imap|].
  intros i c Hc. rewrite list_lookup_imap in Hc.
  destruct (Slave.ts_Columns ts !! i) as [ci|] eqn:Hci; [|done].
  simpl in Hc. destruct (row !! i) as [v|]; simplify_eq; simpl; eauto 10.
Qed.

Lemma createCanalEvent_fields m header ts et row i allRows :
  let e := Slave.createCanalEvent m header ts et row i allRows in
  ID e = "mysql-binlog-" +:+ pretty (replication.LogPos header) +:+ "-"
         +:+ pretty (replication.h_Timestamp header) +:+ "-" +:+ pretty i
  ∧ Schema e = Slave.ts_Schema ts
  ∧ Table e = Slave.ts_Table ts
  ∧ ev_EventType e = et.
Proof. unfold Slave.createCanalEvent. simpl. by repeat case_match. Qed.

Lemma rowsEventType_cases header et :
  Slave.rowsEventType header = Some et →
  et = EventTypeInsert ∨ et = EventTypeUpdate ∨ et = EventTypeDelete.
Proof. unfold Slave.rowsEventType. intros Hty. repeat case_decide; simplify_eq; auto. Qed.

(** X12. With room in the channel, a rows event of an INSERT or a
    DELETE on a watched table (the watch list holds the table, or is
    empty and so watches every table) puts one event per row on the
    channel, in row order: for an INSERT the row is the after image and
    there is no before image, for a DELETE the row is the before image
    and there is no after image. *)
Theorem X12_insert_and_delete_images {H : Type} `{EventHandler H}
    (m : Slave.MySQLBinlogSlave) (sink : Sink.DefaultEventSink H)
    (header : replication.EventHeader) (e : replication.RowsEvent) (et : EventType) :
  Slave.rowsEventType header = Some et →
  et ≠ EventTypeUpdate →
  Slave.watchTables m = ∅
  ∨ Slave.watchTables m !! tableKeyOf (replication.tm_Schema (replication.r_Table e))
                            (replication.tm_Table (replication.r_Table e)) = Some true →
  Slave.eventTypes m !! et = Some true →
  length (Sink.eventCh sink) + length (replication.Rows e) ≤ Sink.eventChCap →
  let r := Slave.handleRowsEvent m sink header e in
  let ts := (Slave.getTableSchema m (replication.tm_Schema (replication.r_Table e))
               (replication.tm_Table (replication.r_Table e)) (replication.r_Table e)).1 in
  r.1.1 = None
  ∧ length (Sink.eventCh r.2) = length (Sink.eventCh sink) + length (replication.Rows e)
  ∧ ∀ j row, replication.Rows e !! j = Some row →
      ∃ ev, Sink.eventCh r.2 !! (length (Sink.eventCh sink) + j) = Some ev
            ∧ ev_EventType ev = et
            ∧ (BeforeData ev, AfterData ev)
              = if decide (et = EventTypeInsert)
                then (None, Some (Slave.convertRowToRowData ts row))
                else (Some (Slave.convertRowToRowData ts row), None).
Proof.
  intros Hty Hnu Hw Het Hroom r ts. subst r ts. unfold Slave.handleRowsEvent. cbv zeta.
  rewrite (watch_filter_passes _ _ Hw), Hty, Het. simpl.
  destruct (Slave.getTableSchema m _ _ _) as [ts m1].
  destruct (sendRows_all header ts et (replication.Rows e)
              (replication.Rows e) 0 m1 sink Hroom) as [Herr Hch].
  split; [exact Herr|]. rewrite Hch. split.
  - by rewrite length_app, length_imap.
  - intros j row Hj.
    exists (Slave.createCanalEvent m1 header ts et row j (replication.Rows e)).
    split.
    { rewrite lookup_app_r by lia.
      replace (length (Sink.eventCh sink) + j - length (Sink.eventCh sink)) with j by lia.
      by rewrite list_lookup_imap, Hj. }
    split; [apply createCanalEvent_fields|].
    apply rowsEventType_cases in Hty as [-> | [-> | ->]]; [|done|];
      unfold Slave.createCanalEvent; simpl; by repeat (case_decide; try discriminate).
Qed.

Lemma X12_insert_and_delete_images_witness :
  (Slave.handleRowsEvent (Slave.AddWatchTable Ex.slave "test" "users") Ex.emptySink
     (Ex.header replication.DELETE_ROWS_EVENTv2 700) Ex.deleteRows).1.1 = None
  ∧ length (Sink.eventCh
              (Slave.handleRowsEvent (Slave.AddWatchTable Ex.slave "test" "users") Ex.emptySink
                 (Ex.header replication.DELETE_ROWS_EVENTv2 700) Ex.deleteRows).2)
    = 1.
Proof.
  pose proof (X12_insert_and_delete_images (Slave.AddWatchTable Ex.slave "test" "users")
                Ex.emptySink (Ex.header replication.DELETE_ROWS_EVENTv2 700) Ex.deleteRows
                EventTypeDelete) as Hx.
  destruct Hx as (Herr & Hlen & _);
    [reflexivity|discriminate|right; reflexivity|reflexivity|vm_compute; lia|].
  split; [exact Herr|exact Hlen].
Defined.

(** X13. The schema of a table is fixed by the first table map the
    slave sees for it: a later table map for the same table, whatever
    its columns, yields the schema built from the first one, and rows
    keep being converted to the number of columns of the first one. *)
Theorem X13_table_schema_is_fixed_by_first_event
    (m : Slave.MySQLBinlogSlave) (schema table : string)
    (info1 info2 : replication.TableMapEvent) :
  let r1 := Slave.getTableSchema m schema table info1 in
  Slave.getTableSchema r1.2 schema table info2 = r1
  ∧ (Slave.tableSchemas m !! tableKeyOf schema table = None →
     ∀ row, length (Columns (Slave.convertRowToRowData
                               (Slave.getTableSchema r1.2 schema table info2).1 row))
            = length (replication.ColumnType info1)).
Proof.
  cbv zeta.
  assert (Slave.getTableSchema (Slave.getTableSchema m schema table info1).2 schema table info2
          = Slave.getTableSchema m schema table info1) as Heq.
  { unfold Slave.getTableSchema.
    destruct (Slave.tableSchemas m !! tableKeyOf schema table) eqn:Hk; simpl.
    - by rewrite Hk.
    - by rewrite lookup_insert_eq. }
  split; [exact Heq|]. intros Hnone row. rewrite Heq.
  unfold Slave.getTableSchema. rewrite Hnone.
  unfold Slave.convertRowToRowData. simpl. by rewrite !length_imap.
Qed.

Lemma handleRowsEvent_unwatched {H : Type} `{EventHandler H}
    (m : Slave.MySQLBinlogSlave) (sink : Sink.DefaultEventSink H)
    (header : replication.EventHeader) (e : replication.RowsEvent) :
  Slave.watchTables m ≠ ∅ →
  Slave.watchTables m !! tableKeyOf (replication.tm_Schema (replication.r_Table e))
                          (replication.tm_Table (replication.r_Table e)) ≠ Some true →
  Slave.handleRowsEvent m sink header e = (None, m, sink).
Proof.
  intros Hne Hk. unfold Slave.handleRowsEvent.
  apply map_size_non_empty_iff in Hne.
  assert ((0 <? size (Slave.watchTables m)) = true) as -> by (apply Nat.ltb_lt; lia).
  by destruct (Slave.watchTables m !! _) as [[]|].
Qed.

(** X14. When the watch list is not empty, a rows event of a table
    that is not on it is skipped: nothing is sent and the slave is
    unchanged. *)
Theorem X14_unwatched_table_is_skipped {H : Type} `{EventHandler H}
    (m : Slave.MySQLBinlogSlave) (sink : Sink.DefaultEventSink H)
    (header : replication.EventHeader) (e : replication.RowsEvent) :
  Slave.watchTables m ≠ ∅ →
  Slave.watchTables m !! tableKeyOf (replication.tm_Schema (replication.r_Table e))
                          (replication.tm_Table (replication.r_Table e)) ≠ Some true →
  Slave.handleRowsEvent m sink header e = (None, m, sink).
Proof. apply handleRowsEvent_unwatched. Qed.

Lemma X14_unwatched_table_is_skipped_witness :
  Slave.handleRowsEvent (Slave.AddWatchTable Ex.slave "shop" "orders") Ex.emptySink
    (Ex.header replication.WRITE_ROWS_EVENTv2 500) Ex.insertRows
  = (None, Slave.AddWatchTable Ex.slave "shop" "orders", Ex.emptySink).
Proof.
  apply (X14_unwatched_table_is_skipped (Slave.AddWatchTable Ex.slave "shop" "orders")
           Ex.emptySink (Ex.header replication.WRITE_ROWS_EVENTv2 500) Ex.insertRows).
  - unfold Slave.AddWatchTable. cbn [Slave.watchTables Slave.set_watchTables].
    apply insert_non_empty.
  - vm_compute. discriminate.
Defined.

(** X15. An empty watch list means that every table is watched. So
    adding a table to an empty list makes the slave skip the events of
    every other table, and removing it again gives back the slave that
    handles them all. *)
Theorem X15_removing_last_watch_table_watches_all {H : Type} `{EventHandler H}
    (m : Slave.MySQLBinlogSlave) (schema table : string) (sink : Sink.DefaultEventSink H)
    (header : replication.EventHeader) (e : replication.RowsEvent) :
  Slave.watchTables m = ∅ →
  tableKeyOf (replication.tm_Schema (replication.r_Table e))
             (replication.tm_Table (replication.r_Table e)) ≠ tableKeyOf schema table →
  Slave.handleRowsEvent (Slave.AddWatchTable m schema table) sink header e
  = (None, Slave.AddWatchTable m schema table, sink)
  ∧ Slave.RemoveWatchTable (Slave.AddWatchTable m schema table) schema table = m.
Proof.
  intros Hw Hk. split.
  - apply handleRowsEvent_unwatched; unfold Slave.AddWatchTable; simpl.
    + apply insert_non_empty.
    + by rewrite lookup_insert_ne, Hw, lookup_empty.
  - destruct m. unfold Slave.RemoveWatchTable, Slave.AddWatchTable, Slave.set_watchTables.
    simpl in *. subst. f_equal. by rewrite delete_insert_eq, delete_empty.
Qed.

Lemma X15_removing_last_watch_table_watches_all_witness :
  Slave.handleRowsEvent (Slave.AddWatchTable Ex.slave "shop" "orders") Ex.emptySink
    (Ex.header replication.WRITE_ROWS_EVENTv2 500) Ex.insertRows
  = (None, Slave.AddWatchTable Ex.slave "shop" "orders", Ex.emptySink)
  ∧ Slave.RemoveWatchTable (Slave.AddWatchTable Ex.slave "shop" "orders") "shop" "orders"
    = Ex.slave.
Proof.
  apply (X15_removing_last_watch_table_watches_all Ex.slave "shop" "orders" Ex.emptySink
           (Ex.header replication.WRITE_ROWS_EVENTv2 500) Ex.insertRows).
  - reflexivity.
  - vm_compute. discriminate.
Defined.

Lemma configure_eventTypes_unknown slave cfg :
  (∀ et, et ∈ Cfg.WatchEventTypes (Cfg.Canal cfg) →
         et ≠ "INSERT" ∧ et ≠ "UPDATE" ∧ et ≠ "DELETE") →
  Slave.eventTypes (Instance.configureBinlogSlaveFromConfig slave cfg) = ∅.
Proof.
  intros Hets. unfold Instance.configureBinlogSlaveFromConfig.
  assert (foldl (λ acc et,
                  if decide (et = "INSERT") then acc ++ [EventTypeInsert]
                  else if decide (et = "UPDATE") then acc ++ [EventTypeUpdate]
                  else if decide (et = "DELETE") then acc ++ [EventTypeDelete]
                  else acc)
                [] (Cfg.WatchEventTypes (Cfg.Canal cfg)) = []) as ->.
  { induction (Cfg.WatchEventTypes (Cfg.Canal cfg)) as [|et l IH]; [done|].
    simpl. destruct (Hets et) as (? & ? & ?); [left|].
    rewrite !decide_False by done. apply IH. intros et' Het'. apply Hets. by right. }
  apply (foldl_preserves (λ s, Slave.eventTypes s = ∅)); [|done].
  intros a db Ha. apply (foldl_preserves (λ s, Slave.eventTypes s = ∅)); [|done].
  by intros a' table Ha'.
Qed.

(** X16. The configured event types are matched against the three
    upper-case names only. When none of them matches, the slave is set
    to no event type at all and skips every rows event. *)
Theorem X16_unknown_event_type_names_stop_delivery {H : Type} `{EventHandler H}
    (slave : Slave.MySQLBinlogSlave) (cfg : Cfg.Config) (sink : Sink.DefaultEventSink H)
    (header : replication.EventHeader) (e : replication.RowsEvent) :
  (∀ et, et ∈ Cfg.WatchEventTypes (Cfg.Canal cfg) →
         et ≠ "INSERT" ∧ et ≠ "UPDATE" ∧ et ≠ "DELETE") →
  let m := Instance.configureBinlogSlaveFromConfig slave cfg in
  Slave.handleRowsEvent m sink header e = (None, m, sink).
Proof.
  intros Hets m. pose proof (configure_eventTypes_unknown slave cfg Hets) as Hnone.
  fold m in Hnone. clearbody m. unfold Slave.handleRowsEvent.
  case_match; [done|]. case_match; [|done].
  by rewrite Hnone, lookup_empty.
Qed.

Lemma lowerCfg_unknown et :
  et ∈ Cfg.WatchEventTypes (Cfg.Canal Ex.lowerCfg) →
  et ≠ "INSERT" ∧ et ≠ "UPDATE" ∧ et ≠ "DELETE".
Proof.
  unfold Ex.lowerCfg. simpl. intros Het.
  repeat (apply elem_of_cons in Het as [->|Het]; [done|]).
  by apply elem_of_nil in Het.
Qed.

Lemma X16_unknown_event_type_names_stop_delivery_witness :
  Slave.handleRowsEvent (Instance.configureBinlogSlaveFromConfig Ex.slave Ex.lowerCfg)
    Ex.emptySink (Ex.header replication.WRITE_ROWS_EVENTv2 500) Ex.insertRows
  = (None, Instance.configureBinlogSlaveFromConfig Ex.slave Ex.lowerCfg, Ex.emptySink).
Proof.
  exact (X16_unknown_event_type_names_stop_delivery Ex.slave Ex.lowerCfg Ex.emptySink
           (Ex.header replication.WRITE_ROWS_EVENTv2 500) Ex.insertRows lowerCfg_unknown).
Defined.

(** X17. With room in the channel, the events sent for the rows of one
    rows event have pairwise different ids. *)
Theorem X17_event_ids_distinct_within_rows_event {H : Type} `{EventHandler H}
    (header : replication.EventHeader) (ts : Slave.TableSchema) (et : EventType)
    (allRows rows : list (list (option Value)))
    (m : Slave.MySQLBinlogSlave) (sink : Sink.DefaultEventSink H) :
  length (Sink.eventCh sink) + length rows ≤ Sink.eventChCap →
  NoDup (ID <$> drop (length (Sink.eventCh sink))
                  (Sink.eventCh (Slave.sendRows header ts et allRows 0 rows m sink).2)).
Proof.
  intros Hroom.
  destruct (sendRows_all header ts et allRows rows 0 m sink Hroom) as [_ ->].
  rewrite drop_app_length. apply NoDup_alt. intros i j x.
  rewrite !list_lookup_fmap, !list_lookup_imap.
  destruct (rows !! i) as [ri|]; [|done]. destruct (rows !! j) as [rj|]; [|done].
  simpl. intros [= <-] [= Heq].
  destruct (createCanalEvent_fields m header ts et ri i allRows) as [Hi _].
  destruct (createCanalEvent_fields m header ts et rj j allRows) as [Hj _].
  simpl in Hi, Hj. rewrite Hi, Hj in Heq.
  repeat (apply (inj (String.app _)) in Heq).
  symmetry. by apply (inj pretty).
Qed.

Lemma X17_event_ids_distinct_within_rows_event_witness :
  NoDup (ID <$> drop (length (Sink.eventCh Ex.emptySink))
                  (Sink.eventCh
                     (Slave.sendRows (Ex.header replication.UPDATE_ROWS_EVENTv2 500)
                        (Slave.getTableSchema Ex.slave "test" "users" Ex.users).1
                        EventTypeUpdate (replication.Rows Ex.updateRows) 0
                        (replication.Rows Ex.updateRows) Ex.slave Ex.emptySink).2)).
Proof.
  apply (X17_event_ids_distinct_within_rows_event
           (Ex.header replication.UPDATE_ROWS_EVENTv2 500)
           (Slave.getTableSchema Ex.slave "test" "users" Ex.users).1
           EventTypeUpdate (replication.Rows Ex.updateRows) (replication.Rows Ex.updateRows)
           Ex.slave Ex.emptySink).
  vm_compute. lia.
Defined.

Lemma handleReconnect_small m :
  (0 ≤ Slave.reconnectCount m < Slave.maxReconnectCount)%Z →
  Slave.handleReconnect m = Slave.set_reconnectCount m 0.
Proof.
  intros Hc. unfold Slave.handleReconnect, Slave.maxReconnectCount in *. simpl.
  rewrite wrap64_small by (unfold int64_range; lia).
  assert ((Slave.reconnectCount m + 1 >? 10)%Z = false) as -> by lia.
  by destruct m.
Qed.

(** X18. The count of reconnects is reset by every reconnect that
    finds it below the maximum, so from there on it is zero after each
    reconnect and never reaches the maximum; reconnecting never stops
    the slave. *)
Theorem X18_reconnect_count_never_reaches_maximum (m : Slave.MySQLBinlogSlave) (n : nat) :
  (0 ≤ Slave.reconnectCount m < Slave.maxReconnectCount)%Z →
  Nat.iter (S n) Slave.handleReconnect m = Slave.set_reconnectCount m 0.
Proof.
  intros Hc. induction n as [|n IH].
  - simpl. by apply handleReconnect_small.
  - change (Nat.iter (S (S n)) Slave.handleReconnect m)
      with (Slave.handleReconnect (Nat.iter (S n) Slave.handleReconnect m)).
    rewrite IH, handleReconnect_small; [done|].
    simpl. unfold Slave.maxReconnectCount. lia.
Qed.

Lemma X18_reconnect_count_never_reaches_maximum_witness :
  Nat.iter 12 Slave.handleReconnect Ex.slave = Slave.set_reconnectCount Ex.slave 0.
Proof.
  apply (X18_reconnect_count_never_reaches_maximum Ex.slave 11).
  vm_compute. split; [discriminate|reflexivity].
Defined.

Lemma pumpStep_after_name {H : Type} `{EventHandler H} m (sink : Sink.DefaultEventSink H) ev :
  Slave.binlogPos (Slave.p_slave (Slave.pumpStep m sink ev))
  = match Slave.rotation ev with
    | Some r => {| mysql.Name := replication.NextLogName r;
                   mysql.Pos := to_uint32 (replication.r_Position r) |}
    | None => {| mysql.Name := mysql.Name (Slave.binlogPos m);
                 mysql.Pos := replication.LogPos (replication.Header ev) |}
    end.
Proof.
  rewrite pumpStep_binlogPos. unfold Slave.updatePosition, Slave.rotation.
  by repeat case_match.
Qed.

(** X19. After a run of the stream loop the slave is in the file named
    by the last rotation of the run, or in the file it started in when
    there was none; its offset is the one given by the last event: the
    target of the rotation, or the end of the event. *)
Theorem X19_stream_position_after_run {H : Type} `{EventHandler H}
    (m : Slave.MySQLBinlogSlave) (sink : Sink.DefaultEventSink H)
    (evs : list replication.BinlogEvent) :
  let after := Slave.binlogPos (Slave.pump m sink evs).1.1 in
  mysql.Name after = default (mysql.Name (Slave.binlogPos m)) (Slave.lastRotation evs)
  ∧ mysql.Pos after
    = match last evs with
      | None => mysql.Pos (Slave.binlogPos m)
      | Some ev => match Slave.rotation ev with
                   | Some r => to_uint32 (replication.r_Position r)
                   | None => replication.LogPos (replication.Header ev)
                   end
      end.
Proof.
  cbv zeta. revert m sink. induction evs as [|ev rest IH]; intros m sink; [done|].
  simpl. specialize (IH (Slave.p_slave (Slave.pumpStep m sink ev))
                        (Slave.p_sink (Slave.pumpStep m sink ev))).
  destruct (Slave.pump _ _ rest) as [[m' sink'] saves] eqn:Hp. simpl in *.
  destruct IH as [IHn IHp]. rewrite pumpStep_after_name in IHn, IHp.
  unfold Slave.lastRotation in *. simpl. split.
  - rewrite IHn. destruct (Slave.rotation ev) as [r|]; simpl; [|done].
    rewrite last_cons. by destruct (last _).
  - rewrite IHp, last_cons. destruct (last rest); [done|].
    by destruct (Slave.rotation ev).
Qed.

Lemma pumpStep_ids {H : Type} `{EventHandler H} m (sink : Sink.DefaultEventSink H) ev :
  Slave.instanceID (Slave.p_slave (Slave.pumpStep m sink ev)) = Slave.instanceID m
  ∧ Slave.hasMetaManager (Slave.p_slave (Slave.pumpStep m sink ev)) = Slave.hasMetaManager m
  ∧ ∀ k p, Slave.p_save (Slave.pumpStep m sink ev) = Some (k, p) →
           k = Slave.instanceID m ∧ Slave.hasMetaManager m = true.
Proof.
  unfold Slave.pumpStep.
  pose proof (handleBinlogEvent_same m sink ev) as Hs.
  destruct (Slave.handleBinlogEvent m sink ev) as [[err m1] sink1]. simpl in Hs.
  destruct Hs as (_ & _ & _ & Hid & Hmeta & _).
  destruct (Slave.updatePosition m1 ev) as [m2 save] eqn:Hu. simpl.
  assert (Slave.instanceID m2 = Slave.instanceID m1
          ∧ Slave.hasMetaManager m2 = Slave.hasMetaManager m1) as [Hi2 Hm2].
  { unfold Slave.updatePosition in Hu. by case_match; simplify_eq. }
  split_and!; [congruence|congruence|].
  intros k p ->. split.
  - rewrite <- Hid. by eapply updatePosition_save_key.
  - rewrite <- Hmeta. unfold Slave.updatePosition in Hu.
    destruct (Slave.hasMetaManager m1); [done|]. simpl in Hu. by simplify_eq.
Qed.

(** X20. Every save that a run of the stream loop requests is a save
    under the instance id of the slave, and a slave without a meta
    manager requests none. *)
Theorem X20_stream_saves_under_slave_id {H : Type} `{EventHandler H}
    (m : Slave.MySQLBinlogSlave) (sink : Sink.DefaultEventSink H)
    (evs : list replication.BinlogEvent) :
  (∀ k p, (k, p) ∈ (Slave.pump m sink evs).2 → k = Slave.instanceID m)
  ∧ (Slave.hasMetaManager m = false → (Slave.pump m sink evs).2 = []).
Proof.
  revert m sink. induction evs as [|ev rest IH]; intros m sink.
  { simpl. split; [|done]. intros k p Hk. by apply elem_of_nil in Hk. }
  simpl. specialize (IH (Slave.p_slave (Slave.pumpStep m sink ev))
                        (Slave.p_sink (Slave.pumpStep m sink ev))).
  destruct (pumpStep_ids m sink ev) as (Hid & Hmeta & Hsave).
  destruct (Slave.pump _ _ rest) as [[m' sink'] saves] eqn:Hp. simpl in *.
  destruct IH as [IHk IHn]. rewrite Hid in IHk. rewrite Hmeta in IHn. split.
  - intros k p Hk. apply elem_of_app in Hk as [Hk|Hk]; [|by eapply IHk].
    destruct (Slave.p_save _) as [[k0 p0]|]; simpl in Hk.
    + apply list_elem_of_singleton in Hk. simplify_eq. by destruct (Hsave k0 p0).
    + by apply elem_of_nil in Hk.
  - intros Hno. rewrite IHn by done.
    destruct (Slave.p_save _) as [[k0 p0]|]; [|done].
    destruct (Hsave k0 p0); congruence.
Qed.

(** X21. The position a slave starts from does not depend on the
    binlog file and offset of its configuration: it is the position the
    meta store returns for the slave's instance id, and the default
    (empty file name, offset 4) when the store fails or when the slave
    has no meta manager. *)
Theorem X21_start_position_comes_from_meta_store
    (cfg : MySQLConfig) (withMeta connOK : bool) (mm : Meta.DBMetaManager)
    (m' : Slave.MySQLBinlogSlave) :
  Slave.Start (Slave.NewMySQLBinlogSlaveWithMeta cfg withMeta) mm connOK = Some (None, m') →
  Slave.binlogPos m'
  = match (if withMeta then Meta.LoadPosition mm (Slave.slaveInstanceID cfg)
           else Meta.LoadErr "") with
    | Meta.LoadOk p => {| mysql.Name := Name p; mysql.Pos := Pos p |}
    | _ => {| mysql.Name := ""; mysql.Pos := 4 |}
    end.
Proof.
  unfold Slave.Start, Slave.getCurrentPosition. simpl.
  destruct withMeta; simpl.
  - destruct (Meta.LoadPosition mm (Slave.slaveInstanceID cfg)); simpl; [| |done];
      by intros [= <-].
  - destruct connOK; simpl; [|done]. by intros [= <-].
Qed.

Lemma X21_start_position_comes_from_meta_store_witness :
  ∃ m', Slave.Start (Slave.NewMySQLBinlogSlaveWithMeta (Instance.mysqlConfigOf Ex.lowerCfg) true)
          Ex.metaWithTask1 true = Some (None, m')
        ∧ BinlogFile (Instance.mysqlConfigOf Ex.lowerCfg) = "mysql-bin.000042"
        ∧ Slave.binlogPos m' = {| mysql.Name := ""; mysql.Pos := 4 |}.
Proof.
  eexists. split; [vm_compute; reflexivity|]. split; [reflexivity|].
  apply (X21_start_position_comes_from_meta_store (Instance.mysqlConfigOf Ex.lowerCfg)
           true true Ex.metaWithTask1).
  vm_compute. reflexivity.
Defined.

(** ** Webhook handler: batching *)

Lemma Webhook_Handle_spec (h : Webhook.WebhookHandler) (e : Event) :
  let r := Webhook.Handle h e in
  r.1.1 = None
  ∧ Webhook.batchSize r.1.2 = Webhook.batchSize h
  ∧ (if (Z.of_nat (length (Webhook.eventBuffer h ++ [e])) >=? Webhook.batchSize h)%Z
     then r.2 = Some (Webhook.eventBuffer h ++ [e])
          ∧ Webhook.eventBuffer r.1.2 = [] ∧ Webhook.flushTimer r.1.2 = false
     else r.2 = None
          ∧ Webhook.eventBuffer r.1.2 = Webhook.eventBuffer h ++ [e]
          ∧ Webhook.flushTimer r.1.2 = true).
Proof.
  unfold Webhook.Handle, Webhook.flushEvents. simpl.
  destruct (Z.of_nat (length (Webhook.eventBuffer h ++ [e])) >=? Webhook.batchSize h)%Z;
    simpl; [|done].
  destruct (Webhook.eventBuffer h ++ [e]) eqn:Hb; [|done].
  by destruct (Webhook.eventBuffer h).
Qed.

(** X22. The webhook handler neither loses nor duplicates nor reorders
    events: the batches it hands to senders, in order, followed by what
    is left in its buffer, are the events that were in the buffer
    followed by the events handled. *)
Theorem X22_webhook_batches_conserve_events (h : Webhook.WebhookHandler) (events : list Event) :
  let r := Webhook.handleAll h events in
  concat r.2 ++ Webhook.eventBuffer r.1 = Webhook.eventBuffer h ++ events
  ∧ Webhook.successCount r.1 = Webhook.successCount h
  ∧ Webhook.errorCount r.1 = Webhook.errorCount h.
Proof.
  cbv zeta. revert h. induction events as [|e rest IH]; intros h.
  { simpl. by rewrite app_nil_r. }
  simpl. destruct (Webhook_Handle_spec h e) as (_ & _ & Hcase).
  assert (Webhook.successCount (Webhook.Handle h e).1.2 = Webhook.successCount h
          ∧ Webhook.errorCount (Webhook.Handle h e).1.2 = Webhook.errorCount h) as [Hs He].
  { unfold Webhook.Handle, Webhook.flushEvents. by repeat case_match. }
  destruct (Webhook.Handle h e) as [[err h1] job]. simpl in *.
  specialize (IH h1). destruct (Webhook.handleAll h1 rest) as [h2 jobs]. simpl in *.
  destruct IH as (IH & IHs & IHe). split; [|split; congruence].
  case_match; destruct Hcase as (-> & Hbuf & _); simpl.
  - by rewrite <- !app_assoc, IH, Hbuf.
  - rewrite IH, Hbuf. by rewrite <- app_assoc.
Qed.

(** As long as the flush timer does not fire, every batch has the batch
    size and the number of batches is the number of events seen divided
    by the batch size. *)
Lemma handleAll_batch_sizes (h : Webhook.WebhookHandler) (events : list Event) :
  (Z.of_nat (length (Webhook.eventBuffer h)) < Webhook.batchSize h)%Z →
  let r := Webhook.handleAll h events in
  Forall (λ job, Z.of_nat (length job) = Webhook.batchSize h) r.2
  ∧ (Z.of_nat (length (Webhook.eventBuffer r.1)) < Webhook.batchSize h)%Z
  ∧ Z.of_nat (length r.2)
    = (Z.of_nat (length (Webhook.eventBuffer h) + length events) / Webhook.batchSize h)%Z.
Proof.
  cbv zeta. revert h. induction events as [|e rest IH]; intros h Hlt.
  { simpl. split; [constructor|]. split; [done|].
    rewrite Nat.add_0_r. symmetry. apply Z.div_small.
    split; [apply Nat2Z.is_nonneg|done]. }
  simpl. destruct (Webhook_Handle_spec h e) as (_ & Hbs & Hcase).
  destruct (Webhook.Handle h e) as [[err h1] job]. simpl in *.
  specialize (IH h1). destruct (Webhook.handleAll h1 rest) as [h2 jobs]. simpl in *.
  rewrite Hbs in IH. rewrite length_app in Hcase. simpl in Hcase.
  destruct (Z.geb_spec (Z.of_nat (length (Webhook.eventBuffer h) + 1)) (Webhook.batchSize h))
    as [Hge|Hge];
    destruct Hcase as (-> & Hbuf & _); rewrite Hbuf in IH; simpl.
  - destruct IH as (IHf & IHb & IHn); [simpl; lia|].
    split; [|split; [done|]].
    + constructor; [|done]. rewrite length_app. simpl. lia.
    + simpl in IHn.
      replace (Z.of_nat (length (Webhook.eventBuffer h) + S (length rest)))
        with (1 * Webhook.batchSize h + Z.of_nat (length rest))%Z by lia.
      rewrite Z.div_add_l by lia. lia.
  - destruct IH as (IHf & IHb & IHn); [rewrite length_app; simpl; lia|].
    split; [done|]. split; [done|].
    rewrite IHn, length_app. simpl. do 2 f_equal. lia.
Qed.

Lemma onFlushTimer_spec (h : Webhook.WebhookHandler) :
  Webhook.batchSize (Webhook.onFlushTimer h).1 = Webhook.batchSize h
  ∧ match Webhook.eventBuffer h with
    | [] => Webhook.onFlushTimer h = (h, None)
    | _ :: _ => (Webhook.onFlushTimer h).2 = Some (Webhook.eventBuffer h)
                ∧ Webhook.eventBuffer (Webhook.onFlushTimer h).1 = []
    end.
Proof.
  unfold Webhook.onFlushTimer, Webhook.flushEvents.
  by destruct (Webhook.eventBuffer h).
Qed.

Lemma run_incoming (events : list Event) : ∀ h,
  Webhook.run h (Webhook.Incoming <$> events)
  = ((Webhook.handleAll h events).1, pair Webhook.ByHandle <$> (Webhook.handleAll h events).2).
Proof.
  induction events as [|e rest IH]; intros h; [done|].
  simpl. destruct (Webhook.Handle h e) as [[err h1] job].
  rewrite IH. destruct (Webhook.handleAll h1 rest) as [h2 jobs]. simpl.
  by destruct job.
Qed.

(** X23. Starting with fewer buffered events than the batch size, and
    whenever the flush timer fires in between: every batch that
    [Handle] hands to a sender has exactly the batch size, every batch
    that the timer hands to a sender has at least one event and fewer
    than the batch size, fewer events than the batch size remain in the
    buffer, and the batches followed by the buffer are the events that
    were in the buffer followed by the events handled. When the timer
    never fires, every batch comes from [Handle] and the number of
    batches is the number of events seen divided by the batch size. *)
Theorem X23_webhook_batch_sizes_with_timer
    (h : Webhook.WebhookHandler) (inputs : list Webhook.Input) :
  (Z.of_nat (length (Webhook.eventBuffer h)) < Webhook.batchSize h)%Z →
  let r := Webhook.run h inputs in
  Forall (Webhook.batch_ok (Webhook.batchSize h)) r.2
  ∧ (Z.of_nat (length (Webhook.eventBuffer r.1)) < Webhook.batchSize h)%Z
  ∧ concat r.2.*2 ++ Webhook.eventBuffer r.1
    = Webhook.eventBuffer h ++ Webhook.incoming inputs
  ∧ (∀ events, inputs = Webhook.Incoming <$> events →
       r.2.*1 = replicate (length r.2) Webhook.ByHandle
       ∧ Z.of_nat (length r.2)
         = (Z.of_nat (length (Webhook.eventBuffer h) + length events)
            / Webhook.batchSize h)%Z).
Proof.
  intros Hlt. cbv zeta. split_and!.
  - revert h Hlt. induction inputs as [|[e|] rest IH]; intros h Hlt; simpl.
    + constructor.
    + destruct (Webhook_Handle_spec h e) as (_ & Hbs & Hcase).
      destruct (Webhook.Handle h e) as [[err h1] job]. simpl in *.
      specialize (IH h1). destruct (Webhook.run h1 rest) as [h2 jobs]. simpl in *.
      rewrite Hbs in IH. rewrite length_app in Hcase. simpl in Hcase.
      destruct (Z.geb_spec (Z.of_nat (length (Webhook.eventBuffer h) + 1))
                  (Webhook.batchSize h)) as [Hge|Hge];
        destruct Hcase as (-> & Hbuf & _); rewrite Hbuf in IH; simpl.
      * constructor; [|apply IH; simpl; lia].
        unfold Webhook.batch_ok. simpl. rewrite length_app. simpl. lia.
      * apply IH. rewrite length_app. simpl. lia.
    + destruct (onFlushTimer_spec h) as (Hbs & Hcase).
      destruct (Webhook.eventBuffer h) as [|e0 buf] eqn:Hb.
      * rewrite Hcase. specialize (IH h). destruct (Webhook.run h rest) as [h2 jobs].
        simpl. apply IH. by rewrite Hb.
      * destruct Hcase as (Hjob & Hbuf).
        destruct (Webhook.onFlushTimer h) as [h1 job]. simpl in *. subst job.
        specialize (IH h1). rewrite Hbs, Hbuf in IH.
        destruct (Webhook.run h1 rest) as [h2 jobs]. simpl in *.
        constructor; [|apply IH; lia].
        unfold Webhook.batch_ok. simpl. lia.
  - revert h Hlt. induction inputs as [|[e|] rest IH]; intros h Hlt; simpl.
    + done.
    + destruct (Webhook_Handle_spec h e) as (_ & Hbs & Hcase).
      destruct (Webhook.Handle h e) as [[err h1] job]. simpl in *.
      specialize (IH h1). destruct (Webhook.run h1 rest) as [h2 jobs]. simpl in *.
      rewrite Hbs in IH. rewrite length_app in Hcase. simpl in Hcase.
      destruct (Z.geb_spec (Z.of_nat (length (Webhook.eventBuffer h) + 1))
                  (Webhook.batchSize h)) as [Hge|Hge];
        destruct Hcase as (_ & Hbuf & _); rewrite Hbuf in IH; apply IH.
      * simpl. lia.
      * rewrite length_app. simpl. lia.
    + destruct (onFlushTimer_spec h) as (Hbs & Hcase).
      destruct (Webhook.eventBuffer h) as [|e0 buf] eqn:Hb.
      * rewrite Hcase. specialize (IH h). destruct (Webhook.run h rest) as [h2 jobs].
        simpl. apply IH. by rewrite Hb.
      * destruct Hcase as (Hjob & Hbuf).
        destruct (Webhook.onFlushTimer h) as [h1 job]. simpl in *.
        specialize (IH h1). rewrite Hbs, Hbuf in IH.
        destruct (Webhook.run h1 rest) as [h2 jobs]. simpl in *. apply IH. lia.
  - clear Hlt. revert h. induction inputs as [|[e|] rest IH]; intros h; simpl.
    + by rewrite app_nil_r.
    + destruct (Webhook_Handle_spec h e) as (_ & _ & Hcase).
      destruct (Webhook.Handle h e) as [[err h1] job]. simpl in *.
      specialize (IH h1). destruct (Webhook.run h1 rest) as [h2 jobs]. simpl in *.
      case_match; destruct Hcase as (-> & Hbuf & _); simpl;
        change (list_fmap _ _ snd jobs) with (jobs.*2).
      * by rewrite <- !app_assoc, IH, Hbuf.
      * by rewrite IH, Hbuf, <- app_assoc.
    + destruct (onFlushTimer_spec h) as (_ & Hcase).
      destruct (Webhook.eventBuffer h) as [|e0 buf] eqn:Hb.
      * rewrite Hcase. specialize (IH h). destruct (Webhook.run h rest) as [h2 jobs].
        simpl in *. by rewrite IH, Hb.
      * destruct Hcase as (Hjob & Hbuf).
        destruct (Webhook.onFlushTimer h) as [h1 job]. simpl in *. subst job.
        specialize (IH h1). destruct (Webhook.run h1 rest) as [h2 jobs]. simpl in *.
        change (list_fmap _ _ snd jobs) with (jobs.*2).
        by rewrite <- app_assoc, IH, Hbuf.
  - intros events ->. rewrite run_incoming. simpl.
    destruct (handleAll_batch_sizes h events Hlt) as (_ & _ & Hn).
    rewrite length_fmap. split; [|exact Hn]. clear Hn.
    induction (Webhook.handleAll h events).2 as [|job jobs IHj]; [done|].
    simpl. f_equal. exact IHj.
Qed.

Lemma X23_webhook_batch_sizes_with_timer_witness :
  (Webhook.run Ex.webhook
     (replicate 23 (Webhook.Incoming Ex.filler) ++ [Webhook.TimerFires])).2.*1
  = [Webhook.ByHandle; Webhook.ByHandle; Webhook.ByTimer]
  ∧ Forall (Webhook.batch_ok 10)
      (Webhook.run Ex.webhook
         (replicate 23 (Webhook.Incoming Ex.filler) ++ [Webhook.TimerFires])).2.
Proof.
  split; [vm_compute; reflexivity|].
  apply (X23_webhook_batch_sizes_with_timer Ex.webhook
           (replicate 23 (Webhook.Incoming Ex.filler) ++ [Webhook.TimerFires])).
  vm_compute. reflexivity.
Defined.

(** X24. Events that do not fill a batch are not sent when they are
    handled: they stay in the buffer with the flush timer armed, and
    when the timer fires they are all handed to one sender and the
    buffer is empty. *)
Theorem X24_webhook_timer_flushes_partial_batch
    (h : Webhook.WebhookHandler) (events : list Event) :
  events ≠ [] →
  (Z.of_nat (length (Webhook.eventBuffer h) + length events) < Webhook.batchSize h)%Z →
  let r := Webhook.handleAll h events in
  r.2 = []
  ∧ Webhook.eventBuffer r.1 = Webhook.eventBuffer h ++ events
  ∧ Webhook.flushTimer r.1 = true
  ∧ (Webhook.onFlushTimer r.1).2 = Some (Webhook.eventBuffer h ++ events)
  ∧ Webhook.eventBuffer (Webhook.onFlushTimer r.1).1 = []
  ∧ Webhook.flushTimer (Webhook.onFlushTimer r.1).1 = false.
Proof.
  cbv zeta. intros Hne Hlt.
  assert ((Webhook.handleAll h events).2 = []
          ∧ Webhook.eventBuffer (Webhook.handleAll h events).1 = Webhook.eventBuffer h ++ events
          ∧ Webhook.flushTimer (Webhook.handleAll h events).1 = true) as (Hj & Hb & Ht).
  { revert h Hlt. induction events as [|e rest IH]; intros h Hlt; [done|].
    simpl. destruct (Webhook_Handle_spec h e) as (_ & Hbs & Hcase).
    destruct (Webhook.Handle h e) as [[err h1] job]. simpl in *.
    rewrite length_app in Hcase. simpl in Hcase.
    assert ((Z.of_nat (length (Webhook.eventBuffer h) + 1) >=? Webhook.batchSize h)%Z = false)
      as Hge by (rewrite Z.geb_leb; apply Z.leb_gt; lia).
    rewrite Hge in Hcase. destruct Hcase as (-> & Hbuf & Htimer).
    destruct rest as [|e' rest'].
    { simpl. by rewrite Hbuf. }
    destruct (IH ltac:(done) h1) as (IHj & IHb & IHt).
    { rewrite Hbs, Hbuf, length_app. simpl in *. lia. }
    destruct (Webhook.handleAll h1 (e' :: rest')) as [h2 jobs]. simpl in *.
    rewrite IHj, IHb, Hbuf, <- app_assoc. done. }
  assert (Webhook.onFlushTimer (Webhook.handleAll h events).1
          = (Webhook.set_buffer (Webhook.handleAll h events).1 [] false,
             Some (Webhook.eventBuffer h ++ events))) as ->.
  { unfold Webhook.onFlushTimer, Webhook.flushEvents. rewrite Hb.
    destruct (Webhook.eventBuffer h ++ events) eqn:Hall; [|done].
    by apply app_eq_nil in Hall as [_ ?]. }
  by split_and!.
Qed.

Lemma X24_webhook_timer_flushes_partial_batch_witness :
  (Webhook.handleAll Ex.webhook [Ex.filler; Ex.second]).2 = []
  ∧ (Webhook.onFlushTimer (Webhook.handleAll Ex.webhook [Ex.filler; Ex.second]).1).2
    = Some [Ex.filler; Ex.second].
Proof.
  destruct (X24_webhook_timer_flushes_partial_batch Ex.webhook [Ex.filler; Ex.second])
    as (Hj & _ & _ & Hf & _); [discriminate|vm_compute; reflexivity|].
  split; [exact Hj|exact Hf].
Defined.

(** ** Database handler: counting *)

Lemma wrap64_range x : int64_range (wrap64 x).
Proof.
  unfold int64_range, wrap64.
  pose proof (Z.mod_pos_bound (x + 2 ^ 63) (2 ^ 64) ltac:(lia)). lia.
Qed.

Lemma wrap64_add_l a b : wrap64 (wrap64 a + b) = wrap64 (a + b).
Proof.
  unfold wrap64. f_equal.
  replace ((a + 2 ^ 63) mod 2 ^ 64 - 2 ^ 63 + b + 2 ^ 63)%Z
    with ((a + 2 ^ 63) mod 2 ^ 64 + b)%Z by lia.
  rewrite Zplus_mod_idemp_l. f_equal. lia.
Qed.

(** X25. The database handler counts every call, also the calls that
    write nothing: after a sequence of events its count has grown by
    their number (in 64-bit arithmetic); a disabled handler writes no
    row and returns no error, and when the storage rejects the rows
    every call returns that error and no row is written. *)
Theorem X25_database_handler_counts_every_call
    (json_Marshal : RowData → string)
    (h : DatabaseH.DatabaseHandler) (dbService : DatabaseH.EventLogger) (events : list Event) :
  int64_range (DatabaseH.processCount h) →
  let r := DatabaseH.handleAll json_Marshal h dbService events in
  DatabaseH.processCount r.1.2
  = wrap64 (DatabaseH.processCount h + Z.of_nat (length events))
  ∧ (DatabaseH.enabled h = false →
     r.1.1 = replicate (length events) None ∧ r.2 = dbService)
  ∧ (∀ err, DatabaseH.enabled h = true → DatabaseH.createFault dbService = Some err →
            r.1.1 = replicate (length events) (Some err) ∧ r.2 = dbService).
Proof.
  cbv zeta. revert h dbService. induction events as [|e rest IH]; intros h dbService Hr.
  { simpl. rewrite Z.add_0_r, wrap64_small by done. done. }
  change (DatabaseH.handleAll json_Marshal h dbService (e :: rest))
    with (let '(err, h', db') := DatabaseH.Handle json_Marshal h dbService e in
          let '(errs, h'', db'') := DatabaseH.handleAll json_Marshal h' db' rest in
          (err :: errs, h'', db'')).
  assert (DatabaseH.processCount (DatabaseH.Handle json_Marshal h dbService e).1.2
          = wrap64 (DatabaseH.processCount h + 1)
          ∧ DatabaseH.enabled (DatabaseH.Handle json_Marshal h dbService e).1.2
            = DatabaseH.enabled h
          ∧ (DatabaseH.enabled h = false →
             (DatabaseH.Handle json_Marshal h dbService e).1.1 = None
             ∧ (DatabaseH.Handle json_Marshal h dbService e).2 = dbService)
          ∧ (∀ err, DatabaseH.enabled h = true → DatabaseH.createFault dbService = Some err →
             (DatabaseH.Handle json_Marshal h dbService e).1.1 = Some err
             ∧ (DatabaseH.Handle json_Marshal h dbService e).2 = dbService))
    as (Hc & Hen & Hoff & Hfail).
  { unfold DatabaseH.Handle, DatabaseH.CreateEventLog. simpl.
    destruct (DatabaseH.enabled h); simpl.
    - destruct (DatabaseH.createFault dbService); simpl; split_and!; try done;
        by intros err _ [= <-].
    - by split_and!. }
  destruct (DatabaseH.Handle json_Marshal h dbService e) as [[err h1] db1]. simpl in *.
  specialize (IH h1 db1). rewrite Hc, Hen in IH.
  destruct (DatabaseH.handleAll json_Marshal h1 db1 rest) as [[errs h2] db2].
  simpl in *.
  destruct IH as (IHc & IHoff & IHfail); [apply wrap64_range|].
  split_and!.
  - rewrite IHc, wrap64_add_l. f_equal. lia.
  - intros Hd. destruct (Hoff Hd) as [-> ->]. by destruct (IHoff Hd) as [-> ->].
  - intros err' He Hf. destruct (Hfail err' He Hf) as [-> ->].
    by destruct (IHfail err' He Hf) as [-> ->].
Qed.

Lemma X25_database_handler_counts_every_call_witness :
  DatabaseH.processCount
    (DatabaseH.handleAll Ex.marshal Ex.dbHandler Ex.emptyLog [Ex.filler; Ex.second]).1.2
  = wrap64 (DatabaseH.processCount Ex.dbHandler + Z.of_nat (length [Ex.filler; Ex.second])).
Proof.
  apply (X25_database_handler_counts_every_call Ex.marshal Ex.dbHandler Ex.emptyLog
           [Ex.filler; Ex.second]).
  vm_compute. split; [discriminate|reflexivity].
Defined.

(** ** Canal instance *)

Lemma Instance_Subscribe_eq c schema table h :
  Instance.Subscribe c schema table h
  = (None, Instance.with_sink_slave c (Sink.Subscribe (Instance.eventSink c) schema table h).2
             (Slave.AddWatchTable (Instance.binlogSlave c) schema table)).
Proof. reflexivity. Qed.

Lemma Instance_Unsubscribe_eq c schema table n :
  Instance.Unsubscribe c schema table n
  = (None, Instance.with_sink_slave c (Sink.Unsubscribe (Instance.eventSink c) schema table n).2
             (Instance.binlogSlave c)).
Proof.
  unfold Instance.Unsubscribe, Sink.Unsubscribe.
  by destruct (Sink.handlers (Instance.eventSink c) !! tableKeyOf schema table).
Qed.

Lemma handlersAt_Unsubscribe {H : Type} `{EventHandler H}
    (s : Sink.DefaultEventSink H) schema table n :
  Sink.handlersAt (Sink.Unsubscribe s schema table n).2 (tableKeyOf schema table)
  = delete n (Sink.handlersAt s (tableKeyOf schema table)).
Proof.
  unfold Sink.handlersAt, Sink.Unsubscribe.
  destruct (Sink.handlers s !! tableKeyOf schema table) as [hs|] eqn:Hk; simpl.
  - case_decide as Hz; simpl.
    + rewrite lookup_delete_eq. simpl. symmetry. by apply map_size_empty_iff.
    + by rewrite lookup_insert_eq.
  - rewrite Hk. simpl. by rewrite delete_empty.
Qed.

(** X26. Unsubscribing does not take the table off the watch list of
    the slave: after a handler was subscribed and unsubscribed again,
    the sink has no such handler for the table while the slave still
    watches it. *)
Theorem X26_unsubscribe_keeps_watch_table
    (c : Instance.MySQLCanalInstance) (schema table : string) (h : Handler) :
  let c' := (Instance.Unsubscribe (Instance.Subscribe c schema table h).2
               schema table (GetName h)).2 in
  Slave.watchTables (Instance.binlogSlave c') !! tableKeyOf schema table = Some true
  ∧ Sink.handlersAt (Instance.eventSink c') (tableKeyOf schema table) !! GetName h = None.
Proof.
  cbv zeta. rewrite Instance_Subscribe_eq, Instance_Unsubscribe_eq. simpl. split.
  - apply lookup_insert_eq.
  - rewrite handlersAt_Unsubscribe. apply lookup_delete_eq.
Qed.

(** ** Service supervisor *)

Lemma Slave_Start_running sl mm connOK sl' :
  Slave.Start sl mm connOK = Some (None, sl') → Slave.running sl' = true.
Proof.
  unfold Slave.Start, Slave.getCurrentPosition. intros Hs.
  destruct (Slave.running sl); [done|]. simpl in Hs.
  repeat case_match; by simplify_eq.
Qed.

Lemma Instance_Start_live c mm connOK lv c' :
  Instance.Start c mm connOK lv = Some (None, c') →
  Instance.id c' = Instance.id c ∧ Instance.live (Instance.Real c').
Proof.
  intros Hs. destruct (Instance_Start_ok _ _ _ _ _ Hs) as (Hid & Hr & Hsl).
  split; [done|]. split; [done|].
  split; [by eapply Slave_Start_running|].
  unfold Instance.Start, Sink.Start in Hs.
  destruct (Instance.running c); [done|].
  destruct (Sink.started (Instance.eventSink c)); [done|].
  destruct (Slave.Start (Instance.binlogSlave c) mm connOK) as [[[e|] sl]|]; try done.
  by simplify_eq.
Qed.

Lemma CreateTask_result s task connOK s' :
  Service.CreateTask s task connOK = Some (None, s') →
  ∃ i, s' = {| Service.config := Service.config s;
               Service.metaManager := Service.metaManager s;
               Service.objects := Service.objects s ++ [i];
               Service.instances :=
                 <[Service.taskInstanceID (Service.ID task) := length (Service.objects s)]>
                   (Service.instances s);
               Service.running := Service.running s |}
       ∧ Instance.GetID i = Service.taskInstanceID (Service.ID task)
       ∧ Instance.IsRunning i = negb (Service.ID task >=? 1000)%Z
       ∧ match i with
         | Instance.Real _ => (Service.ID task < 1000)%Z ∧ Instance.live i
         | Instance.Mock c => (1000 ≤ Service.ID task)%Z ∧ Instance.mock_running c = false
         end.
Proof.
  intros Hc. destruct (Z.lt_ge_cases (Service.ID task) 1000) as [Hid|Hid].
  - rewrite CreateTask_real in Hc by done. cbv zeta in Hc.
    set (c0 := Instance.NewMySQLCanalInstance _ _ _) in Hc.
    set (h1 := HWebhook _) in Hc. set (h2 := HDatabase _) in Hc.
    set (c1 := (Instance.Subscribe c0 _ _ h1).2) in Hc.
    set (c2 := (Instance.Subscribe c1 _ _ h2).2) in Hc.
    destruct (Subscribe_same c0 (Service.t_Database task) (Service.t_Table task) h1)
      as (_ & Hid1 & _).
    destruct (Subscribe_same c1 (Service.t_Database task) (Service.t_Table task) h2)
      as (_ & Hid2 & _).
    fold c1 in Hid1, Hid2. fold c2 in Hid2. clearbody c1 c2.
    destruct (Instance.Start c2 _ connOK true) as [[[e|] c3]|] eqn:Hst; try done.
    simplify_eq.
    destruct (Instance_Start_live _ _ _ _ _ Hst) as (Hid3 & Hlive).
    exists (Instance.Real c3). split; [done|]. simpl.
    split; [by rewrite Hid3, Hid2, Hid1|].
    split; [|by split].
    destruct Hlive as (-> & _). by rewrite geb_false.
  - rewrite CreateTask_mock in Hc by done. simplify_eq.
    eexists. split; [done|]. simpl. by rewrite geb_true.
Qed.

Lemma CreateTask_error s task connOK err s' :
  Service.CreateTask s task connOK = Some (Some err, s') → s' = s.
Proof.
  destruct (Z.lt_ge_cases (Service.ID task) 1000) as [Hid|Hid].
  - rewrite CreateTask_real by done. cbv zeta.
    destruct (Instance.Start _ _ connOK true) as [[[e|] c3]|]; try done.
    by intros [= _ <-].
  - by rewrite CreateTask_mock.
Qed.

(** *** Stopping an instance *)

Lemma Slave_Stop_spec (m : Slave.MySQLBinlogSlave) (lv : bool) :
  match Slave.Stop m lv with
  | Returned err m' =>
      err = None ∧ Slave.running m' = false
      ∧ (Slave.running m = true → lv = true)
      ∧ (Slave.running m = false → m' = m)
  | Blocked m' => m' = m ∧ Slave.running m = true ∧ lv = false
  end.
Proof.
  unfold Slave.Stop. destruct (Slave.running m) eqn:Hr; simpl; [|done].
  by destruct lv.
Qed.

Lemma Sink_Stop_spec {H : Type} `{EventHandler H} (s : Sink.DefaultEventSink H) (lv : bool) :
  match Sink.Stop s lv with
  | Returned err s' =>
      err = None ∧ Sink.started s' = false
      ∧ (Sink.started s = true → lv = true)
      ∧ (Sink.started s = false → s' = s)
  | Blocked s' => s' = s ∧ Sink.started s = true ∧ lv = false
  end.
Proof.
  unfold Sink.Stop. destruct (Sink.started s) eqn:Hr; simpl; [|done].
  by destruct lv.
Qed.

(** What [Stop] of an instance gives when it returns, and where it is
    when it does not. *)
Lemma Instance_Stop_spec (c : Instance.MySQLCanalInstance) (sched : Instance.Schedule) :
  match Instance.Stop c sched with
  | Returned err c' =>
      err = None
      ∧ Instance.id c' = Instance.id c
      ∧ (Instance.running c = false → c' = c)
      ∧ (Instance.running c = true →
         Instance.halted (Instance.Real c')
         ∧ (Slave.running (Instance.binlogSlave c) = true →
            Instance.streamLeaves sched = true)
         ∧ (Sink.started (Instance.eventSink c) = true →
            Instance.consumerLeaves sched = true))
  | Blocked c' =>
      Instance.id c' = Instance.id c
      ∧ Instance.running c = true
      ∧ Instance.running c' = true
      ∧ Sink.started (Instance.eventSink c') = Sink.started (Instance.eventSink c)
      ∧ ((Slave.running (Instance.binlogSlave c') = true
          ∧ Instance.streamLeaves sched = false)
         ∨ (Slave.running (Instance.binlogSlave c') = false
            ∧ Sink.started (Instance.eventSink c') = true
            ∧ (Slave.running (Instance.binlogSlave c) = true →
               Instance.streamLeaves sched = true)
            ∧ Instance.consumerLeaves sched = false))
  end.
Proof.
  unfold Instance.Stop. destruct (Instance.running c) eqn:Hr; simpl; [|done].
  pose proof (Slave_Stop_spec (Instance.binlogSlave c) (Instance.streamLeaves sched)) as Hsl.
  destruct (Slave.Stop _ _) as [e1 sl|sl].
  - destruct Hsl as (_ & Hsl & Hlv & _).
    pose proof (Sink_Stop_spec (Instance.eventSink c) (Instance.consumerLeaves sched)) as Hsk.
    destruct (Sink.Stop _ _) as [e2 sk|sk].
    + destruct Hsk as (_ & Hsk & Hlv2 & _). simpl. by split_and!.
    + destruct Hsk as (-> & Hst & Hlv2). simpl. split_and!; try done. right. by split_and!.
  - destruct Hsl as (-> & Hrun & Hlv). simpl. split_and!; try done. by left.
Qed.

Lemma halted_not_running i : Instance.halted i → Instance.IsRunning i = false.
Proof. destruct i as [c|c]; simpl; [by intros (? & _)|done]. Qed.

Lemma StopI_spec (i : Instance.CanalInstance) (sched : Instance.Schedule) :
  match Instance.StopI i sched with
  | Returned err i' =>
      err = None
      ∧ Instance.stops_to i i'
      ∧ (Instance.live i →
         Instance.streamLeaves sched = true ∧ Instance.consumerLeaves sched = true
         ∨ ∃ c, i = Instance.Mock c)
  | Blocked i' =>
      Instance.GetID i' = Instance.GetID i
      ∧ Instance.IsRunning i = true
      ∧ ∃ c c', i = Instance.Real c ∧ i' = Instance.Real c'
                ∧ Instance.running c' = true
                ∧ Sink.started (Instance.eventSink c') = Sink.started (Instance.eventSink c)
                ∧ ((Slave.running (Instance.binlogSlave c') = true
                    ∧ Instance.streamLeaves sched = false)
                   ∨ (Slave.running (Instance.binlogSlave c') = false
                      ∧ Sink.started (Instance.eventSink c') = true
                      ∧ (Slave.running (Instance.binlogSlave c) = true →
                         Instance.streamLeaves sched = true)
                      ∧ Instance.consumerLeaves sched = false))
  end.
Proof.
  destruct i as [c|c]; simpl.
  - pose proof (Instance_Stop_spec c sched) as Hs.
    destruct (Instance.Stop c sched) as [err c'|c'].
    + destruct Hs as (-> & Hid & Hoff & Hon). split; [done|]. split.
      * split; [done|]. split; [intros Hr; by destruct (Hon Hr)|].
        intros Hr. simpl in Hr. by rewrite (Hoff Hr).
      * intros (Hr & Hsl & Hsk). destruct (Hon Hr) as (_ & H1 & H2). left. auto.
    + destruct Hs as (Hid & Hr & Hr' & Hsk & Hwhy). split_and!; try done.
      by exists c, c'.
  - split; [done|]. split.
    + split; [done|]. split; [done|]. intros Hr. simpl in Hr. destruct c. simpl in *. by subst.
    + intros _. right. by eexists.
Qed.



Lemma GetID_reached_StopI i sched :
  Instance.GetID (reached (Instance.StopI i sched)) = Instance.GetID i.
Proof.
  pose proof (StopI_spec i sched) as Hs.
  destruct (Instance.StopI i sched); simpl.
  - by destruct Hs as (_ & (? & _) & _).
  - by destruct Hs as (? & _).
Qed.

Lemma insert_GetID (objs : list Instance.CanalInstance) addr i i' a :
  objs !! addr = Some i → Instance.GetID i' = Instance.GetID i →
  Instance.GetID <$> <[addr := i']> objs !! a = Instance.GetID <$> objs !! a.
Proof.
  intros Hi Hid. destruct (decide (a = addr)) as [->|Hne].
  - rewrite list_lookup_insert_eq by (by eapply lookup_lt_Some). rewrite Hi. simpl. by f_equal.
  - by rewrite list_lookup_insert_ne.
Qed.

(** *** The range of [Stop] *)

Lemma stopAll_GetID scheds addrs : ∀ objs a,
  Instance.GetID <$> reached (Service.stopAll objs addrs scheds) !! a
  = Instance.GetID <$> objs !! a.
Proof.
  induction addrs as [|addr rest IH]; intros objs a; [done|]. simpl.
  destruct (objs !! addr) as [i|] eqn:Hi; [|apply IH].
  pose proof (GetID_reached_StopI i (scheds addr)) as Hid.
  destruct (Instance.StopI i (scheds addr)) as [err st|st]; simpl in *.
  - rewrite IH. by eapply insert_GetID.
  - by eapply insert_GetID.
Qed.





Lemma wf_CreateTask s task connOK r :
  Service.wf s → Service.CreateTask s task connOK = Some r → Service.wf r.2.
Proof.
  intros Hwf Hc. destruct r as [[err|] s'].
  { apply CreateTask_error in Hc. by subst. }
  apply CreateTask_result in Hc as (i & -> & Hi & _).
  intros key addr Hk. simpl in *.
  destruct (decide (key = Service.taskInstanceID (Service.ID task))) as [->|Hne].
  - rewrite lookup_insert_eq in Hk. simplify_eq. exists i.
    split; [|done]. by rewrite lookup_app_r, Nat.sub_diag.
  - rewrite lookup_insert_ne in Hk by done.
    destruct (Hwf key addr Hk) as (i' & Hi' & Hid'). exists i'.
    split; [|done]. by apply lookup_app_l_Some.
Qed.

Lemma wf_loadTasks tasks connOK : ∀ s s',
  Service.wf s → Service.loadTasks s tasks connOK = Some s' → Service.wf s'.
Proof.
  induction tasks as [|task rest IH]; intros s s' Hwf Hl; simpl in Hl.
  { by simplify_eq. }
  destruct (Service.CreateTask s task connOK) as [[err s1]|] eqn:Hc; [|done].
  eapply IH; [|exact Hl]. by apply (wf_CreateTask _ _ _ _ Hwf Hc).
Qed.

Lemma wf_objects (s : Service.EnhancedCanalService) (objs : list Instance.CanalInstance)
    (insts : gmap string nat) (r : bool) :
  Service.wf s →
  (∀ a, Instance.GetID <$> objs !! a = Instance.GetID <$> Service.objects s !! a) →
  (∀ key a, insts !! key = Some a → Service.instances s !! key = Some a) →
  Service.wf {| Service.config := Service.config s;
                Service.metaManager := Service.metaManager s;
                Service.objects := objs; Service.instances := insts;
                Service.running := r |}.
Proof.
  intros Hwf Hobjs Hinsts key a Hk. simpl in *.
  destruct (Hwf key a (Hinsts key a Hk)) as (i & Hi & Hid).
  specialize (Hobjs a). rewrite Hi in Hobjs. simpl in Hobjs.
  destruct (objs !! a) as [i'|]; [|done]. simpl in Hobjs.
  exists i'. split; [done|]. congruence.
Qed.

(** X27. The map of the supervisor refers to existing instances, each
    stored under its own id. This holds of a new supervisor and is kept
    by starting the supervisor, creating a task, deleting a task and
    stopping the supervisor, also when deleting or stopping never
    returns. *)
Theorem X27_supervisor_map_refers_to_own_instances
    (s : Service.EnhancedCanalService) (task : Service.Task) (taskID : Z)
    (query : option (list Service.Task)) (connOK : bool)
    (sched : Instance.Schedule) (order : list (string * nat))
    (scheds : nat → Instance.Schedule) :
  Service.wf s →
  (∀ err s', Service.Start s query connOK = Some (err, s') → Service.wf s')
  ∧ (∀ err s', Service.CreateTask s task connOK = Some (err, s') → Service.wf s')
  ∧ Service.wf (reached (Service.DeleteTask s taskID sched))
  ∧ Service.wf (reached (Service.Stop s order scheds)).
Proof.
  intros Hwf. split_and!.
  - intros err s' Hs. unfold Service.Start, Service.loadExistingTasks in Hs.
    destruct (Service.running s); [by simplify_eq|].
    destruct query as [tasks|]; [|by simplify_eq].
    destruct (Service.loadTasks _ tasks connOK) as [s1|] eqn:Hl; [|done].
    simplify_eq. by eapply wf_loadTasks; [|exact Hl].
  - intros err s' Hc. by apply (wf_CreateTask _ _ _ _ Hwf Hc).
  - unfold Service.DeleteTask.
    destruct (Service.instances s !! Service.taskInstanceID taskID) as [addr|] eqn:Hk; [|done].
    destruct (Service.objects s !! addr) as [i|] eqn:Hi; [|done].
    pose proof (GetID_reached_StopI i sched) as Hid.
    destruct (Instance.StopI i sched) as [err st|st]; simpl in *.
    + apply wf_objects; [done| |].
      * intros a. by eapply insert_GetID.
      * intros key a Hka. by apply lookup_delete_Some in Hka as [_ ?].
    + apply wf_objects; [done| |done]. intros a. by eapply insert_GetID.
  - unfold Service.Stop. destruct (Service.running s); [|done]. simpl.
    pose proof (stopAll_GetID scheds order.*2 (Service.objects s)) as Hid.
    destruct (Service.stopAll _ _ _) as [err objs|objs]; simpl in *;
      by apply wf_objects.
Qed.

Lemma service0_wf : Service.wf Ex.service0.
Proof.
  intros key addr Hk. unfold Ex.service0, Service.NewEnhancedCanalService in Hk.
  cbn [Service.instances] in Hk. by rewrite lookup_empty in Hk.
Qed.

Lemma X27_supervisor_map_refers_to_own_instances_witness :
  Service.wf Ex.started1 ∧ Service.wf Ex.started2.
Proof.
  assert (Service.wf Ex.started1) as Hwf1.
  { destruct (X27_supervisor_map_refers_to_own_instances Ex.service0 Ex.task1 1
                (Some [Ex.task1]) true Ex.stuck [] (λ _, Ex.stuck) service0_wf)
      as (Hstart & _).
    apply (Hstart None Ex.started1). vm_compute. reflexivity. }
  split; [exact Hwf1|].
  destruct (X27_supervisor_map_refers_to_own_instances Ex.started1 Ex.task1 1
              None true Ex.stuck [] (λ _, Ex.stuck) Hwf1) as (_ & Hcreate & _).
  apply (Hcreate None Ex.started2). vm_compute. reflexivity.
Defined.

(** X28. Deleting a task right after it was created. The call returns
    when the new instance is a mock, or when the goroutines of its
    slave and of its sink leave without asking for a mutex: the new
    instance is then halted (flags, slave and sink), the entry of the
    task is removed from the map, and all older instances are as
    before, so those of the task that were running still are and the
    map no longer leads to them. Otherwise the call never returns: the
    new instance is still marked running with its sink started (its
    slave still runs when it is the stream goroutine that does not
    leave), and the entry of the task is still in the map. *)
Theorem X28_delete_after_create
    (s s' : Service.EnhancedCanalService) (task : Service.Task) (connOK : bool)
    (sched : Instance.Schedule) :
  Service.CreateTask s task connOK = Some (None, s') →
  let key := Service.taskInstanceID (Service.ID task) in
  match Service.DeleteTask s' (Service.ID task) sched with
  | Returned err s'' =>
      err = None
      ∧ ((Service.ID task < 1000)%Z →
         Instance.streamLeaves sched = true ∧ Instance.consumerLeaves sched = true)
      ∧ Service.instances s'' = delete key (Service.instances s)
      ∧ (∃ i', Service.objects s'' = Service.objects s ++ [i']
               ∧ Instance.GetID i' = key ∧ Instance.halted i')
      ∧ Service.runningInstances s'' (Service.ID task)
        = Service.runningInstances s (Service.ID task)
  | Blocked s'' =>
      (Service.ID task < 1000)%Z
      ∧ (Instance.streamLeaves sched = false ∨ Instance.consumerLeaves sched = false)
      ∧ Service.instances s'' !! key = Some (length (Service.objects s))
      ∧ ∃ c, Service.objects s'' = Service.objects s ++ [Instance.Real c]
             ∧ Instance.id c = key
             ∧ Instance.running c = true
             ∧ Sink.started (Instance.eventSink c) = true
             ∧ Slave.running (Instance.binlogSlave c)
               = negb (Instance.streamLeaves sched)
  end
  ∧ ((1000 ≤ Service.ID task)%Z
     ∨ (Instance.streamLeaves sched = true ∧ Instance.consumerLeaves sched = true) →
     ∃ s'', Service.DeleteTask s' (Service.ID task) sched = Returned None s'').
Proof.
  intros Hc. apply CreateTask_result in Hc as (i & -> & Hi & _ & Hkind). cbv zeta.
  unfold Service.DeleteTask. simpl. rewrite lookup_insert_eq.
  rewrite lookup_app_r, Nat.sub_diag by done. simpl.
  assert (∀ x, <[length (Service.objects s) := x]> (Service.objects s ++ [i])
               = Service.objects s ++ [x]) as Hins.
  { intros x. by rewrite insert_app_r_alt, Nat.sub_diag by done. }
  pose proof (StopI_spec i sched) as Hspec.
  destruct (Instance.StopI i sched) as [err st|st] eqn:Hst; simpl; rewrite ?Hins.
  - destruct Hspec as (_ & (Hid & Hon & Hoff) & Hlive). split.
    + split; [done|]. split.
      { intros Hlt. destruct i as [c|c]; [|destruct Hkind; lia].
        destruct Hkind as [_ Hl]. destruct (Hlive Hl) as [?|[c' ?]]; done. }
      split; [by rewrite delete_insert_eq|].
      assert (Instance.halted st) as Hhalt.
      { destruct i as [c|c].
        - destruct Hkind as [_ Hl]. apply Hon. by destruct Hl.
        - destruct Hkind as [_ Hm]. rewrite (Hoff Hm). done. }
      split; [exists st; split_and!; [done|congruence|done]|].
      unfold Service.runningInstances. simpl. rewrite filter_app.
      rewrite filter_cons_False, filter_nil, app_nil_r; [done|].
      rewrite (halted_not_running _ Hhalt). by intros [_ ?].
    + intros _. by eexists.
  - destruct Hspec as (Hid & Hr & c & c' & -> & -> & Hr' & Hsk & Hwhy).
    destruct Hkind as [Hlt (_ & Hsl & Hstarted)]. split.
    + split; [done|]. split; [destruct Hwhy as [[_ ?]|(_ & _ & _ & ?)]; auto|].
      split; [apply lookup_insert_eq|].
      exists c'. split_and!; try done.
      * simpl in Hid, Hi. congruence.
      * congruence.
      * destruct Hwhy as [[-> ->]|(-> & _ & Hlv & _)]; [done|]. by rewrite (Hlv Hsl).
    + intros [Hge|[H1 H2]]; [lia|].
      destruct Hwhy as [[_ ?]|(_ & _ & _ & ?)]; congruence.
Qed.

Lemma X28_delete_after_create_witness :
  match Service.DeleteTask Ex.service2 (Service.ID Ex.task1) Ex.stuck with
  | Returned _ _ => False
  | Blocked s'' =>
      Service.instances s'' !! "task-1" = Some 1
      ∧ Instance.IsRunning <$> Service.objects s'' = [true; true]
  end.
Proof.
  destruct (X28_delete_after_create Ex.service1 Ex.service2 Ex.task1 true Ex.stuck)
    as [Hx _]; [vm_compute; reflexivity|].
  destruct (Service.DeleteTask Ex.service2 (Service.ID Ex.task1) Ex.stuck) as [err s''|s''].
  - destruct Hx as (_ & Hlv & _). destruct Hlv as [Hlv _]; [reflexivity|discriminate Hlv].
  - destruct Hx as (_ & _ & Hk & c & Hobjs & _ & Hr & _). split; [exact Hk|].
    rewrite Hobjs, fmap_app. simpl. rewrite Hr. vm_compute. reflexivity.
Defined.





